(** * Theme Intelligence Extractor: crawler and heuristic extraction

    A shallow embedding of the crawl-and-extract pipeline (the crawler
    module and the extraction module) together with the properties of it
    that the design document states.

    Conventions.
    - JavaScript strings are sequences of ASCII characters ([string]).
    - JavaScript numbers that count things are [nat]. The numbers that
      stack detection computes with (fingerprint weights, confidences and
      the differences the sort compares) are IEEE 754 binary64 values
      ([number]), with the arithmetic of the standard library's
      specification of binary floating point; so is the percentage in
      the alt-text detail. Decimal constants that are only stored in a
      record, and the alt-text coverage ratio where it is compared with
      its thresholds, are exact rationals [Q].
    - Regular expressions are an abstract syntax ([regex]) run by a
      backtracking matcher that follows the ECMAScript matching order
      (leftmost start, alternatives left to right, greedy and lazy
      quantifiers, empty iterations rejected); a regular-expression object
      is its pattern, its flags and the mutable [lastIndex], which is
      threaded explicitly wherever the source shares one object.
    - The network, the clock and the URL parser are external: they are the
      fields of [Platform]. *)

From Stdlib Require Import List String Ascii NArith ZArith QArith Qround Lia Lqa Bool.
From Stdlib Require Import Permutation Sorted.
From Stdlib Require Import DecimalString.
From Stdlib Require Floats.SpecFloat.
From stdpp Require Import base gmap sets strings.
Import ListNotations.

Local Open Scope string_scope.
Local Open Scope list_scope.
Local Open Scope nat_scope.

(* ===================================================================== *)
(** * Part I. Definitions                                                 *)
(* ===================================================================== *)

(** ** Characters and strings of the host language *)

Module JS.

Definition chars := list ascii.

Definition code (c : ascii) : N := N_of_ascii c.

Definition in_range (lo hi c : ascii) : bool :=
  (code lo <=? code c)%N && (code c <=? code hi)%N.

Definition is_upper (c : ascii) : bool := in_range "A" "Z" c.
Definition is_lower (c : ascii) : bool := in_range "a" "z" c.
Definition is_digit (c : ascii) : bool := in_range "0" "9" c.

Definition to_lower (c : ascii) : ascii :=
  if is_upper c then ascii_of_N (code c + 32) else c.

Definition to_upper (c : ascii) : ascii :=
  if is_lower c then ascii_of_N (code c - 32) else c.

(** [\w] *)
Definition is_word (c : ascii) : bool :=
  is_upper c || is_lower c || is_digit c || Ascii.eqb c "_".

(** [\s]: tab, line feed, vertical tab, form feed, carriage return, space. *)
Definition is_space (c : ascii) : bool :=
  ((9 <=? code c)%N && (code c <=? 13)%N) || (code c =? 32)%N.

Definition LF : ascii := ascii_of_N 10.
Definition DQ : ascii := ascii_of_N 34.

Definition of_string (s : string) : chars := list_ascii_of_string s.
Definition to_string (l : chars) : string := string_of_list_ascii l.

(** [s.slice(a, b)] for [0 <= a], [0 <= b]. *)
Definition slice_chars (a b : nat) (l : chars) : chars :=
  firstn (b - a) (skipn a l).

Definition slice (a b : nat) (s : string) : string :=
  to_string (slice_chars a b (of_string s)).

Definition toLowerCase (s : string) : string :=
  to_string (List.map to_lower (of_string s)).

Fixpoint drop_space (l : chars) : chars :=
  match l with
  | c :: tl => if is_space c then drop_space tl else l
  | [] => []
  end.

(** [s.trim()] *)
Definition trim (s : string) : string :=
  to_string (rev (drop_space (rev (drop_space (of_string s))))).

(** [s.startsWith(p)] *)
Definition startsWith (p s : string) : bool := String.prefix p s.

Fixpoint includes_chars (p l : chars) : bool :=
  if String.prefix (to_string p) (to_string l) then true
  else match l with
       | [] => false
       | _ :: tl => includes_chars p tl
       end.

(** [p] occurs in [s]. *)
Definition contains (p s : string) : Prop :=
  exists pre post, of_string s = pre ++ of_string p ++ post.

(** [s.includes(p)] *)
Definition includes (p s : string) : bool :=
  includes_chars (of_string p) (of_string s).

Fixpoint replace_first_chars (p : string) (l : chars) : chars :=
  if String.prefix p (to_string l) then skipn (String.length p) l
  else match l with
       | [] => []
       | c :: tl => c :: replace_first_chars p tl
       end.

(** [s.replace(p, '')] with a string pattern: only the first occurrence. *)
Definition replace_first (p s : string) : string :=
  to_string (replace_first_chars p (of_string s)).

Fixpoint split_chars (sep : ascii) (cur : chars) (l : chars) : list string :=
  match l with
  | [] => [to_string (rev cur)]
  | c :: tl =>
      if Ascii.eqb c sep then to_string (rev cur) :: split_chars sep [] tl
      else split_chars sep (c :: cur) tl
  end.

(** [s.split(sep)] for a one-character separator. *)
Definition split (sep : ascii) (s : string) : list string :=
  split_chars sep [] (of_string s).

(** [parts.join(sep)] *)
Fixpoint join (sep : string) (parts : list string) : string :=
  match parts with
  | [] => ""
  | [x] => x
  | x :: tl => x +:+ sep +:+ join sep tl
  end.

(** Decimal rendering of a count, as template literals do. *)
Definition show_nat (n : nat) : string :=
  NilZero.string_of_uint (Nat.to_uint n).

Definition show_Z (z : Z) : string :=
  NilZero.string_of_int (Z.to_int z).

(** [Math.round]: the nearest integer, halves rounded up. *)
Definition round (q : Q) : Z := Qfloor (q + (1 # 2)).

Definition Qgtb (x y : Q) : bool := negb (Qle_bool x y).
Definition Qmin (x y : Q) : Q := if Qle_bool x y then x else y.
Definition Qmax (x y : Q) : Q := if Qle_bool x y then y else x.

(** *** Numbers

    A JavaScript number is an IEEE 754 binary64 value: precision 53,
    exponents below 1024, results rounded to nearest with ties to even. *)

Definition number : Type := SpecFloat.spec_float.

Definition prec : Z := 53.
Definition emax : Z := 1024.

Definition num_of_Z (z : Z) : number :=
  SpecFloat.binary_normalize prec emax z 0 false.

Definition num_of_nat (n : nat) : number := num_of_Z (Z.of_nat n).

Definition fadd : number -> number -> number := SpecFloat.SFadd prec emax.
Definition fsub : number -> number -> number := SpecFloat.SFsub prec emax.
Definition fmul : number -> number -> number := SpecFloat.SFmul prec emax.
Definition fdiv : number -> number -> number := SpecFloat.SFdiv prec emax.

(** [x < y], [x <= y] and [x === y] on numbers. *)
Definition flt : number -> number -> bool := SpecFloat.SFltb.
Definition fle : number -> number -> bool := SpecFloat.SFleb.
Definition feq : number -> number -> bool := SpecFloat.SFeqb.

(** The number that a decimal literal denotes: the binary64 value nearest
    to it. The literal is given as the fraction it spells ([0.85] is
    [85 / 100]); both parts are small integers, so the correctly rounded
    quotient is the nearest value. *)
Definition double (q : Q) : number :=
  fdiv (num_of_Z (Qnum q)) (num_of_Z (Zpos (Qden q))).

Definition is_nan (x : number) : bool :=
  match x with SpecFloat.S754_nan => true | _ => false end.

Definition negative (x : number) : bool :=
  match x with
  | SpecFloat.S754_zero s | SpecFloat.S754_infinity s
  | SpecFloat.S754_finite s _ _ => s
  | SpecFloat.S754_nan => false
  end.

(** [Math.min(x, y)] and [Math.max(x, y)]: [NaN] when an argument is
    [NaN]; of two zeros the negative one is the smaller. *)
Definition Math_min (x y : number) : number :=
  if is_nan x || is_nan y then SpecFloat.S754_nan
  else if flt x y then x
  else if flt y x then y
  else if negative x then x else y.

Definition Math_max (x y : number) : number :=
  if is_nan x || is_nan y then SpecFloat.S754_nan
  else if flt x y then y
  else if flt y x then x
  else if negative x then y else x.

(** The exact value of a finite number. *)
Definition num_value (x : number) : Q :=
  match x with
  | SpecFloat.S754_finite s m e =>
      (inject_Z (if s then Zneg m else Zpos m) * Qpower 2 e)%Q
  | _ => 0%Q
  end.

(** [Math.round] of a number: the nearest integer to its exact value,
    halves rounded up. *)
Definition Math_round (x : number) : Z := round (num_value x).

(** The same number, bit for bit. *)
Definition num_same (x y : number) : bool :=
  match x, y with
  | SpecFloat.S754_zero s, SpecFloat.S754_zero s'
  | SpecFloat.S754_infinity s, SpecFloat.S754_infinity s' => Bool.eqb s s'
  | SpecFloat.S754_nan, SpecFloat.S754_nan => true
  | SpecFloat.S754_finite s m e, SpecFloat.S754_finite s' m' e' =>
      Bool.eqb s s' && Pos.eqb m m' && Z.eqb e e'
  | _, _ => false
  end.

(** *** Regular expressions *)

Inductive citem : Type :=
| One (c : ascii)
| Range (lo hi : ascii)
| Space          (* \s *)
| NonSpace       (* \S *)
| Digit          (* \d *)
| Word.          (* \w *)

Inductive regex : Type :=
| Eps
| Chr (c : ascii)
| Cls (neg : bool) (items : list citem)
| Seq (r1 r2 : regex)
| Alt (r1 r2 : regex)
| Rep (lo : nat) (hi : option nat) (greedy : bool) (r : regex)
| Grp (i : nat) (r : regex)
| WordB          (* \b *)
| Bol            (* ^ *)
| Eol.           (* $ *)

Definition Star (r : regex) : regex := Rep 0 None true r.
Definition Plus (r : regex) : regex := Rep 1 None true r.
Definition Opt (r : regex) : regex := Rep 0 (Some 1) true r.
Definition LazyStar (r : regex) : regex := Rep 0 None false r.

Fixpoint lit_chars (l : chars) : regex :=
  match l with
  | [] => Eps
  | [c] => Chr c
  | c :: tl => Seq (Chr c) (lit_chars tl)
  end.

(** A run of literal characters. *)
Definition lit (s : string) : regex := lit_chars (of_string s).

Fixpoint seqs (rs : list regex) : regex :=
  match rs with
  | [] => Eps
  | [r] => r
  | r :: tl => Seq r (seqs tl)
  end.

Fixpoint alts (rs : list regex) : regex :=
  match rs with
  | [] => Eps
  | [r] => r
  | r :: tl => Alt r (alts tl)
  end.

Definition citem_mem (it : citem) (c : ascii) : bool :=
  match it with
  | One x => Ascii.eqb x c
  | Range lo hi => in_range lo hi c
  | Space => is_space c
  | NonSpace => negb (is_space c)
  | Digit => is_digit c
  | Word => is_word c
  end.

Definition items_mem (items : list citem) (c : ascii) : bool :=
  existsb (fun it => citem_mem it c) items.

(** Membership in a character class; with the [i] flag a character matches
    when one of its case variants is in the class. *)
Definition cls_mem (ci neg : bool) (items : list citem) (c : ascii) : bool :=
  let hit :=
    if ci then items_mem items c || items_mem items (to_lower c)
              || items_mem items (to_upper c)
    else items_mem items c in
  xorb neg hit.

Definition chr_eq (ci : bool) (x c : ascii) : bool :=
  if ci then Ascii.eqb (to_lower x) (to_lower c) else Ascii.eqb x c.

(** Matcher state: the character before the current position, the rest of
    the input, the current index and the captures closed so far. *)
Record mstate : Type := MState {
  prev : option ascii;
  rest : chars;
  pos : nat;
  caps : list (nat * (nat * nat))
}.

Definition advance (s : mstate) : option (ascii * mstate) :=
  match rest s with
  | [] => None
  | c :: tl => Some (c, MState (Some c) tl (S (pos s)) (caps s))
  end.

Definition set_cap (i a b : nat) (s : mstate) : mstate :=
  MState (prev s) (rest s) (pos s) ((i, (a, b)) :: caps s).

Definition at_word_boundary (s : mstate) : bool :=
  let a := match prev s with Some c => is_word c | None => false end in
  let b := match rest s with c :: _ => is_word c | [] => false end in
  xorb a b.

Definition cont := mstate -> option mstate.

(** Quantifier loop. [fuel] bounds the iterations; an iteration past the
    minimum that consumes nothing is discarded, as in ECMAScript. *)
Fixpoint rep_loop (body : mstate -> cont -> option mstate)
    (fuel lo : nat) (hi : option nat) (greedy : bool)
    (s : mstate) (k : cont) : option mstate :=
  match fuel with
  | 0 => None
  | S fuel' =>
      match hi with
      | Some 0 => k s
      | _ =>
          let again :=
            body s (fun s' =>
              if (lo =? 0) && (pos s' =? pos s) then None
              else rep_loop body fuel' (Nat.pred lo)
                     (option_map Nat.pred hi) greedy s' k) in
          if 0 <? lo then again
          else if greedy then
            match again with Some r => Some r | None => k s end
          else
            match k s with Some r => Some r | None => again end
      end
  end.

Fixpoint run (ci : bool) (r : regex) (s : mstate) (k : cont) : option mstate :=
  match r with
  | Eps => k s
  | Chr x =>
      match advance s with
      | Some (c, s') => if chr_eq ci x c then k s' else None
      | None => None
      end
  | Cls neg items =>
      match advance s with
      | Some (c, s') => if cls_mem ci neg items c then k s' else None
      | None => None
      end
  | Seq r1 r2 => run ci r1 s (fun s' => run ci r2 s' k)
  | Alt r1 r2 =>
      match run ci r1 s k with
      | Some f => Some f
      | None => run ci r2 s k
      end
  | Rep lo hi greedy r1 =>
      rep_loop (run ci r1) (S (lo + length (rest s))) lo hi greedy s k
  | Grp i r1 =>
      run ci r1 s (fun s' => k (set_cap i (pos s) (pos s') s'))
  | WordB => if at_word_boundary s then k s else None
  | Bol => match prev s with None => k s | Some _ => None end
  | Eol => match rest s with [] => k s | _ :: _ => None end
  end.

(** A lower bound on the number of characters a match consumes. *)
Fixpoint min_len (r : regex) : nat :=
  match r with
  | Eps | WordB | Bol | Eol => 0
  | Chr _ | Cls _ _ => 1
  | Seq r1 r2 => min_len r1 + min_len r2
  | Alt r1 r2 => Nat.min (min_len r1) (min_len r2)
  | Rep lo hi _ r1 =>
      match hi with
      | Some 0 => 0
      | _ => if lo =? 0 then 0 else min_len r1
      end
  | Grp _ r1 => min_len r1
  end.

(** [s'] lies at least [n] characters after [s] in the same input. *)
Definition follows (n : nat) (s s' : mstate) : Prop :=
  pos s + n <= pos s' /\ pos s' + length (rest s') = pos s + length (rest s).

(** Every state that [body] hands to its continuation lies at least [n]
    characters further on. *)
Definition progresses (n : nat) (body : mstate -> cont -> option mstate) : Prop :=
  forall s k f, body s k = Some f -> exists s', k s' = Some f /\ follows n s s'.

(** [body] consults its continuation only at states further on in the
    same input. *)
Definition local (body : mstate -> cont -> option mstate) : Prop :=
  forall s k k',
    (forall s', follows 0 s s' -> k s' = k' s') -> body s k = body s k'.

(** The indices of the groups of a pattern. *)
Fixpoint groups (r : regex) : list nat :=
  match r with
  | Seq r1 r2 | Alt r1 r2 => groups r1 ++ groups r2
  | Rep _ _ _ r1 => groups r1
  | Grp i r1 => i :: groups r1
  | _ => []
  end.

(** [s'] holds the captures of [s] and, set after them, captures of the
    groups [gs] only. *)
Definition extends (gs : list nat) (s s' : mstate) : Prop :=
  exists new,
    caps s' = new ++ caps s /\ Forall (fun e => In (fst e) gs) new.

(** Every state that [body] hands to its continuation extends the state
    it started from by captures of the groups [gs]. *)
Definition captures (gs : list nat) (body : mstate -> cont -> option mstate)
    : Prop :=
  forall s k f, body s k = Some f -> exists s', k s' = Some f /\ extends gs s s'.

(** A regular-expression literal: pattern and flags. *)
Record RegExp : Type := MkRegExp {
  pattern : regex;
  global : bool;
  ignoreCase : bool
}.

Definition re_i (r : regex) : RegExp := MkRegExp r false true.
Definition re_gi (r : regex) : RegExp := MkRegExp r true true.
Definition re_g (r : regex) : RegExp := MkRegExp r true false.
Definition re_plain (r : regex) : RegExp := MkRegExp r false false.

(** A successful match: start index, end index, captures. *)
Record Match : Type := MkMatch {
  m_index : nat;
  m_end : nat;
  m_caps : list (nat * (nat * nat))
}.

(** Try every start position from the current one, leftmost first. *)
Fixpoint search (re : RegExp) (pv : option ascii) (rs : chars) (p : nat)
    : option Match :=
  match run (ignoreCase re) (pattern re) (MState pv rs p []) Some with
  | Some f => Some (MkMatch p (pos f) (caps f))
  | None =>
      match rs with
      | [] => None
      | c :: tl => search re (Some c) tl (S p)
      end
  end.

(** Position [i] of the input, or [None] when [i] is past the end. *)
Fixpoint seek (pv : option ascii) (rs : chars) (i : nat) {struct i}
    : option (option ascii * chars) :=
  match i with
  | 0 => Some (pv, rs)
  | S j =>
      match rs with
      | [] => None
      | c :: tl => seek (Some c) tl j
      end
  end.

Definition search_from (re : RegExp) (input : chars) (i : nat) : option Match :=
  match seek None input i with
  | None => None
  | Some (pv, rs) => search re pv rs i
  end.

(** [re.exec(input)] with the object's [lastIndex] before the call; returns
    the match and [lastIndex] after the call. *)
Definition exec (re : RegExp) (input : string) (lastIndex : nat)
    : option Match * nat :=
  if global re then
    match search_from re (of_string input) lastIndex with
    | Some m => (Some m, m_end m)
    | None => (None, 0)
    end
  else (search_from re (of_string input) 0, lastIndex).

(** [re.test(input)] *)
Definition test (re : RegExp) (input : string) (lastIndex : nat) : bool * nat :=
  let '(m, li) := exec re input lastIndex in
  (match m with Some _ => true | None => false end, li).

(** [re.test(input)] for a pattern without the [g] flag: no state. *)
Definition test0 (re : RegExp) (input : string) : bool :=
  fst (test re input 0).

(** [match[0]] *)
Definition matched (input : string) (m : Match) : string :=
  slice (m_index m) (m_end m) input.

Fixpoint find_cap (i : nat) (cs : list (nat * (nat * nat))) : option (nat * nat) :=
  match cs with
  | [] => None
  | (j, ab) :: tl => if i =? j then Some ab else find_cap i tl
  end.

(** [match[i]] for [i >= 1]; [None] is [undefined]. *)
Definition group (input : string) (m : Match) (i : nat) : option string :=
  match find_cap i (m_caps m) with
  | Some (a, b) => Some (slice a b input)
  | None => None
  end.

Definition group_or_empty (input : string) (m : Match) (i : nat) : string :=
  match group input m i with Some s => s | None => "" end.

(** All matches of a [g] pattern, as [String.prototype.match] and
    [String.prototype.replace] enumerate them: each search starts where the
    previous match ended, one further after an empty match. *)
Fixpoint scan (re : RegExp) (pv : option ascii) (rs : chars) (p next : nat)
    : list Match :=
  let continue nx :=
    match rs with
    | [] => []
    | c :: tl => scan re (Some c) tl (S p) nx
    end in
  if p <? next then continue next
  else
    match run (ignoreCase re) (pattern re) (MState pv rs p []) Some with
    | Some f => MkMatch p (pos f) (caps f) :: continue (Nat.max (pos f) (S p))
    | None => continue next
    end.

Definition matches (re : RegExp) (input : string) : list Match :=
  scan re None (of_string input) 0 0.

(** [input.match(re) || []] for a [g] pattern. *)
Definition match_all (re : RegExp) (input : string) : list string :=
  List.map (matched input) (matches re input).

(** The input with the listed (ordered, disjoint) matches cut out. *)
Fixpoint cut (input : chars) (from : nat) (ms : list Match) : chars :=
  match ms with
  | [] => skipn from input
  | m :: tl => slice_chars from (m_index m) input ++ cut input (m_end m) tl
  end.

(** [input.replace(re, '')] for a [g] pattern: every match removed. *)
Definition replace_all (re : RegExp) (input : string) : string :=
  to_string (cut (of_string input) 0 (matches re input)).

(** [input.replace(re, '')] for a pattern without [g]: first match removed. *)
Definition replace_one (re : RegExp) (input : string) : string :=
  match search_from re (of_string input) 0 with
  | Some m => to_string (cut (of_string input) 0 [m])
  | None => input
  end.

(** [input.split(re)[0]] for a pattern that matches no empty string. *)
Definition split_head (re : RegExp) (input : string) : string :=
  match search_from re (of_string input) 0 with
  | Some m => slice 0 (m_index m) input
  | None => input
  end.

End JS.

(** ** Shared types of the pipeline (types module) *)

Module Types.

Inductive SourceType : Type := src_html | src_css | src_headers | src_js_hint.

Record SourceInfo : Type := MkSourceInfo {
  sourceType : SourceType;
  sourceUrl : string;
  sampleSnippet : string;
  confidence : Q
}.

Record CrawlResult : Type := MkCrawlResult {
  cr_url : string;
  cr_finalUrl : string;
  cr_status : nat;
  cr_contentType : string;
  cr_html : string;
  cr_cssLinks : list string;
  cr_jsLinks : list string;
  cr_internalLinks : list string;
  cr_error : option string
}.

Record CrawledPage : Type := MkCrawledPage {
  url : string;
  finalUrl : string;
  status : nat;
  htmlSnippet : string;
  fullHtml : string;
  cssLinks : list string;
  jsLinks : list string;
  internalLinks : list string;
  crawledAt : string;
  error : option string
}.

Inductive RobotsStatus : Type := allowed | blocked | unknown | robots_error.

(** [cssContents] is a [Map]: unique keys, iterated in insertion order. *)
Record CrawlSession : Type := MkCrawlSession {
  startUrl : string;
  pages : list CrawledPage;
  cssContents : list (string * string);
  robotsTxtStatus : RobotsStatus;
  robotsTxtWarning : option string;
  totalRequests : nat;
  failedRequests : nat;
  crawlDuration : nat
}.

Record ExtractorConfig : Type := MkExtractorConfig {
  themeUrl : string;
  maxPages : nat;
  sameOriginOnly : bool;
  includeAssets : bool
}.

Inductive Category : Type :=
  framework | css_framework | ui_library | build_tool | other.

Record StackSignal : Type := MkStackSignal {
  sig_name : string;
  sig_category : Category;
  sig_confidence : JS.number;
  sig_evidence : list string;
  sig_sourceUrls : list string
}.

Inductive ColorFormat : Type := hex | rgb | rgba | hsl | hsla | named.

Inductive ColorUsage : Type :=
  u_primary | u_secondary | u_accent | u_background | u_foreground
| u_border | u_unknown.

Record ColorToken : Type := MkColorToken {
  ct_name : string;
  ct_value : string;
  ct_format : ColorFormat;
  ct_usage : ColorUsage;
  ct_source : SourceInfo
}.

Record Heading : Type := MkHeading {
  h_tag : string;
  h_fontSize : option string;
  h_fontWeight : option string;
  h_lineHeight : option string;
  h_fontFamily : option string;
  h_source : SourceInfo
}.

Record BodyText : Type := MkBodyText {
  b_fontSize : option string;
  b_lineHeight : option string;
  b_fontFamily : option string;
  b_source : SourceInfo
}.

Record ExtractedValue : Type := MkExtractedValue {
  ev_value : string;
  ev_source : SourceInfo
}.

Record TypographyScale : Type := MkTypographyScale {
  headings : list Heading;
  bodyText : option BodyText;
  fontFamilies : list ExtractedValue
}.

Inductive ComponentType : Type :=
  t_button | t_card | t_nav | t_hero | t_form | t_input | t_modal.

Record ComponentPattern : Type := MkComponentPattern {
  cp_name : ComponentType;
  cp_type : ComponentType;
  classPatterns : list string;
  hasHoverState : bool;
  hasFocusState : bool;
  hasActiveState : bool;
  cp_source : SourceInfo
}.

Record AccessibilitySignal : Type := MkAccessibilitySignal {
  feature : string;
  present : bool;
  details : option string;
  a_source : SourceInfo
}.

End Types.

(** An insertion-ordered [Map] with string keys. *)
Module OMap.

Definition t (V : Type) := list (string * V).

Fixpoint has {V} (k : string) (m : t V) : bool :=
  match m with
  | [] => false
  | (k', _) :: tl => String.eqb k k' || has k tl
  end.

(** [m.set(k, v)]: a present key keeps its place, a new key goes last. *)
Fixpoint set {V} (k : string) (v : V) (m : t V) : t V :=
  match m with
  | [] => [(k, v)]
  | (k', v') :: tl =>
      if String.eqb k k' then (k', v) :: tl else (k', v') :: set k v tl
  end.

Definition values {V} (m : t V) : list V := List.map snd m.
Definition keys {V} (m : t V) : list string := List.map fst m.

End OMap.

(** An insertion-ordered [Set] of strings. *)
Module OSet.

Definition t := list string.

Definition has (k : string) (s : t) : bool :=
  existsb (String.eqb k) s.

Definition add (k : string) (s : t) : t :=
  if has k s then s else s ++ [k].

End OSet.

(** [Array.prototype.sort(cmp)]: stable; [x] stays in front of [y] unless
    [cmp x y > 0]. *)
Module Sort.

Import JS.

(** What the sort asks of the comparator's result: [cmp(x, y) > 0]. *)
Definition positive (x : number) : bool := flt (num_of_Z 0) x.

Fixpoint insert_by {A} (cmp : A -> A -> number) (x : A) (l : list A)
    : list A :=
  match l with
  | [] => [x]
  | y :: tl =>
      if positive (cmp x y) then y :: insert_by cmp x tl else x :: y :: tl
  end.

Definition sort {A} (cmp : A -> A -> number) (l : list A) : list A :=
  fold_right (insert_by cmp) [] l.

(** The comparator [(a, b) => key(b) - key(a)] of a descending sort, and
    the order it produces. *)
Definition desc {A} (key : A -> number) (a b : A) : number :=
  fsub (key b) (key a).

Definition geq {A} (key : A -> number) (a b : A) : Prop :=
  fle (key b) (key a) = true.

End Sort.

(** ** Extraction module *)

Module Extract.

Import JS Types.

(** [while ((match = re.exec(input)) !== null) body], entered with
    [lastIndex = 0]. [None] when the fuel runs out before [exec] fails. *)
Fixpoint exec_loop {A} (fuel : nat) (re : RegExp) (input : string)
    (lastIndex : nat) (body : Match -> A -> A) (acc : A) : option A :=
  match fuel with
  | 0 => None
  | S fuel' =>
      match exec re input lastIndex with
      | (None, _) => Some acc
      | (Some m, li) => exec_loop fuel' re input li body (body m acc)
      end
  end.

Definition while_exec {A} (re : RegExp) (input : string)
    (body : Match -> A -> A) (acc : A) : option A :=
  exec_loop (S (String.length input)) re input 0 body acc.

(** The successive results of [re.exec(input)] from [lastIndex] on, up to
    the first failure. *)
Fixpoint exec_all (fuel : nat) (re : RegExp) (input : string) (lastIndex : nat)
    : list Match :=
  match fuel with
  | 0 => []
  | S fuel' =>
      match exec re input lastIndex with
      | (None, _) => []
      | (Some m, li) => m :: exec_all fuel' re input li
      end
  end.

(** The matches of a [g] pattern in scan order. *)
Definition successive_matches (re : RegExp) (input : string) : list Match :=
  exec_all (S (String.length input)) re input 0.

Definition cls := Cls false.
Definition ncls := Cls true.
Definition ws := Star (cls [Space]).

(** *** Stack detection *)

Record Fingerprint : Type := MkFingerprint {
  fp_regex : RegExp;
  weight : number;
  description : string
}.

Record StackDetector : Type := MkStackDetector {
  sd_name : string;
  sd_category : Category;
  patterns : list Fingerprint
}.

(** A table entry: the pattern, the weight as its decimal literal, the
    description. *)
Definition fp (r : regex) (w : Q) (d : string) : Fingerprint :=
  MkFingerprint (re_i r) (double w) d.

Definition class_attr_with (words : list string) : regex :=
  seqs [WordB; lit "class="; Chr DQ; Star (ncls [One DQ]);
        alts (List.map lit words); Star (ncls [One DQ]); Chr DQ].

Definition STACK_DETECTORS : list StackDetector := [
  MkStackDetector "Next.js" framework [
    fp (lit "__NEXT_DATA__") 0.9 "__NEXT_DATA__ script";
    fp (lit "/_next/") 0.8 "/_next/ assets";
    fp (lit "next/head") 0.7 "next/head import";
    fp (lit "data-nscript") 0.6 "Next.js script attribute" ];
  MkStackDetector "React" framework [
    fp (lit "data-reactroot") 0.9 "data-reactroot attribute";
    fp (lit "__REACT_DEVTOOLS") 0.8 "React DevTools";
    fp (seqs [lit "react"; Opt (lit ".min"); lit ".js"]) 0.7 "React bundle";
    fp (lit "react-dom") 0.6 "react-dom reference" ];
  MkStackDetector "Vue.js" framework [
    fp (seqs [lit "data-v-"; Plus (cls [Range "a" "f"; Range "0" "9"])]) 0.9
       "Vue scoped style attribute";
    fp (lit "__VUE__") 0.8 "__VUE__ global";
    fp (seqs [lit "vue"; Opt (lit ".min"); lit ".js"]) 0.7 "Vue bundle" ];
  MkStackDetector "Nuxt" framework [
    fp (lit "__NUXT__") 0.9 "__NUXT__ data";
    fp (lit "/_nuxt/") 0.8 "/_nuxt/ assets" ];
  MkStackDetector "Svelte" framework [
    fp (seqs [lit "svelte-"; Plus (cls [Range "a" "z"; Range "0" "9"])]) 0.8
       "Svelte class pattern";
    fp (lit "__svelte") 0.9 "__svelte marker" ];
  MkStackDetector "Tailwind CSS" css_framework [
    fp (lit "tailwindcss") 0.9 "tailwindcss reference";
    fp (seqs [lit "--tw-"; Plus (cls [Range "a" "z"; One "-"])]) 0.85
       "Tailwind CSS variable";
    fp (class_attr_with ["bg-"; "text-"; "flex"; "grid"; "p-"; "m-"; "w-"; "h-"])
       0.6 "Tailwind utility classes";
    fp (seqs [WordB; alts [lit "sm:"; lit "md:"; lit "lg:"; lit "xl:"; lit "2xl:"];
              cls [Range "a" "z"]]) 0.7 "Tailwind breakpoint prefix" ];
  MkStackDetector "shadcn/ui" ui_library [
    fp (lit "@radix-ui") 0.8 "@radix-ui import";
    fp (seqs [WordB; lit "cn"; ws; Chr "("]) 0.6 "cn() utility function";
    fp (lit "data-[state=") 0.7 "Radix state attribute";
    fp (lit "class-variance-authority") 0.8 "CVA import" ];
  MkStackDetector "Bootstrap" css_framework [
    fp (seqs [lit "bootstrap"; Opt (lit ".min"); lit ".css"]) 0.9 "Bootstrap CSS";
    fp (class_attr_with ["container"; "row"; "col-"]) 0.7 "Bootstrap grid classes";
    fp (seqs [WordB; lit "btn-";
              alts [lit "primary"; lit "secondary"; lit "success"; lit "danger"]])
       0.8 "Bootstrap button classes" ];
  MkStackDetector "Material UI" ui_library [
    fp (lit "@mui/") 0.9 "@mui/ import";
    fp (alts [lit "MuiButton"; lit "MuiCard"; lit "MuiTypography"]) 0.8
       "MUI component class";
    fp (lit "__emotion") 0.5 "Emotion (MUI styling)" ];
  MkStackDetector "Chakra UI" ui_library [
    fp (lit "@chakra-ui") 0.9 "@chakra-ui import";
    fp (lit "chakra-") 0.7 "Chakra class prefix" ];
  MkStackDetector "Vite" build_tool [
    fp (lit "@vite") 0.8 "@vite reference";
    fp (lit "vite.config") 0.9 "Vite config" ];
  MkStackDetector "Webpack" build_tool [
    fp (lit "webpackJsonp") 0.8 "Webpack runtime";
    fp (lit "__webpack_require__") 0.9 "Webpack require" ]
].

Definition nl : string := String LF "".

(** The combined corpus: every page's markup, then every stylesheet. *)
Definition allContent (session : CrawlSession) : string :=
  join nl (List.map fullHtml (pages session) ++ OMap.values (cssContents session)).

(** Per-detector accumulator: evidence, source URLs, maximum weight. *)
Definition DetState : Type := (list string * OSet.t * number)%type.

Definition pattern_step (session : CrawlSession) (corpus : string)
    (st : DetState) (pattern : Fingerprint) : DetState :=
  let '(evidence, sourceUrls, maxConfidence) := st in
  if test0 (fp_regex pattern) corpus then
    let evidence := evidence ++ [description pattern] in
    let maxConfidence := Math_max maxConfidence (weight pattern) in
    let sourceUrls :=
      fold_left (fun acc page =>
                   if test0 (fp_regex pattern) (fullHtml page)
                   then OSet.add (finalUrl page) acc else acc)
                (pages session) sourceUrls in
    let sourceUrls :=
      fold_left (fun acc entry =>
                   if test0 (fp_regex pattern) (snd entry)
                   then OSet.add (fst entry) acc else acc)
                (cssContents session) sourceUrls in
    (evidence, sourceUrls, maxConfidence)
  else st.

Definition run_detector (session : CrawlSession) (corpus : string)
    (detector : StackDetector) : DetState :=
  fold_left (pattern_step session corpus) (patterns detector)
    ([], [], num_of_Z 0).

Definition count_Q (n : nat) : Q := inject_Z (Z.of_nat n).

Definition finalConfidence (maxConfidence : number) (evidenceCount : nat)
    : number :=
  let confidenceBoost :=
    Math_min (fmul (double 0.1) (fsub (num_of_nat evidenceCount) (num_of_Z 1)))
             (double 0.15) in
  Math_min (fadd maxConfidence confidenceBoost) (num_of_Z 1).

Definition detector_step (session : CrawlSession) (corpus : string)
    (signals : OMap.t StackSignal) (detector : StackDetector)
    : OMap.t StackSignal :=
  let '(evidence, sourceUrls, maxConfidence) :=
    run_detector session corpus detector in
  if 0 <? length evidence then
    OMap.set (sd_name detector)
      (MkStackSignal (sd_name detector) (sd_category detector)
         (finalConfidence maxConfidence (length evidence))
         evidence sourceUrls)
      signals
  else signals.

Definition detectStackWith (table : list StackDetector)
    (session : CrawlSession) : list StackSignal :=
  let signals := fold_left (detector_step session (allContent session)) table [] in
  Sort.sort (fun a b => fsub (sig_confidence b) (sig_confidence a))
            (OMap.values signals).

Definition detectStack : CrawlSession -> list StackSignal :=
  detectStackWith STACK_DETECTORS.

(** *** Colour tokens *)

Definition ident_char : list citem :=
  [Range "a" "z"; Range "A" "Z"; Range "0" "9"; One "_"; One "-"].

Definition value_run : regex := Plus (ncls [One ";"; One "}"; One LF]).

Definition CSS_VAR_REGEX : RegExp :=
  re_g (seqs [lit "--"; Grp 1 (Plus (cls ident_char)); ws; Chr ":"; ws;
              Grp 2 value_run]).

Definition paren_call (fn : string) : regex :=
  seqs [lit fn; Opt (Chr "a"); ws; Chr "("; Plus (ncls [One ")"]); Chr ")"].

Definition COLOR_REGEX : RegExp :=
  re_gi (alts [
    seqs [Chr "#";
          Grp 1 (Rep 3 (Some 8) true
                   (cls [Range "a" "f"; Range "A" "F"; Range "0" "9"]));
          WordB];
    paren_call "rgb";
    paren_call "hsl" ]).

Definition decl_regex (prop : string) (stop : list citem) : regex :=
  seqs [lit prop; ws; Chr ":"; ws; Grp 1 (Plus (ncls stop))].

Definition FONT_FAMILY_REGEX : RegExp :=
  re_gi (decl_regex "font-family" [One ";"; One "}"; One LF]).

(** The [lastIndex] fields of the module-level pattern objects that
    [extractColors] touches. *)
Record Globals : Type := MkGlobals {
  CSS_VAR_REGEX_lastIndex : nat;
  COLOR_REGEX_lastIndex : nat
}.

(** The state right after the module is loaded. *)
Definition fresh : Globals := MkGlobals 0 0.

Definition getColorFormat (value : string) : ColorFormat :=
  if startsWith "#" value then hex
  else if startsWith "rgba" value then rgba
  else if startsWith "rgb" value then rgb
  else if startsWith "hsla" value then hsla
  else if startsWith "hsl" value then hsl
  else named.

Definition inferColorUsage (name : string) : ColorUsage :=
  let lowerName := toLowerCase name in
  if test0 (re_i (alts [lit "background"; lit "bg"])) lowerName then u_background
  else if test0 (re_i (alts [lit "foreground"; lit "fg"; lit "text"])) lowerName
  then u_foreground
  else if test0 (re_i (lit "primary")) lowerName then u_primary
  else if test0 (re_i (lit "secondary")) lowerName then u_secondary
  else if test0 (re_i (lit "accent")) lowerName then u_accent
  else if test0 (re_i (lit "border")) lowerName then u_border
  else u_unknown.

(** One turn of the loop over the custom properties of [css]; the state is
    the [colors] map and [COLOR_REGEX.lastIndex]. *)
Definition color_step (css sourceUrl : string) (m : Match)
    (st : OMap.t ColorToken * nat) : OMap.t ColorToken * nat :=
  let '(colors, color_li) := st in
  let fullMatch := matched css m in
  let name := group_or_empty css m 1 in
  let value := group_or_empty css m 2 in
  let trimmedValue := trim value in
  let '(is_color, color_li) := test COLOR_REGEX trimmedValue color_li in
  if is_color then
    let color_li := 0 in
    let '(colorMatch, color_li) := exec COLOR_REGEX trimmedValue color_li in
    match colorMatch with
    | Some cm =>
        let colorValue := matched trimmedValue cm in
        if negb (OMap.has colorValue colors) then
          (OMap.set colorValue
             (MkColorToken ("--" +:+ name) colorValue
                (getColorFormat colorValue) (inferColorUsage name)
                (MkSourceInfo src_css sourceUrl (slice 0 80 fullMatch) 0.85))
             colors, color_li)
        else (colors, color_li)
    | None => (colors, color_li)
    end
  else (colors, color_li).

(** [extractColors(css, sourceUrl)] run in the global state [g]: the tokens
    and the global state it leaves behind. *)
Definition extractColors (css sourceUrl : string) (g : Globals)
    : option (list ColorToken * Globals) :=
  match while_exec CSS_VAR_REGEX css (color_step css sourceUrl)
          ([], COLOR_REGEX_lastIndex g) with
  | Some (colors, color_li) => Some (OMap.values colors, MkGlobals 0 color_li)
  | None => None
  end.

(** *** Typography scale *)

Definition STYLE_TAG_REGEX : RegExp :=
  re_gi (seqs [lit "<style"; Star (ncls [One ">"]); Chr ">";
               Grp 1 (LazyStar (cls [Space; NonSpace])); lit "</style>"]).

Definition STYLE_STRIP_REGEX : RegExp :=
  re_gi (seqs [Chr "<"; Opt (Chr "/"); lit "style"; Star (ncls [One ">"]);
               Chr ">"]).

(** The inline style blocks of a page, tags stripped. *)
Definition inline_styles (p : CrawledPage) : list string :=
  let styleMatches := match_all STYLE_TAG_REGEX (fullHtml p) in
  List.map (fun m => replace_all STYLE_STRIP_REGEX m) styleMatches.

Definition scale_css (session : CrawlSession) : string :=
  join nl (flat_map inline_styles (pages session)
           ++ OMap.values (cssContents session)).

(** The trimmed first group of the first match of [prop : value] in
    [styles], where the value runs up to the next semicolon. *)
Definition sub_decl (prop styles : string) : option string :=
  match search_from (re_i (decl_regex prop [One ";"])) (of_string styles) 0 with
  | Some m => option_map trim (group styles m 1)
  | None => None
  end.

Definition headingRegex : RegExp :=
  re_gi (seqs [WordB; Grp 1 (Seq (Chr "h") (cls [Range "1" "6"])); ws; Chr "{";
               Grp 2 (Plus (ncls [One "}"])); Chr "}"]).

Definition bodyRegex : RegExp :=
  re_gi (seqs [WordB; lit "body"; ws; Chr "{"; Grp 1 (Plus (ncls [One "}"]));
               Chr "}"]).

Definition heading_of (session : CrawlSession) (allCSS : string) (m : Match)
    : Heading :=
  let tag := toLowerCase (group_or_empty allCSS m 1) in
  let styles := group_or_empty allCSS m 2 in
  MkHeading tag
    (sub_decl "font-size" styles) (sub_decl "font-weight" styles)
    (sub_decl "line-height" styles) (sub_decl "font-family" styles)
    (MkSourceInfo src_css (startUrl session) (slice 0 100 (matched allCSS m)) 0.8).

Definition body_of (session : CrawlSession) (allCSS : string) (m : Match)
    : BodyText :=
  let styles := group_or_empty allCSS m 1 in
  MkBodyText
    (sub_decl "font-size" styles) (sub_decl "line-height" styles)
    (sub_decl "font-family" styles)
    (MkSourceInfo src_css (startUrl session) (slice 0 100 (matched allCSS m)) 0.8).

Definition font_step (session : CrawlSession) (allCSS : string) (m : Match)
    (st : list ExtractedValue * OSet.t) : list ExtractedValue * OSet.t :=
  let '(fontFamilies, seenFonts) := st in
  let value := trim (group_or_empty allCSS m 1) in
  if negb (OSet.has value seenFonts) then
    (fontFamilies ++
       [MkExtractedValue value
          (MkSourceInfo src_css (startUrl session)
             (slice 0 80 (matched allCSS m)) 0.75)],
     OSet.add value seenFonts)
  else st.

(** [FONT_FAMILY_REGEX] is shared, but its [lastIndex] is set to 0 before
    the loop and is 0 again when the loop ends. *)
Definition extractTypographyScale (session : CrawlSession)
    : option TypographyScale :=
  let allCSS := scale_css session in
  match while_exec headingRegex allCSS
          (fun m headings => headings ++ [heading_of session allCSS m]) [] with
  | None => None
  | Some headings =>
      match while_exec FONT_FAMILY_REGEX allCSS
              (font_step session allCSS) ([], []) with
      | None => None
      | Some (fontFamilies, _) =>
          match while_exec bodyRegex allCSS
                  (fun m _ => Some (body_of session allCSS m)) None with
          | None => None
          | Some bodyText =>
              Some (MkTypographyScale headings bodyText fontFamilies)
          end
      end
  end.

(** *** Component patterns *)

Definition rule_head (cls_name : string) : RegExp :=
  re_gi (seqs [lit cls_name; Star (ncls [One "{"]); Chr "{"]).

Definition attr_selector (attr value : string) : RegExp :=
  re_gi (seqs [lit attr; Chr DQ; lit value; Chr DQ; Chr "]"]).

Definition componentPatterns : list (ComponentType * list RegExp) := [
  (t_button, [rule_head ".btn"; rule_head ".button";
              attr_selector "[class*=" "btn"]);
  (t_card, [rule_head ".card"; re_gi (lit ".card-body");
            re_gi (lit ".card-header")]);
  (t_nav, [rule_head ".nav"; rule_head ".navbar"; rule_head ".navigation"]);
  (t_hero, [rule_head ".hero"; re_gi (lit ".hero-section"); rule_head ".banner"]);
  (t_form, [rule_head ".form"; re_gi (lit ".form-group");
            re_gi (lit ".form-control")]);
  (t_input, [rule_head ".input"; re_gi (lit "input[type");
             re_gi (lit ".text-field")]);
  (t_modal, [rule_head ".modal"; rule_head ".dialog";
             attr_selector "[role=" "dialog"])
].

(** The distinct members of [l], first occurrences in order. *)
Definition uniq (l : list string) : list string :=
  fold_left (fun acc x => OSet.add x acc) l [].

(** The pattern built at run time from [baseClass] for one pseudo-class:
    a dot, the base class, any run without an opening brace, the
    pseudo-class; flag [i]. [baseClass] holds only letters, digits, [_]
    and [-], which stand for themselves in a pattern. *)
Definition state_regex (baseClass state : string) : RegExp :=
  re_i (seqs [Chr "."; lit baseClass; Star (ncls [One "{"]); lit state]).

Definition collect_class_patterns (allCSS : string) (regexPatterns : list RegExp)
    : option (list string) :=
  fold_left
    (fun acc regex =>
       match acc with
       | None => None
       | Some classPatterns =>
           while_exec regex allCSS
             (fun m cps =>
                cps ++ [trim (replace_one (re_plain (Seq (Chr "{") Eol))
                                (matched allCSS m))])
             classPatterns
       end)
    regexPatterns (Some []).

Definition component_step (session : CrawlSession) (allCSS : string)
    (acc : option (list ComponentPattern))
    (entry : ComponentType * list RegExp) : option (list ComponentPattern) :=
  let '(type, regexPatterns) := entry in
  match acc, collect_class_patterns allCSS regexPatterns with
  | Some patterns, Some classPatterns =>
      match classPatterns with
      | first :: _ =>
          let baseClass :=
            split_head (re_plain (ncls ident_char))
              (replace_one (re_plain (Seq Bol (Chr "."))) first) in
          let hasHoverState := test0 (state_regex baseClass ":hover") allCSS in
          let hasFocusState := test0 (state_regex baseClass ":focus") allCSS in
          let hasActiveState := test0 (state_regex baseClass ":active") allCSS in
          Some (patterns ++
                [MkComponentPattern type type (firstn 5 (uniq classPatterns))
                   hasHoverState hasFocusState hasActiveState
                   (MkSourceInfo src_css (startUrl session) first 0.7)])
      | [] => Some patterns
      end
  | _, _ => None
  end.

Definition detectComponentPatterns (session : CrawlSession)
    : option (list ComponentPattern) :=
  let allHTML := join nl (List.map fullHtml (pages session)) in
  let allCSS := join nl (OMap.values (cssContents session)) in
  fold_left (component_step session allCSS) componentPatterns (Some []).

(** *** Accessibility signals *)

Definition tag_open (tag : string) : RegExp :=
  re_i (seqs [lit ("<" +:+ tag); cls [Space; One ">"]]).

Definition sep_opt : regex := Opt (cls [One "-"; One " "]).

Definition allHTML_of (session : CrawlSession) : string :=
  join nl (List.map fullHtml (pages session)).

Definition allCSS_of (session : CrawlSession) : string :=
  join nl (OMap.values (cssContents session)).

(** The image tags of the markup, those among them that carry [alt=], and
    the share of the latter. *)
Definition imgTags_of (allHTML : string) : list string :=
  match_all (re_gi (seqs [lit "<img"; Star (ncls [One ">"]); Chr ">"])) allHTML.

Definition imgWithAlt_of (imgTags : list string) : nat :=
  length (List.filter (fun img => test0 (re_i (lit "alt=")) img) imgTags).

Definition altCoverage_of (imgWithAlt imgCount : nat) : Q :=
  if 0 <? imgCount then (count_Q imgWithAlt / count_Q imgCount)%Q else 1%Q.

(** [Math.round(altCoverage * 100)]: the quotient and the product are the
    program's numbers, each rounded to the nearest double. *)
Definition altPercent (imgWithAlt imgCount : nat) : Z :=
  let altCoverage : number :=
    if 0 <? imgCount then fdiv (num_of_nat imgWithAlt) (num_of_nat imgCount)
    else num_of_Z 1 in
  Math_round (fmul altCoverage (num_of_Z 100)).

Definition detectAccessibilitySignals (session : CrawlSession)
    : list AccessibilitySignal :=
  let allHTML := allHTML_of session in
  let allCSS := allCSS_of session in
  let hasSkipLink :=
    test0 (re_i (seqs [lit "skip"; sep_opt; Opt (Seq (lit "to") sep_opt);
                       alts [lit "main"; lit "content"; lit "navigation"]]))
          allHTML in
  let s1 :=
    MkAccessibilitySignal "Skip Links" hasSkipLink
      (if hasSkipLink then Some "Skip navigation link detected" else None)
      (MkSourceInfo src_html (startUrl session) "skip-to-content pattern"
         (if hasSkipLink then 0.9 else 0.5)) in
  let hasFocusVisible := test0 (re_i (lit ":focus-visible")) allCSS in
  let hasFocusOutline :=
    test0 (re_i (seqs [lit ":focus"; Star (ncls [One "}"]); lit "outline"]))
          allCSS in
  let s2 :=
    MkAccessibilitySignal "Focus Visible Styling"
      (hasFocusVisible || hasFocusOutline)
      (if hasFocusVisible then Some "Uses :focus-visible pseudo-class"
       else if hasFocusOutline then Some "Custom focus outline styling"
       else None)
      (MkSourceInfo src_css (startUrl session) ":focus-visible or :focus outline"
         (if hasFocusVisible then 0.9 else if hasFocusOutline then 0.7 else 0.4)) in
  let ariaCount :=
    length (match_all (re_gi (seqs [lit "aria-"; Plus (cls [Range "a" "z"]);
                                    Chr "="])) allHTML) in
  let s3 :=
    MkAccessibilitySignal "ARIA Attributes" (5 <? ariaCount)
      (Some ("Found " +:+ show_nat ariaCount +:+ " ARIA attributes"))
      (MkSourceInfo src_html (startUrl session)
         (show_nat ariaCount +:+ " aria-* attributes")
         (if 20 <? ariaCount then 0.9 else if 5 <? ariaCount then 0.7 else 0.4)) in
  let imgTags := imgTags_of allHTML in
  let imgWithAlt := imgWithAlt_of imgTags in
  let altCoverage : Q := altCoverage_of imgWithAlt (length imgTags) in
  let s4 :=
    MkAccessibilitySignal "Image Alt Text" (Qgtb altCoverage 0.8)
      (Some (show_nat imgWithAlt +:+ "/" +:+ show_nat (length imgTags)
             +:+ " images have alt text (" +:+ show_Z (altPercent imgWithAlt (length imgTags))
             +:+ "%)"))
      (MkSourceInfo src_html (startUrl session) "img alt attribute coverage"
         (if Qgtb altCoverage 0.9 then 0.9
          else if Qgtb altCoverage 0.7 then 0.7 else 0.5)) in
  let hasSemanticNav := test0 (tag_open "nav") allHTML in
  let hasSemanticMain := test0 (tag_open "main") allHTML in
  let hasSemanticHeader := test0 (tag_open "header") allHTML in
  let hasSemanticFooter := test0 (tag_open "footer") allHTML in
  let semanticCount :=
    length (List.filter id [hasSemanticNav; hasSemanticMain;
                            hasSemanticHeader; hasSemanticFooter]) in
  let s5 :=
    MkAccessibilitySignal "Semantic HTML" (3 <=? semanticCount)
      (Some ("Uses " +:+ show_nat semanticCount
             +:+ "/4 semantic landmarks (nav, main, header, footer)"))
      (MkSourceInfo src_html (startUrl session) "semantic HTML elements"
         (if 3 <=? semanticCount then 0.85
          else if 2 <=? semanticCount then 0.6 else 0.4)) in
  [s1; s2; s3; s4; s5].

End Extract.

(** ** Crawler module *)

Module Crawler.

Import JS Types.

(** *** The outside world *)

Record Response : Type := MkResponse {
  r_status : nat;
  r_url : string;            (* final URL after redirects *)
  r_contentType : string;    (* the content-type header, empty when absent *)
  r_body : string
}.

(** [response.ok] *)
Definition ok (r : Response) : bool :=
  (200 <=? r_status r) && (r_status r <=? 299).

(** What one transport call comes to: a completed response whose body can
    be read ([r_body]); a raised error (connection failure, timeout) with
    its message; or a response whose head arrives while reading its body
    ([response.text()]) raises, with the message of that error. *)
Inductive HttpOutcome : Type :=
| Responded (r : Response)
| Raised (message : string)
| Unread (r : Response) (message : string).

(** What happens during a crawl: a transport call of [fetchWithRetry], a
    delay, the request for robots.txt. *)
Inductive Event : Type :=
| EvFetch (url : string)
| EvSleep (ms : nat)
| EvRobots (url : string).

(** The collaborators of the crawler. [http n u] is the outcome of the
    transport call that [fetchWithRetry] makes for [u] after [n] earlier
    such calls of the crawl; [http_robots] answers the one robots.txt
    request. The [url_*] fields
    are the URL parser: [href] of a parsed URL, of a URL resolved against
    a base, its origin, and its [href] with query and fragment cleared;
    [None] when parsing raises. *)
Record Platform : Type := MkPlatform {
  http : nat -> string -> HttpOutcome;
  http_robots : string -> HttpOutcome;
  url_href : string -> option string;
  url_resolve : string -> string -> option string;
  url_origin : string -> option string;
  url_strip : string -> option string;
  clock : list Event -> nat;
  iso_time : list Event -> string
}.

(** The state of the world during a crawl: the number of transport calls
    that [fetchWithRetry] has made so far and everything that happened,
    oldest first. *)
Record World : Type := MkWorld {
  calls : nat;
  trace : list Event
}.

(** Effectful computations; [None] is a computation that never returns. *)
Definition M (A : Type) : Type := World -> option (A * World).

Definition ret {A} (a : A) : M A := fun w => Some (a, w).

Definition bind {A B} (c : M A) (k : A -> M B) : M B :=
  fun w => match c w with
           | Some (a, w') => k a w'
           | None => None
           end.

Definition lift {A} (o : option A) : M A :=
  fun w => match o with Some a => Some (a, w) | None => None end.

Notation "'let*' x ':=' c 'in' k" := (bind c (fun x => k))
  (at level 10, x pattern, c at level 100, k at level 200, only parsing).

Definition do_fetch (P : Platform) (url : string) : M HttpOutcome :=
  fun w => Some (http P (calls w) url,
                 MkWorld (S (calls w)) (trace w ++ [EvFetch url])).

Definition sleep (ms : nat) : M unit :=
  fun w => Some (tt, MkWorld (calls w) (trace w ++ [EvSleep ms])).

(** The response object a completed call resolves to: the response, and
    the error that reading its body raises, if any. *)
Definition resolved (o : HttpOutcome) : option (Response * option string) :=
  match o with
  | Responded r => Some (r, None)
  | Unread r message => Some (r, Some message)
  | Raised _ => None
  end.

(** *** URL utilities *)

(** A string-or-null value that passes an [if (x)] test. *)
Definition truthy (o : option string) : option string :=
  match o with
  | Some s => if String.eqb s "" then None else Some s
  | None => None
  end.

Definition normalizeUrl (P : Platform) (url : string) (baseUrl : option string)
    : option string :=
  match baseUrl with
  | Some base => if String.eqb base "" then url_href P url
                 else url_resolve P url base
  | None => url_href P url
  end.

Definition isSameOrigin (P : Platform) (url1 url2 : string) : bool :=
  match url_origin P url1, url_origin P url2 with
  | Some o1, Some o2 => String.eqb o1 o2
  | _, _ => false
  end.

Definition getOrigin (P : Platform) (url : string) : option string :=
  url_origin P url.

(** *** Link extraction *)

Definition cls := Cls false.
Definition ncls := Cls true.
Definition quote : regex := cls [One DQ; One "'"].
Definition not_gt : list citem := [One ">"].

Definition hrefRegex : RegExp :=
  re_i (seqs [lit "href="; quote; Grp 1 (Plus (ncls [One DQ; One "'"])); quote]).

Definition link_with (attr value : string) : RegExp :=
  re_gi (seqs [lit "<link"; Plus (ncls not_gt); lit attr; quote; lit value;
               quote; Star (ncls not_gt); Chr ">"]).

Definition stylesheetRegex : RegExp := link_with "rel=" "stylesheet".
Definition linkTypeRegex : RegExp := link_with "type=" "text/css".

Definition styleTagRegex : RegExp :=
  re_gi (seqs [lit "<style"; Star (ncls not_gt); Chr ">";
               Grp 1 (LazyStar (cls [Space; NonSpace])); lit "</style>"]).

Definition importRegex : RegExp :=
  re_gi (seqs [lit "@import"; Plus (cls [Space]); Opt (lit "url(");
               Opt quote; Grp 1 (Plus (ncls [One DQ; One "'"; One ")"]));
               Opt quote; Opt (Chr ")")]).

Definition scriptRegex : RegExp :=
  re_gi (seqs [lit "<script"; Plus (ncls not_gt); lit "src="; quote;
               Grp 1 (Plus (ncls [One DQ; One "'"])); quote;
               Star (ncls not_gt); Chr ">"]).

Definition anchorRegex : RegExp :=
  re_gi (seqs [lit "<a"; Plus (ncls not_gt); lit "href="; quote;
               Grp 1 (Seq (ncls [One DQ; One "'"; One "#"])
                          (Star (ncls [One DQ; One "'"])));
               quote; Star (ncls not_gt); Chr ">"]).

Definition skipRegex : RegExp :=
  re_i (Seq Bol (alts [lit "mailto:"; lit "tel:"; lit "javascript:";
                       lit "data:"; lit "#"])).

Record Links : Type := MkLinks {
  l_cssLinks : OSet.t;
  l_jsLinks : OSet.t;
  l_internalLinks : OSet.t
}.

Definition add_normalized (P : Platform) (raw baseUrl : string) (s : OSet.t)
    : OSet.t :=
  match truthy (normalizeUrl P raw (Some baseUrl)) with
  | Some normalized => OSet.add normalized s
  | None => s
  end.

(** Body of the two loops over [<link>] tags. *)
Definition link_step (P : Platform) (html baseUrl : string) (m : Match)
    (cssLinks : OSet.t) : OSet.t :=
  let tag := matched html m in
  match fst (exec hrefRegex tag 0) with
  | Some hrefMatch =>
      add_normalized P (group_or_empty tag hrefMatch 1) baseUrl cssLinks
  | None => cssLinks
  end.

(** Body of the loop over [<style>] blocks; the inner loop over its
    [@import] rules may itself never return. *)
Definition style_step (P : Platform) (html baseUrl : string) (m : Match)
    (cssLinks : option OSet.t) : option OSet.t :=
  match cssLinks with
  | None => None
  | Some cssLinks =>
      let block := group_or_empty html m 1 in
      Extract.while_exec importRegex block
        (fun importMatch acc =>
           add_normalized P (group_or_empty block importMatch 1) baseUrl acc)
        cssLinks
  end.

Definition anchor_step (P : Platform) (html baseUrl : string) (m : Match)
    (internalLinks : OSet.t) : OSet.t :=
  let href := group_or_empty html m 1 in
  if test0 skipRegex href then internalLinks
  else
    match truthy (normalizeUrl P href (Some baseUrl)) with
    | Some normalized =>
        if isSameOrigin P normalized baseUrl then
          match url_strip P normalized with
          | Some stripped => OSet.add stripped internalLinks
          | None => internalLinks
          end
        else internalLinks
    | None => internalLinks
    end.

Definition extractLinks (P : Platform) (html baseUrl : string) : option Links :=
  match Extract.while_exec stylesheetRegex html (link_step P html baseUrl) [] with
  | None => None
  | Some cssLinks =>
  match Extract.while_exec linkTypeRegex html (link_step P html baseUrl)
          cssLinks with
  | None => None
  | Some cssLinks =>
  match Extract.while_exec styleTagRegex html (style_step P html baseUrl)
          (Some cssLinks) with
  | None | Some None => None
  | Some (Some cssLinks) =>
  match Extract.while_exec scriptRegex html
          (fun m jsLinks => add_normalized P (group_or_empty html m 1) baseUrl
                              jsLinks) [] with
  | None => None
  | Some jsLinks =>
  match Extract.while_exec anchorRegex html (anchor_step P html baseUrl) [] with
  | None => None
  | Some internalLinks => Some (MkLinks cssLinks jsLinks internalLinks)
  end end end end end.

(** *** Robots.txt *)

Record RobotsCheck : Type := MkRobotsCheck {
  rc_allowed : bool;
  rc_warning : option string
}.

(** The loop over the lines of robots.txt. *)
Fixpoint scan_robots (lines : list string) (inUserAgentBlock : bool)
    : RobotsCheck :=
  match lines with
  | [] => MkRobotsCheck true None
  | line :: tl =>
      let trimmed := toLowerCase (trim line) in
      if startsWith "user-agent:" trimmed then
        let agent := trim (replace_first "user-agent:" trimmed) in
        scan_robots tl (String.eqb agent "*" || includes "bot" agent)
      else if inUserAgentBlock && startsWith "disallow:" trimmed then
        let path := trim (replace_first "disallow:" trimmed) in
        if String.eqb path "/" || String.eqb path "/*" then
          MkRobotsCheck false (Some ("robots.txt disallows crawling: " +:+ path))
        else scan_robots tl inUserAgentBlock
      else scan_robots tl inUserAgentBlock
  end.

(** What [checkRobotsTxt(baseUrl)] returns, as a function of the answer to
    its request. *)
Definition checkRobotsTxt (P : Platform) (baseUrl : string) : RobotsCheck :=
  match truthy (getOrigin P baseUrl) with
  | None => MkRobotsCheck true None
  | Some origin =>
      let robotsUrl := origin +:+ "/robots.txt" in
      match http_robots P robotsUrl with
      | Responded response =>
          if negb (ok response) then MkRobotsCheck true None
          else scan_robots (split LF (r_body response)) false
      | Unread response message =>
          if negb (ok response) then MkRobotsCheck true None
          else MkRobotsCheck true
                 (Some ("Could not fetch robots.txt: " +:+ message))
      | Raised message =>
          MkRobotsCheck true (Some ("Could not fetch robots.txt: " +:+ message))
      end
  end.

(** The call [checkRobotsTxt(baseUrl)] itself: when the origin of the URL
    parses, one request for robots.txt goes out. It is a transport call of
    its own, not one of [fetchWithRetry]. *)
Definition robots_events (P : Platform) (baseUrl : string) : list Event :=
  match truthy (getOrigin P baseUrl) with
  | Some origin => [EvRobots (origin +:+ "/robots.txt")]
  | None => []
  end.

Definition request_robots (P : Platform) (baseUrl : string) : M RobotsCheck :=
  fun w =>
    Some (checkRobotsTxt P baseUrl,
          MkWorld (calls w) (trace w ++ robots_events P baseUrl)).

(** *** Fetch with retry *)

(** The [for] loop of [fetchWithRetry]: [n] attempts are left, [attempt] is
    the loop counter. The result is the response object, or ([inl]) the
    message of the error thrown when the attempts are used up. *)
Fixpoint retry_loop (P : Platform) (url : string) (maxRetries initialDelay : nat)
    (n attempt : nat) (lastError : option string)
    : M (string + Response * option string) :=
  match n with
  | 0 =>
      ret (inl (match lastError with
                | Some e => e
                | None => "Failed to fetch " +:+ url +:+ " after "
                          +:+ show_nat maxRetries +:+ " attempts"
                end))
  | S n' =>
      let* outcome := do_fetch P url in
      let completed (response : Response) (unread : option string) :=
        if (r_status response =? 429) || (500 <=? r_status response) then
          let delay := initialDelay * 2 ^ attempt in
          let* _ := sleep delay in
          retry_loop P url maxRetries initialDelay n' (S attempt) lastError
        else ret (inr (response, unread)) in
      match outcome with
      | Responded response => completed response None
      | Unread response message => completed response (Some message)
      | Raised message =>
          let lastError := Some message in
          let* _ :=
            if attempt <? maxRetries - 1 then
              sleep (initialDelay * 2 ^ attempt)
            else ret tt in
          retry_loop P url maxRetries initialDelay n' (S attempt) lastError
      end
  end.

Definition fetchWithRetry (P : Platform) (url : string)
    (maxRetries initialDelay : nat)
    : M (string + Response * option string) :=
  retry_loop P url maxRetries initialDelay maxRetries 0 None.

(** *** Single page and stylesheet fetch *)

Definition failed_result (url finalUrl : string) (status : nat)
    (contentType message : string) : CrawlResult :=
  MkCrawlResult url finalUrl status contentType "" [] [] [] (Some message).

(** [await response.text()] sits inside the [try] of both callers: when
    it raises, the [catch] branch answers. *)
Definition fetchPage (P : Platform) (url : string) : M CrawlResult :=
  let* r := fetchWithRetry P url 3 1000 in
  match r with
  | inr (response, unread) =>
      let contentType := r_contentType response in
      if negb (ok response) then
        ret (failed_result url (r_url response) (r_status response) contentType
               ("HTTP " +:+ show_nat (r_status response)))
      else
        match unread with
        | Some message => ret (failed_result url url 0 "" message)
        | None =>
            let html := r_body response in
            let* links := lift (extractLinks P html (r_url response)) in
            ret (MkCrawlResult url (r_url response) (r_status response)
                   contentType html (l_cssLinks links) (l_jsLinks links)
                   (l_internalLinks links) None)
        end
  | inl message => ret (failed_result url url 0 "" message)
  end.

Definition fetchCSS (P : Platform) (url : string) : M (option string) :=
  let* r := fetchWithRetry P url 3 1000 in
  match r with
  | inr (response, unread) =>
      if negb (ok response) then ret None
      else match unread with
           | Some _ => ret None
           | None => ret (Some (r_body response))
           end
  | inl _ => ret None
  end.

(** *** Main crawler *)

(** The local variables of [crawl]. *)
Record CrawlState : Type := MkCrawlState {
  st_visited : gset string;
  st_queue : list string;
  st_pages : list CrawledPage;
  st_cssContents : OMap.t string;
  st_allCssLinks : OSet.t;
  st_totalRequests : nat;
  st_failedRequests : nat
}.

Definition initial (config : ExtractorConfig) : CrawlState :=
  MkCrawlState ∅ [themeUrl config] [] [] [] 0 0.

(** The test of the [while] loop. *)
Definition crawl_cond (config : ExtractorConfig) (st : CrawlState) : bool :=
  (0 <? length (st_queue st)) && (length (st_pages st) <? maxPages config).

Definition page_of (P : Platform) (result : CrawlResult) (w : World)
    : CrawledPage :=
  MkCrawledPage (cr_url result) (cr_finalUrl result) (cr_status result)
    (slice 0 2000 (cr_html result)) (cr_html result)
    (cr_cssLinks result) (cr_jsLinks result) (cr_internalLinks result)
    (iso_time P (trace w)) (cr_error result).

Definition with_queue (q : list string) (st : CrawlState) : CrawlState :=
  MkCrawlState (st_visited st) q (st_pages st) (st_cssContents st)
    (st_allCssLinks st) (st_totalRequests st) (st_failedRequests st).

(** The body of the [while] loop. *)
Definition crawl_step (P : Platform) (config : ExtractorConfig)
    (st : CrawlState) : M CrawlState :=
  match st_queue st with
  | [] => ret st
  | url :: queue =>
      match truthy (normalizeUrl P url None) with
      | None => ret (with_queue queue st)
      | Some normalizedUrl =>
          if decide (normalizedUrl ∈ st_visited st) then
            ret (with_queue queue st)
          else
            let visited := st_visited st ∪ {[normalizedUrl]} in
            if sameOriginOnly config
               && negb (isSameOrigin P normalizedUrl (themeUrl config))
            then
              ret (MkCrawlState visited queue (st_pages st) (st_cssContents st)
                     (st_allCssLinks st) (st_totalRequests st)
                     (st_failedRequests st))
            else
              let totalRequests := S (st_totalRequests st) in
              let* result := fetchPage P normalizedUrl in
              let failedRequests :=
                match truthy (cr_error result) with
                | Some _ => S (st_failedRequests st)
                | None => st_failedRequests st
                end in
              let* page := (fun w => Some (page_of P result w, w)) in
              let pages := st_pages st ++ [page] in
              let allCssLinks :=
                fold_left (fun acc link => OSet.add link acc)
                          (cr_cssLinks result) (st_allCssLinks st) in
              let queue :=
                fold_left (fun q link =>
                             if decide (link ∈ visited) then q else q ++ [link])
                          (cr_internalLinks result) queue in
              let* _ := sleep 500 in
              ret (MkCrawlState visited queue pages (st_cssContents st)
                     allCssLinks totalRequests failedRequests)
      end
  end.

Fixpoint crawl_loop (fuel : nat) (P : Platform) (config : ExtractorConfig)
    (st : CrawlState) : M CrawlState :=
  match fuel with
  | 0 => fun _ => None
  | S fuel' =>
      if crawl_cond config st then
        let* st' := crawl_step P config st in
        crawl_loop fuel' P config st'
      else ret st
  end.

(** One turn of the loop over the gathered stylesheet URLs. *)
Definition asset_step (P : Platform) (st : CrawlState) (cssUrl : string)
    : M CrawlState :=
  let totalRequests := S (st_totalRequests st) in
  let* css := fetchCSS P cssUrl in
  let st' :=
    match truthy css with
    | Some css =>
        MkCrawlState (st_visited st) (st_queue st) (st_pages st)
          (OMap.set cssUrl css (st_cssContents st)) (st_allCssLinks st)
          totalRequests (st_failedRequests st)
    | None =>
        MkCrawlState (st_visited st) (st_queue st) (st_pages st)
          (st_cssContents st) (st_allCssLinks st)
          totalRequests (S (st_failedRequests st))
    end in
  let* _ := sleep 300 in
  ret st'.

Fixpoint asset_pass (P : Platform) (urls : list string) (st : CrawlState)
    : M CrawlState :=
  match urls with
  | [] => ret st
  | cssUrl :: tl =>
      let* st' := asset_step P st cssUrl in
      asset_pass P tl st'
  end.

Definition session_of (P : Platform) (config : ExtractorConfig)
    (robotsCheck : RobotsCheck) (startTime : nat) (st : CrawlState) (w : World)
    : CrawlSession :=
  MkCrawlSession (themeUrl config) (st_pages st) (st_cssContents st)
    (if rc_allowed robotsCheck then allowed else blocked)
    (rc_warning robotsCheck)
    (st_totalRequests st) (st_failedRequests st)
    (clock P (trace w) - startTime).

(** [crawl(config)]; [fuel] bounds the turns of the page loop. *)
Definition crawl (fuel : nat) (P : Platform) (config : ExtractorConfig)
    : M CrawlSession :=
  fun w0 =>
    let startTime := clock P (trace w0) in
    (let* robotsCheck := request_robots P (themeUrl config) in
     let* st := crawl_loop fuel P config (initial config) in
     let* st :=
       if includeAssets config then asset_pass P (st_allCssLinks st) st
       else ret st in
     fun w => Some (session_of P config robotsCheck startTime st w, w)) w0.

Definition world0 : World := MkWorld 0 [].

(** The world in which the page loop of [crawl] starts: the robots check
    has been made. *)
Definition loop_start (P : Platform) (config : ExtractorConfig) (w0 : World)
    : World :=
  MkWorld (calls w0) (trace w0 ++ robots_events P (themeUrl config)).

(** [n] turns of the loop body, the loop test left aside. *)
Fixpoint steps (n : nat) (P : Platform) (config : ExtractorConfig)
    (st : CrawlState) : M CrawlState :=
  match n with
  | 0 => ret st
  | S n' =>
      let* st' := crawl_step P config st in
      steps n' P config st'
  end.

(** The platform [P] with another answer to the robots.txt request. *)
Definition with_robots (answer : string -> HttpOutcome) (P : Platform)
    : Platform :=
  MkPlatform (http P) answer (url_href P) (url_resolve P) (url_origin P)
    (url_strip P) (clock P) (iso_time P).

(** How [scan_robots] reads a line: a user-agent line, whether it names
    every crawler or a bot, a disallow line for the root. *)
Definition norm_line (line : string) : string := toLowerCase (trim line).

Definition is_agent_line (line : string) : bool :=
  startsWith "user-agent:" (norm_line line).

Definition agent_of (line : string) : string :=
  trim (replace_first "user-agent:" (norm_line line)).

Definition names_crawler (line : string) : bool :=
  is_agent_line line
  && (String.eqb (agent_of line) "*" || includes "bot" (agent_of line)).

Definition disallow_path (line : string) : string :=
  trim (replace_first "disallow:" (norm_line line)).

Definition is_root_disallow (line : string) : bool :=
  negb (is_agent_line line)
  && startsWith "disallow:" (norm_line line)
  && (String.eqb (disallow_path line) "/"
      || String.eqb (disallow_path line) "/*").

(** The verdict reached when a rule for the root is read. *)
Definition is_blocked (rc : RobotsCheck) : Prop :=
  rc_allowed rc = false
  /\ (rc_warning rc = Some "robots.txt disallows crawling: /"
      \/ rc_warning rc = Some "robots.txt disallows crawling: /*").

(** Two sessions that differ at most in the robots status and warning. *)
Definition same_crawl (s1 s2 : CrawlSession) : Prop :=
  startUrl s1 = startUrl s2
  /\ pages s1 = pages s2
  /\ cssContents s1 = cssContents s2
  /\ totalRequests s1 = totalRequests s2
  /\ failedRequests s1 = failedRequests s2
  /\ crawlDuration s1 = crawlDuration s2.

(** What the loop invariant of the page loop says of its state. *)
Definition crawl_inv (config : ExtractorConfig) (st : CrawlState) : Prop :=
  length (st_pages st) <= maxPages config
  /\ List.NoDup (List.map url (st_pages st))
  /\ forall p, In p (st_pages st) -> url p ∈ st_visited st.

(** An outcome after which [fetchWithRetry] goes on to another attempt. *)
Definition retryable (o : HttpOutcome) : bool :=
  match o with
  | Responded r | Unread r _ => (r_status r =? 429) || (500 <=? r_status r)
  | Raised _ => true
  end.

(** The transport calls and the delays among some events. *)
Definition fetch_count (evs : list Event) : nat :=
  length (List.filter (fun e => match e with EvFetch _ => true | _ => false end)
            evs).

Definition sleeps (evs : list Event) : list nat :=
  flat_map (fun e => match e with EvSleep ms => [ms] | _ => [] end) evs.

(** The world after the events [evs] have happened in [w]. *)
Definition after (w : World) (evs : list Event) : World :=
  MkWorld (calls w + fetch_count evs) (trace w ++ evs).

(** What a run of the retry loop from attempt [attempt], with [n] attempts
    left, does in the world [w]: its result [res] and its events [evs]. *)
Definition retry_run (P : Platform) (url : string) (initialDelay : nat)
    (n attempt : nat) (w : World)
    (res : string + Response * option string) (evs : list Event) : Prop :=
  fetch_count evs <= n
  /\ (forall k d, nth_error (sleeps evs) k = Some d ->
                  d = initialDelay * 2 ^ (attempt + k))
  /\ (forall pre d post, evs = pre ++ EvSleep d :: post ->
        exists a, fetch_count pre = S a /\ d = initialDelay * 2 ^ (attempt + a))
  /\ (forall j, S j < fetch_count evs ->
                retryable (http P (calls w + j) url) = true)
  /\ (forall a, res = inr a ->
        exists j, fetch_count evs = S j
                  /\ resolved (http P (calls w + j) url) = Some a
                  /\ retryable (http P (calls w + j) url) = false)
  /\ (forall e, res = inl e ->
        fetch_count evs = n
        /\ forall j, j < n -> retryable (http P (calls w + j) url) = true).

(** Every call of a run but the first comes right after a delay: the call
    of index [S k] follows a pause of [initialDelay * 2 ^ (attempt + k)]
    milliseconds, and all the calls are for [url]. *)
Definition paced (url : string) (initialDelay attempt : nat)
    (evs : list Event) : Prop :=
  (forall k, S k < fetch_count evs ->
     exists pre post,
       evs = pre ++ EvSleep (initialDelay * 2 ^ (attempt + k))
                 :: EvFetch url :: post
       /\ fetch_count pre = S k)
  /\ Forall (fun e => match e with
                      | EvFetch u => u = url
                      | EvSleep _ => True
                      | EvRobots _ => False
                      end) evs
  /\ fetch_count evs - 1 <= length (sleeps evs) <= fetch_count evs.

End Crawler.

(** ** Notions used in the statements, and sample inputs *)

Module Spec.

Import JS Types Extract Crawler.

Definition seed : string := "https://a.test/".

(** A small site: the seed page links a stylesheet that cannot be fetched
    and one further page, which is missing; robots.txt forbids everything. *)
Definition seed_html : string :=
  "<link rel='stylesheet' href='/s.css'><a class=x href='/b'>b</a><a class=x href='/b?x=1'>b</a>".

Definition site (n : nat) (u : string) : HttpOutcome :=
  if String.eqb u seed then Responded (MkResponse 200 u "text/html" seed_html)
  else if String.eqb u "https://a.test/b" then Responded (MkResponse 404 u "" "")
  else Raised "connection refused".

Definition robots_forbid : string -> HttpOutcome :=
  fun _ => Responded (MkResponse 200 "https://a.test/robots.txt" "text/plain"
                        ("User-agent: *" +:+ nl +:+ "Disallow: /")).

Definition robots_missing : string -> HttpOutcome :=
  fun _ => Responded (MkResponse 404 "https://a.test/robots.txt" "" "").

Definition toy : Platform :=
  MkPlatform site robots_forbid
    (fun u => Some u)
    (fun u base => Some ("https://a.test" +:+ u))
    (fun _ => Some "https://a.test")
    (fun u => Some (split_head (re_plain (Chr "?")) u))
    (fun evs => length evs)
    (fun _ => "2024-01-01T00:00:00.000Z").

Definition toy_config : ExtractorConfig := MkExtractorConfig seed 6 true true.

(** A server whose answers all break off after the head. *)
Definition cut_off : Platform :=
  MkPlatform (fun _ u => Unread (MkResponse 200 u "text/html" "") "terminated")
    robots_missing
    (fun u => Some u) (fun u _ => Some u) (fun _ => Some "https://a.test")
    (fun u => Some u) (fun evs => length evs) (fun _ => "").

(** A server that answers every request with 503. *)
Definition busy : Platform :=
  MkPlatform (fun _ u => Responded (MkResponse 503 u "" "")) robots_missing
    (fun u => Some u) (fun u _ => Some u) (fun _ => Some "https://a.test")
    (fun u => Some u) (fun evs => length evs) (fun _ => "").

Definition asset_state : CrawlState :=
  MkCrawlState ∅ [] [] [] ["https://a.test/s.css"] 1 0.

(** A session of one page with the given markup and the given fetched
    stylesheets. *)
Definition session_with (html : string) (css : list (string * string))
    : CrawlSession :=
  MkCrawlSession seed
    [MkCrawledPage seed seed 200 (slice 0 2000 html) html [] [] [] "" None]
    css allowed None (S (length css)) 0 0.

Definition two_h1_session : CrawlSession :=
  session_with "<style>h1{font-size:2em} body{font-size:16px}</style>"
    [("https://a.test/s.css", "h1{font-size:3em} body{font-size:18px}")].

(** Inline component rules, no fetched stylesheet. *)
Definition inline_only_session : CrawlSession :=
  session_with "<style>.btn{color:red} .card:hover{top:0}</style>" [].

Definition card_session : CrawlSession :=
  session_with ""
    [("https://a.test/s.css",
      ".card{a:b} .card{c:d} .card-body{e:f} .card:hover{x:y}")].

Definition no_img_session : CrawlSession := session_with "<p>hello</p>" [].

Definition three_of_four_session : CrawlSession :=
  session_with
    "<img src=a.png alt=one><img src=b.png alt=two><IMG alt=three><img src=d.png>"
    [].

Definition next_session : CrawlSession :=
  session_with
    "<script id=__NEXT_DATA__></script><script src=/_next/static/chunk.js></script>"
    [].

(** The session [s] with its pages replaced by [ps]. *)
Definition with_pages (ps : list CrawledPage) (s : CrawlSession) : CrawlSession :=
  MkCrawlSession (startUrl s) ps (cssContents s) (robotsTxtStatus s)
    (robotsTxtWarning s) (totalRequests s) (failedRequests s) (crawlDuration s).

Definition is_alt_signal (a : AccessibilitySignal) : bool :=
  String.eqb (feature a) "Image Alt Text".

(** The usage rules as an ordered table of keyword checks, and the usage
    of the first rule whose check succeeds on the lower-cased name. *)
Definition usage_rules : list (RegExp * ColorUsage) := [
  (re_i (alts [lit "background"; lit "bg"]), u_background);
  (re_i (alts [lit "foreground"; lit "fg"; lit "text"]), u_foreground);
  (re_i (lit "primary"), u_primary);
  (re_i (lit "secondary"), u_secondary);
  (re_i (lit "accent"), u_accent);
  (re_i (lit "border"), u_border)
].

Definition first_match_usage (name : string) : ColorUsage :=
  match List.find (fun rule => test0 (fst rule) (toLowerCase name)) usage_rules with
  | Some (_, usage) => usage
  | None => u_unknown
  end.

(** The fingerprints of a detector that match the corpus, the largest
    weight among fingerprints, and the signal a detector gives rise to
    (none when no fingerprint matches). *)
Definition matching (corpus : string) (d : StackDetector) : list Fingerprint :=
  List.filter (fun p => test0 (fp_regex p) corpus) (patterns d).

Definition maxWeight (ps : list Fingerprint) : number :=
  fold_left (fun m p => Math_max m (weight p)) ps (num_of_Z 0).

Definition signal_of (session : CrawlSession) (d : StackDetector)
    : list StackSignal :=
  let '(evidence, sourceUrls, maxConfidence) :=
    run_detector session (allContent session) d in
  if 0 <? length evidence then
    [MkStackSignal (sd_name d) (sd_category d)
       (finalConfidence maxConfidence (length evidence)) evidence sourceUrls]
  else [].

(** The map that holds the signals [l] under their names, in order. *)
Definition entries (l : list StackSignal) : OMap.t StackSignal :=
  List.map (fun s => (sig_name s, s)) l.

(** The first detector of the table. *)
Definition NEXT_JS : StackDetector :=
  MkStackDetector "Next.js" framework [
    fp (lit "__NEXT_DATA__") 0.9 "__NEXT_DATA__ script";
    fp (lit "/_next/") 0.8 "/_next/ assets";
    fp (lit "next/head") 0.7 "next/head import";
    fp (lit "data-nscript") 0.6 "Next.js script attribute" ].

Definition named (n : string) (s : StackSignal) : bool :=
  String.eqb (sig_name s) n.

Definition has_confidence (c : number) (s : StackSignal) : bool :=
  feq (sig_confidence s) c.

(** The confidence that [detectStack] gives a detector of which the
    fingerprints [m] match. *)
Definition confidence_of (m : list Fingerprint) : number :=
  finalConfidence (maxWeight m) (length m).

(** Every way the fingerprints of the table can match: each detector with
    each sublist of its fingerprints. *)
Fixpoint sublists {A} (l : list A) : list (list A) :=
  match l with
  | [] => [[]]
  | x :: tl => List.map (cons x) (sublists tl) ++ sublists tl
  end.

Definition outcomes : list (list Fingerprint) :=
  List.filter (fun m => 0 <? length m)
    (flat_map (fun d => sublists (patterns d)) STACK_DETECTORS).

(** Decidable forms of what holds of each outcome and of each pair of
    outcomes. [maxWeight] is one of the weights and none is larger; the
    confidence lies between 0.5 and 1 and is not below the largest weight;
    on two confidences
    the comparator of the sort and the comparisons of numbers decide as
    the exact values do. *)
Definition max_ok (m : list Fingerprint) : bool :=
  existsb (fun p => num_same (maxWeight m) (weight p)) m
  && forallb (fun p => fle (weight p) (maxWeight m)) m.

Definition bounds_ok (m : list Fingerprint) : bool :=
  fle (double 0.5) (confidence_of m)
  && fle (confidence_of m) (num_of_Z 1)
  && fle (maxWeight m) (confidence_of m).

Definition order_ok (x y : number) : bool :=
  Bool.eqb (Sort.positive (fsub y x)) (Qgtb (num_value y) (num_value x))
  && Bool.eqb (fle x y) (Qle_bool (num_value x) (num_value y))
  && Bool.eqb (feq x y) (Qeq_bool (num_value x) (num_value y)).

(** A page with the markup of the second review scenario: two Next.js
    fingerprints of weights 0.7 and 0.6, one shadcn/ui fingerprint of
    weight 0.8. *)
Definition radix_session : CrawlSession :=
  session_with "next/head data-nscript @radix-ui" [].

Definition primary_bg_css : string := ":root{--color-primary-bg:#102030;}".

Definition one_color_css : string := ":root{--a:#102030;}".

End Spec.

(** ** Extraction module, continued: the other token extractors, the
    layout analysis, the deduplicator and the main extraction function *)

Module Tokens.

Import JS Types Extract.

Record TypographyToken : Type := MkTypographyToken {
  tt_name : string;
  tt_fontFamily : option string;
  tt_source : SourceInfo
}.

Record RadiusToken : Type := MkRadiusToken {
  rt_name : string;
  rt_value : string;
  rt_source : SourceInfo
}.

Record ShadowToken : Type := MkShadowToken {
  sh_name : string;
  sh_value : string;
  sh_source : SourceInfo
}.

Inductive GridSystem : Type :=
  css_grid | flexbox | bootstrap_grid | custom | grid_unknown.

Record LayoutInfo : Type := MkLayoutInfo {
  containerWidths : list ExtractedValue;
  breakpoints : list ExtractedValue;
  gridSystem : GridSystem;
  gridEvidence : list string
}.

Record DesignTokens : Type := MkDesignTokens {
  colors : list ColorToken;
  typography : list TypographyToken;
  spacing : list unit;          (* always empty in the source *)
  radii : list RadiusToken;
  shadows : list ShadowToken;
  customProperties : list ExtractedValue
}.

Record ExtractionResult : Type := MkExtractionResult {
  stackSignals : list StackSignal;
  tokens : DesignTokens;
  typographyScale : TypographyScale;
  componentPatterns : list ComponentPattern;
  accessibilitySignals : list AccessibilitySignal;
  layout : LayoutInfo;
  risks : list string;
  notes : list string
}.

Definition BORDER_RADIUS_REGEX : RegExp :=
  re_gi (decl_regex "border-radius" [One ";"; One "}"; One LF]).

Definition BOX_SHADOW_REGEX : RegExp :=
  re_gi (decl_regex "box-shadow" [One ";"; One "}"; One LF]).

(** *** Custom properties *)

Definition extractCSSVariables (css sourceUrl : string)
    : option (list ExtractedValue) :=
  while_exec CSS_VAR_REGEX css
    (fun m variables =>
       let fullMatch := matched css m in
       let name := group_or_empty css m 1 in
       let value := group_or_empty css m 2 in
       variables ++
       [MkExtractedValue ("--" +:+ name +:+ ": " +:+ trim value)
          (MkSourceInfo src_css sourceUrl (slice 0 100 fullMatch) 0.9)])
    [].

(** *** Font families *)

Definition typography_step (css sourceUrl : string) (m : Match)
    (st : list TypographyToken * OSet.t) : list TypographyToken * OSet.t :=
  let '(tokens, seenFonts) := st in
  let value := trim (group_or_empty css m 1) in
  if negb (OSet.has value seenFonts) then
    (tokens ++
       [MkTypographyToken "font-family" (Some value)
          (MkSourceInfo src_css sourceUrl (slice 0 80 (matched css m)) 0.8)],
     OSet.add value seenFonts)
  else st.

Definition extractTypography (css sourceUrl : string)
    : option (list TypographyToken) :=
  option_map fst
    (while_exec FONT_FAMILY_REGEX css (typography_step css sourceUrl) ([], [])).

(** *** Radii and shadows *)

Definition radius_var_step (css sourceUrl : string) (m : Match)
    (radii : OMap.t RadiusToken) : OMap.t RadiusToken :=
  let fullMatch := matched css m in
  let name := group_or_empty css m 1 in
  let value := group_or_empty css m 2 in
  if test0 (re_i (lit "radius")) name then
    let key := "--" +:+ name in
    if negb (OMap.has key radii) then
      OMap.set key
        (MkRadiusToken key (trim value)
           (MkSourceInfo src_css sourceUrl (slice 0 80 fullMatch) 0.85))
        radii
    else radii
  else radii.

Definition radius_decl_step (css sourceUrl : string) (m : Match)
    (radii : OMap.t RadiusToken) : OMap.t RadiusToken :=
  let value := trim (group_or_empty css m 1) in
  if negb (OMap.has value radii) && negb (startsWith "var(" value) then
    OMap.set value
      (MkRadiusToken "border-radius" value
         (MkSourceInfo src_css sourceUrl (slice 0 80 (matched css m)) 0.7))
      radii
  else radii.

Definition extractRadii (css sourceUrl : string) : option (list RadiusToken) :=
  match while_exec CSS_VAR_REGEX css (radius_var_step css sourceUrl) [] with
  | None => None
  | Some radii =>
      option_map OMap.values
        (while_exec BORDER_RADIUS_REGEX css (radius_decl_step css sourceUrl)
           radii)
  end.

Definition shadow_var_step (css sourceUrl : string) (m : Match)
    (shadows : OMap.t ShadowToken) : OMap.t ShadowToken :=
  let fullMatch := matched css m in
  let name := group_or_empty css m 1 in
  let value := group_or_empty css m 2 in
  if test0 (re_i (lit "shadow")) name then
    let key := "--" +:+ name in
    if negb (OMap.has key shadows) then
      OMap.set key
        (MkShadowToken key (trim value)
           (MkSourceInfo src_css sourceUrl (slice 0 80 fullMatch) 0.85))
        shadows
    else shadows
  else shadows.

Definition shadow_decl_step (css sourceUrl : string) (m : Match)
    (shadows : OMap.t ShadowToken) : OMap.t ShadowToken :=
  let value := trim (group_or_empty css m 1) in
  if negb (String.eqb value "none") && negb (startsWith "var(" value)
     && negb (OMap.has value shadows) then
    OMap.set value
      (MkShadowToken "box-shadow" value
         (MkSourceInfo src_css sourceUrl (slice 0 80 (matched css m)) 0.7))
      shadows
  else shadows.

Definition extractShadows (css sourceUrl : string) : option (list ShadowToken) :=
  match while_exec CSS_VAR_REGEX css (shadow_var_step css sourceUrl) [] with
  | None => None
  | Some shadows =>
      option_map OMap.values
        (while_exec BOX_SHADOW_REGEX css (shadow_decl_step css sourceUrl)
           shadows)
  end.

(** *** Layout *)

Definition containerRegex : RegExp :=
  re_gi (seqs [lit ".container"; Star (ncls [One "{"]); Chr "{";
               Star (ncls [One "}"]); lit "max-width"; ws; Chr ":"; ws;
               Grp 1 (Plus (ncls [One ";"]))]).

Definition mediaQueryRegex : RegExp :=
  re_gi (seqs [lit "@media"; Star (ncls [One "{"]); Chr "("; ws;
               alts [lit "min"; lit "max"]; lit "-width"; ws; Chr ":"; ws;
               Grp 1 (Plus (ncls [One ")"])); Chr ")"]).

Definition display_regex (value : string) : RegExp :=
  re_i (seqs [lit "display"; ws; Chr ":"; ws; lit value]).

Definition colClassRegex : RegExp :=
  re_i (seqs [lit ".col-"; alts [lit "xs"; lit "sm"; lit "md"; lit "lg"; lit "xl"];
              Chr "-"; Plus (cls [Digit])]).

Definition breakpoint_step (session : CrawlSession) (allCSS : string)
    (m : Match) (st : list ExtractedValue * OSet.t)
    : list ExtractedValue * OSet.t :=
  let '(breakpoints, seenBreakpoints) := st in
  let bp := trim (group_or_empty allCSS m 1) in
  if negb (OSet.has bp seenBreakpoints) then
    (breakpoints ++
       [MkExtractedValue bp
          (MkSourceInfo src_css (startUrl session)
             (slice 0 60 (matched allCSS m)) 0.85)],
     OSet.add bp seenBreakpoints)
  else st.

(** The three grid checks, run in the order of the source on the pair of
    the classification and the evidence. *)
Definition grid_checks (hasGrid hasFlex hasCols : bool)
    : GridSystem * list string :=
  let st := (grid_unknown, []) in
  let st :=
    if hasGrid then (css_grid, snd st ++ ["CSS Grid (display: grid)"]) else st in
  let st :=
    if hasFlex then
      ((match fst st with grid_unknown => flexbox | g => g end),
       snd st ++ ["Flexbox (display: flex)"])
    else st in
  let st :=
    if hasCols then (bootstrap_grid, snd st ++ ["Bootstrap grid classes"])
    else st in
  st.

Definition extractLayoutInfo (session : CrawlSession) : option LayoutInfo :=
  let allCSS := join nl (OMap.values (cssContents session)) in
  match while_exec containerRegex allCSS
          (fun m containerWidths =>
             containerWidths ++
             [MkExtractedValue (trim (group_or_empty allCSS m 1))
                (MkSourceInfo src_css (startUrl session)
                   (slice 0 80 (matched allCSS m)) 0.8)])
          [] with
  | None => None
  | Some containerWidths =>
      match while_exec mediaQueryRegex allCSS
              (breakpoint_step session allCSS) ([], []) with
      | None => None
      | Some (breakpoints, _) =>
          let '(gridSystem, gridEvidence) :=
            grid_checks (test0 (display_regex "grid") allCSS)
                        (test0 (display_regex "flex") allCSS)
                        (test0 colClassRegex allCSS) in
          Some (MkLayoutInfo containerWidths breakpoints gridSystem gridEvidence)
      end
  end.

(** *** Deduplicator *)

(** [items.filter(...)] with the [seen] set carried along. *)
Fixpoint dedup_from {T} (keyFn : T -> string) (seen : gset string)
    (items : list T) : list T :=
  match items with
  | [] => []
  | item :: tl =>
      let key := keyFn item in
      if decide (key ∈ seen) then dedup_from keyFn seen tl
      else item :: dedup_from keyFn (seen ∪ {[key]}) tl
  end.

Definition deduplicateByValue {T} (items : list T) (keyFn : T -> string)
    : list T :=
  dedup_from keyFn ∅ items.

(** *** Main extraction function *)

(** What the five extractors gather, and [COLOR_REGEX.lastIndex]. *)
Record Gathered : Type := MkGathered {
  allColors : list ColorToken;
  allTypography : list TypographyToken;
  allRadii : list RadiusToken;
  allShadows : list ShadowToken;
  allCustomProperties : list ExtractedValue;
  color_state : Globals
}.

(** The five extractors run on one unit of CSS text, their results pushed
    onto the gathered lists. *)
Definition gather_unit (acc : option Gathered) (unit_ : string * string)
    : option Gathered :=
  let '(css, sourceUrl) := unit_ in
  match acc with
  | None => None
  | Some g =>
      match extractColors css sourceUrl (color_state g),
            extractTypography css sourceUrl,
            extractRadii css sourceUrl,
            extractShadows css sourceUrl,
            extractCSSVariables css sourceUrl with
      | Some (cs, globals), Some ts, Some rs, Some ss, Some vs =>
          Some (MkGathered (allColors g ++ cs) (allTypography g ++ ts)
                  (allRadii g ++ rs) (allShadows g ++ ss)
                  (allCustomProperties g ++ vs) globals)
      | _, _, _, _, _ => None
      end
  end.

(** The units in the order of the source: the inline style blocks of every
    page, then the fetched stylesheets. *)
Definition css_units (session : CrawlSession) : list (string * string) :=
  flat_map (fun page =>
              List.map (fun css => (css, finalUrl page)) (inline_styles page))
           (pages session)
  ++ List.map (fun entry => (snd entry, fst entry)) (cssContents session).

Definition has_signal (n : string) (signals : list StackSignal) : bool :=
  existsb (fun s => String.eqb (sig_name s) n) signals.

Definition risks_of (session : CrawlSession) (signals : list StackSignal)
    (uniqueColors : list ColorToken) : list string :=
  (if 50 <? length uniqueColors then
     ["Large color palette detected (50+ colors) - may indicate inconsistent design tokens"]
   else [])
  ++ (if has_signal "Bootstrap" signals && has_signal "Tailwind CSS" signals then
        ["Multiple CSS frameworks detected (Bootstrap + Tailwind) - may cause style conflicts"]
      else [])
  ++ (match robotsTxtStatus session with
      | blocked => ["robots.txt blocks crawling - results may be incomplete"]
      | _ => []
      end).

Definition notes_of (session : CrawlSession) : list string :=
  if (length (cssContents session) =? 0) && (0 <? length (pages session)) then
    ["No external CSS files were fetched - tokens extracted from inline styles only"]
  else [].

Definition font_key (t : TypographyToken) : string :=
  match tt_fontFamily t with Some f => f | None => "" end.

(** [extract(session)] run in the global state [g]: the result and the
    global state it leaves behind. *)
Definition extract (session : CrawlSession) (g : Globals)
    : option (ExtractionResult * Globals) :=
  let stackSignals := detectStack session in
  match extractTypographyScale session,
        detectComponentPatterns session,
        extractLayoutInfo session,
        fold_left gather_unit (css_units session)
          (Some (MkGathered [] [] [] [] [] g)) with
  | Some typographyScale, Some componentPatterns, Some layout, Some all =>
      let accessibilitySignals := detectAccessibilitySignals session in
      let uniqueColors := deduplicateByValue (allColors all) ct_value in
      let uniqueTypography := deduplicateByValue (allTypography all) font_key in
      let uniqueRadii := deduplicateByValue (allRadii all) rt_value in
      let uniqueShadows := deduplicateByValue (allShadows all) sh_value in
      let uniqueProps := deduplicateByValue (allCustomProperties all) ev_value in
      Some (MkExtractionResult stackSignals
              (MkDesignTokens uniqueColors uniqueTypography [] uniqueRadii
                 uniqueShadows uniqueProps)
              typographyScale componentPatterns accessibilitySignals layout
              (risks_of session stackSignals uniqueColors)
              (notes_of session),
            color_state all)
  | _, _, _, _ => None
  end.

End Tokens.

(** ** Notions used to state the properties of the token extractors *)

Module TokenSpec.

Import JS Types Extract Tokens.

(** The key under which a token sits in the map of [extractRadii]: the
    value of a direct declaration, the name of a custom property. *)
Definition radius_key (t : RadiusToken) : string :=
  if String.eqb (rt_name t) "border-radius" then rt_value t else rt_name t.

Definition shadow_key (t : ShadowToken) : string :=
  if String.eqb (sh_name t) "box-shadow" then sh_value t else sh_name t.

(** A map whose every entry sits under the key of its value. *)
Definition keyed_by {V} (keyOf : V -> string) (m : OMap.t V) : Prop :=
  List.NoDup (OMap.keys m) /\ Forall (fun e => keyOf (snd e) = fst e) m.

(** The custom property declared by a match of [CSS_VAR_REGEX]. *)
Definition variable_of (css sourceUrl : string) (m : Match) : ExtractedValue :=
  MkExtractedValue
    ("--" +:+ group_or_empty css m 1 +:+ ": " +:+ trim (group_or_empty css m 2))
    (MkSourceInfo src_css sourceUrl (slice 0 100 (matched css m)) 0.9).

(** The trimmed first group of a match. *)
Definition declared (css : string) (m : Match) : string :=
  trim (group_or_empty css m 1).

(** The outcome of the three grid checks, as a decision table. *)
Definition grid_table (hasGrid hasFlex hasCols : bool) : GridSystem :=
  if hasCols then bootstrap_grid
  else if hasGrid then css_grid
  else if hasFlex then flexbox
  else grid_unknown.

End TokenSpec.

(** ** Notions used to state the accounting of a crawl *)

Module CrawlSpec.

Import JS Types Crawler.

(** A page whose error passes the [if (result.error)] test. *)
Definition failed_page (p : CrawledPage) : bool :=
  match truthy (error p) with Some _ => true | None => false end.

Definition failed_pages (ps : list CrawledPage) : nat :=
  length (List.filter failed_page ps).

(** The stylesheet links of the pages, first occurrences in order. *)
Definition gathered_links (ps : list CrawledPage) : OSet.t :=
  fold_left (fun acc link => OSet.add link acc) (flat_map cssLinks ps) [].

(** The stylesheet URLs the asset pass goes through. *)
Definition asset_urls (config : ExtractorConfig) (ps : list CrawledPage)
    : list string :=
  if includeAssets config then gathered_links ps else [].

(** The URLs requested and the number of delays of [ms] milliseconds among
    some events. *)
Definition fetched (evs : list Event) : list string :=
  flat_map (fun e => match e with EvFetch u => [u] | _ => [] end) evs.

Definition pauses (ms : nat) (evs : list Event) : nat :=
  length (List.filter (Nat.eqb ms) (sleeps evs)).

(** The robots.txt requests among some events. *)
Definition robots_requests (evs : list Event) : list string :=
  flat_map (fun e => match e with EvRobots u => [u] | _ => [] end) evs.

(** All the transport calls among some events: those of [fetchWithRetry]
    and the requests for robots.txt. *)
Definition transport_calls (evs : list Event) : nat :=
  fetch_count evs + length (robots_requests evs).

(** The events of fetching [kp] pages and [kc] stylesheets among [urls]:
    one pause of 500 ms per page, one of 300 ms per stylesheet, between one
    and three transport calls for each, no call for any other URL and no
    request for robots.txt. *)
Definition trace_ok (evs : list Event) (urls : list string) (kp kc : nat)
    : Prop :=
  pauses 500 evs = kp
  /\ pauses 300 evs = kc
  /\ kp + kc <= fetch_count evs <= 3 * (kp + kc)
  /\ Forall (fun u => In u urls) (fetched evs)
  /\ robots_requests evs = [].

(** Where a fetched URL comes from: the theme URL, or a link found on a
    page. *)
Definition discovered (config : ExtractorConfig) (ps : list CrawledPage)
    (raw : string) : Prop :=
  raw = themeUrl config \/ exists q, In q ps /\ In raw (internalLinks q).

(** What holds of every recorded page. *)
Definition page_ok (P : Platform) (config : ExtractorConfig)
    (ps : list CrawledPage) (p : CrawledPage) : Prop :=
  (sameOriginOnly config = true ->
   isSameOrigin P (url p) (themeUrl config) = true)
  /\ exists raw,
       truthy (normalizeUrl P raw None) = Some (url p)
       /\ discovered config ps raw.

(** The first recorded page is the theme URL. *)
Definition starts_at_seed (P : Platform) (config : ExtractorConfig)
    (ps : list CrawledPage) : Prop :=
  match ps with
  | [] => True
  | p :: _ => truthy (normalizeUrl P (themeUrl config) None) = Some (url p)
  end.

(** What the page loop keeps true of its variables. *)
Definition page_acct (P : Platform) (config : ExtractorConfig)
    (st : CrawlState) : Prop :=
  st_totalRequests st = length (st_pages st)
  /\ st_failedRequests st = failed_pages (st_pages st)
  /\ st_allCssLinks st = gathered_links (st_pages st)
  /\ st_cssContents st = []
  /\ Forall (discovered config (st_pages st)) (st_queue st)
  /\ Forall (page_ok P config (st_pages st)) (st_pages st)
  /\ starts_at_seed P config (st_pages st)
  /\ (st_pages st = [] -> st_queue st = [themeUrl config] \/ st_queue st = []).

End CrawlSpec.

(** ** Output formatting module: the theme report *)

Module Format.

Import JS Types Extract Tokens.

Record ReportMeta : Type := MkReportMeta {
  version : string;
  generatedAt : string;
  meta_sourceUrl : string;
  pagesCrawled : nat;
  meta_crawlDuration : nat;
  meta_robotsTxtStatus : RobotsStatus
}.

Record HeadingSize : Type := MkHeadingSize {
  hs_tag : string;
  hs_size : option string
}.

Record TypographySummary : Type := MkTypographySummary {
  primaryFonts : list string;
  headingScale : list HeadingSize;
  bodySize : option string
}.

Record ComponentSummary : Type := MkComponentSummary {
  cs_name : ComponentType;
  cs_type : ComponentType;
  classes : list string;
  states : list string
}.

Record AccessibilitySummary : Type := MkAccessibilitySummary {
  as_feature : string;
  as_present : bool;
  as_details : option string
}.

Record LayoutSummary : Type := MkLayoutSummary {
  ls_containerWidths : list string;
  ls_breakpoints : list string;
  ls_gridSystem : GridSystem
}.

Record ThemeReport : Type := MkThemeReport {
  meta : ReportMeta;
  report_stackSignals : list StackSignal;
  report_tokens : DesignTokens;
  typographySummary : TypographySummary;
  report_componentPatterns : list ComponentSummary;
  report_accessibilitySignals : list AccessibilitySummary;
  report_layout : LayoutSummary;
  report_risks : list string;
  report_notes : list string;
  recommendedApproach : string
}.

Definition standard_approach : string :=
  "Standard CSS integration with design token centralization.".

Definition tailwind_approach : string :=
  "Extend Tailwind configuration with extracted tokens. Create custom utilities for component variants. Use @apply for reusable patterns.".

Definition shadcn_approach : string :=
  "Update CSS variables in globals.css. Extend component variants using CVA. Add custom primitives following shadcn/ui patterns.".

Definition bootstrap_approach : string :=
  "Override Bootstrap Sass variables. Create custom utility classes for design system extensions.".

Definition react_approach : string :=
  "Centralize tokens in CSS variables or theme configuration. Create reusable component primitives. Use CSS Modules or styled-components for scoped styling.".

(** The chain of tests on the name of the primary stack. *)
Definition approach_for (name : string) : string :=
  if String.eqb name "Tailwind CSS" then tailwind_approach
  else if String.eqb name "shadcn/ui" then shadcn_approach
  else if String.eqb name "Bootstrap" then bootstrap_approach
  else if String.eqb name "Next.js" || String.eqb name "React"
  then react_approach
  else standard_approach.

(** [[a && 'hover', b && 'focus', c && 'active'].filter(Boolean)] *)
Definition states_of (p : ComponentPattern) : list string :=
  (if hasHoverState p then ["hover"] else [])
  ++ (if hasFocusState p then ["focus"] else [])
  ++ (if hasActiveState p then ["active"] else []).

(** [generateThemeReport(session, extraction, config)]; [now] is what
    [new Date().toISOString()] returns. *)
Definition generateThemeReport (now : string) (session : CrawlSession)
    (extraction : ExtractionResult) (config : ExtractorConfig) : ThemeReport :=
  let recommendedApproach :=
    match stackSignals extraction with
    | primaryStack :: _ => approach_for (sig_name primaryStack)
    | [] => standard_approach
    end in
  MkThemeReport
    (MkReportMeta "1.0.0" now (themeUrl config) (length (pages session))
       (crawlDuration session) (robotsTxtStatus session))
    (stackSignals extraction)
    (MkDesignTokens
       (colors (tokens extraction)) (typography (tokens extraction))
       (spacing (tokens extraction)) (radii (tokens extraction))
       (shadows (tokens extraction)) (customProperties (tokens extraction)))
    (MkTypographySummary
       (List.map ev_value
          (firstn 5 (fontFamilies (typographyScale extraction))))
       (List.map (fun h => MkHeadingSize (h_tag h) (h_fontSize h))
          (headings (typographyScale extraction)))
       (match bodyText (typographyScale extraction) with
        | Some b => b_fontSize b
        | None => None
        end))
    (List.map (fun p => MkComponentSummary (cp_name p) (cp_type p)
                          (classPatterns p) (states_of p))
       (Tokens.componentPatterns extraction))
    (List.map (fun s => MkAccessibilitySummary (feature s) (present s) (details s))
       (accessibilitySignals extraction))
    (MkLayoutSummary
       (List.map ev_value (containerWidths (layout extraction)))
       (List.map ev_value (breakpoints (layout extraction)))
       (gridSystem (layout extraction)))
    (risks extraction)
    (notes extraction)
    recommendedApproach.

End Format.

(** ** Orchestrator: input validation and defaults *)

Module Orchestrator.

Import JS.

(** A JavaScript number. *)
Inductive Num : Type :=
| NaN
| Fin (q : Q)
| PosInf
| NegInf.

(** [x < c] and [x > c] for a finite constant [c]. *)
Definition num_lt (x : Num) (c : Q) : bool :=
  match x with
  | NaN => false
  | Fin q => Qgtb c q
  | PosInf => false
  | NegInf => true
  end.

Definition num_gt (x : Num) (c : Q) : bool :=
  match x with
  | NaN => false
  | Fin q => Qgtb q c
  | PosInf => true
  | NegInf => false
  end.

(** An absent field is [None]. *)
Record ExtractorInput : Type := MkExtractorInput {
  in_themeUrl : string;
  in_maxPages : option Num;
  in_sameOriginOnly : option bool;
  in_includeAssets : option bool;
  in_mode : option string;
  in_notes : option string
}.

Record Config : Type := MkConfig {
  cf_themeUrl : string;
  cf_maxPages : Num;
  cf_sameOriginOnly : bool;
  cf_includeAssets : bool;
  cf_mode : string;
  cf_notes : string
}.

Record Validation : Type := MkValidation {
  valid : bool;
  errors : list string
}.

Definition is_member (x : string) (l : list string) : bool :=
  existsb (String.eqb x) l.

(** [s] in double quotes. *)
Definition quoted (s : string) : string :=
  String DQ s +:+ String DQ EmptyString.

Definition mode_error : string :=
  "mode must be " +:+ quoted "extract" +:+ ", " +:+ quoted "prompt"
  +:+ ", or " +:+ quoted "both".

(** [validateInput(input)] for an input of the declared type (so that
    [typeof input.maxPages] is ['number'] whenever the field is present);
    [protocol_of u] is [new URL(u).protocol], [None]
    when the constructor throws. *)
Definition validateInput (protocol_of : string -> option string)
    (input : ExtractorInput) : Validation :=
  let errors := [] in
  let errors :=
    if String.eqb (in_themeUrl input) "" then
      errors ++ ["themeUrl is required"]
    else
      match protocol_of (in_themeUrl input) with
      | Some protocol =>
          if negb (is_member protocol ["http:"; "https:"]) then
            errors ++ ["themeUrl must use http or https protocol"]
          else errors
      | None => errors ++ ["themeUrl must be a valid URL"]
      end in
  let errors :=
    match in_maxPages input with
    | Some maxPages =>
        if num_lt maxPages 1 || num_gt maxPages 20 then
          errors ++ ["maxPages must be a number between 1 and 20"]
        else errors
    | None => errors
    end in
  let errors :=
    match in_mode input with
    | Some mode =>
        if negb (is_member mode ["extract"; "prompt"; "both"]) then
          errors ++ [mode_error]
        else errors
    | None => errors
    end in
  MkValidation (length errors =? 0) errors.

Definition or_default {A} (o : option A) (d : A) : A :=
  match o with Some a => a | None => d end.

Definition normalizeConfig (input : ExtractorInput) : Config :=
  MkConfig (in_themeUrl input)
    (or_default (in_maxPages input) (Fin 6))
    (or_default (in_sameOriginOnly input) true)
    (or_default (in_includeAssets input) false)
    (or_default (in_mode input) "both")
    (or_default (in_notes input) "").

(** What [validateInput] lets through. *)
Definition acceptable (protocol_of : string -> option string)
    (input : ExtractorInput) : Prop :=
  in_themeUrl input <> ""
  /\ (protocol_of (in_themeUrl input) = Some "http:"
      \/ protocol_of (in_themeUrl input) = Some "https:")
  /\ (in_maxPages input = None
      \/ in_maxPages input = Some NaN
      \/ exists q, in_maxPages input = Some (Fin q) /\ (1 <= q <= 20)%Q)
  /\ (in_mode input = None
      \/ in_mode input = Some "extract"
      \/ in_mode input = Some "prompt"
      \/ in_mode input = Some "both").

(** The messages of the three checks, check by check. *)
Definition url_errors (protocol_of : string -> option string)
    (input : ExtractorInput) : list string :=
  if String.eqb (in_themeUrl input) "" then ["themeUrl is required"]
  else
    match protocol_of (in_themeUrl input) with
    | Some protocol =>
        if negb (is_member protocol ["http:"; "https:"]) then
          ["themeUrl must use http or https protocol"]
        else []
    | None => ["themeUrl must be a valid URL"]
    end.

Definition pages_errors (input : ExtractorInput) : list string :=
  match in_maxPages input with
  | Some maxPages =>
      if num_lt maxPages 1 || num_gt maxPages 20 then
        ["maxPages must be a number between 1 and 20"]
      else []
  | None => []
  end.

Definition mode_errors (input : ExtractorInput) : list string :=
  match in_mode input with
  | Some mode =>
      if negb (is_member mode ["extract"; "prompt"; "both"]) then [mode_error]
      else []
  | None => []
  end.

(** A mode that is set, to one of the three modes. *)
Definition known_mode (o : option string) : Prop :=
  exists m, o = Some m /\ is_member m ["extract"; "prompt"; "both"] = true.

End Orchestrator.

(** ** Command line: argument parsing *)

Module Cli.

Import JS Orchestrator.

Record CLIArgs : Type := MkCLIArgs {
  a_url : option string;
  a_maxPages : option Num;
  a_sameOriginOnly : option bool;
  a_includeAssets : option bool;
  a_mode : option string;
  a_notes : option string;
  a_help : option bool;
  a_key : option string
}.

Definition no_args : CLIArgs :=
  MkCLIArgs None None None None None None None None.

(** A string-or-undefined value that fails an [if (x)] test. *)
Definition falsy (o : option string) : bool :=
  match o with
  | Some s => String.eqb s ""
  | None => true
  end.

(** [val === 'true' || val === '1'] on [args[++i]?.toLowerCase()] *)
Definition flag_value (next : option string) : bool :=
  match option_map toLowerCase next with
  | Some val => String.eqb val "true" || String.eqb val "1"
  | None => false
  end.

(** One turn of the loop of [parseArgs] on [arg = args[i]], where [next] is
    [args[i + 1]]: the new result, and whether the turn moved [i] on by one
    more. [parseInt v] is [parseInt(v, 10)]. *)
Definition parse_arg (parseInt : option string -> Num)
    (arg : string) (next : option string) (result : CLIArgs) : CLIArgs * bool :=
  if String.eqb arg "--help" || String.eqb arg "-h" then
    (MkCLIArgs (a_url result) (a_maxPages result) (a_sameOriginOnly result)
       (a_includeAssets result) (a_mode result) (a_notes result) (Some true)
       (a_key result), false)
  else if String.eqb arg "--url" || String.eqb arg "-u" then
    (MkCLIArgs next (a_maxPages result) (a_sameOriginOnly result)
       (a_includeAssets result) (a_mode result) (a_notes result) (a_help result)
       (a_key result), true)
  else if String.eqb arg "--maxPages" || String.eqb arg "-p" then
    (MkCLIArgs (a_url result) (Some (parseInt next)) (a_sameOriginOnly result)
       (a_includeAssets result) (a_mode result) (a_notes result) (a_help result)
       (a_key result), true)
  else if String.eqb arg "--sameOriginOnly" then
    (MkCLIArgs (a_url result) (a_maxPages result) (Some (flag_value next))
       (a_includeAssets result) (a_mode result) (a_notes result) (a_help result)
       (a_key result), true)
  else if String.eqb arg "--includeAssets" then
    (MkCLIArgs (a_url result) (a_maxPages result) (a_sameOriginOnly result)
       (Some (flag_value next)) (a_mode result) (a_notes result) (a_help result)
       (a_key result), true)
  else if String.eqb arg "--mode" || String.eqb arg "-m" then
    ((match next with
      | Some val =>
          if is_member val ["extract"; "prompt"; "both"] then
            MkCLIArgs (a_url result) (a_maxPages result)
              (a_sameOriginOnly result) (a_includeAssets result) (Some val)
              (a_notes result) (a_help result) (a_key result)
          else result
      | None => result
      end), true)
  else if String.eqb arg "--notes" || String.eqb arg "-n" then
    (MkCLIArgs (a_url result) (a_maxPages result) (a_sameOriginOnly result)
       (a_includeAssets result) (a_mode result) next (a_help result)
       (a_key result), true)
  else if String.eqb arg "--key" || String.eqb arg "-k" then
    (MkCLIArgs (a_url result) (a_maxPages result) (a_sameOriginOnly result)
       (a_includeAssets result) (a_mode result) (a_notes result) (a_help result)
       next, true)
  else if negb (startsWith "-" arg) && falsy (a_url result) then
    (MkCLIArgs (Some arg) (a_maxPages result) (a_sameOriginOnly result)
       (a_includeAssets result) (a_mode result) (a_notes result) (a_help result)
       (a_key result), false)
  else (result, false).

(** The [for] loop over the arguments, from [args[i]] on. *)
Fixpoint parse_from (parseInt : option string -> Num) (args : list string)
    (result : CLIArgs) : CLIArgs :=
  match args with
  | [] => result
  | arg :: rest =>
      let '(result', skip) := parse_arg parseInt arg (hd_error rest) result in
      if skip then
        match rest with
        | [] => result'
        | _ :: rest' => parse_from parseInt rest' result'
        end
      else parse_from parseInt rest result'
  end.

Definition parseArgs (parseInt : option string -> Num) (args : list string)
    : CLIArgs :=
  parse_from parseInt args no_args.

(** The input that [main] hands to [runExtractor]; [None] when [main]
    exits because no URL was given. *)
Definition main_input (args : CLIArgs) : option ExtractorInput :=
  match a_url args with
  | Some url =>
      if String.eqb url "" then None
      else Some (MkExtractorInput url (a_maxPages args) (a_sameOriginOnly args)
                   (a_includeAssets args) (a_mode args) (a_notes args))
  | None => None
  end.

End Cli.

(* ===================================================================== *)
(** * Part II. Properties                                                 *)
(* ===================================================================== *)

(** ** The matcher makes progress *)

Module JSFacts.

Import JS.

Lemma follows_trans n m s1 s2 s3 :
  follows n s1 s2 -> follows m s2 s3 -> follows (n + m) s1 s3.
Proof. unfold follows. lia. Qed.

Lemma follows_weaken n m s s' : m <= n -> follows n s s' -> follows m s s'.
Proof. unfold follows. lia. Qed.

Lemma advance_follows s c s' : advance s = Some (c, s') -> follows 1 s s'.
Proof.
  unfold advance, follows. destruct (rest s) as [|x tl] eqn:E; [discriminate|].
  intros [= <- <-]. simpl. lia.
Qed.

Lemma rep_loop_progresses body n :
  progresses n body ->
  forall fuel lo hi greedy s k f,
    rep_loop body fuel lo hi greedy s k = Some f ->
    exists s', k s' = Some f /\ follows 0 s s' /\
               (0 < lo -> hi <> Some 0 -> follows n s s').
Proof.
  intros Hb. induction fuel as [|fuel IH]; intros lo hi greedy s k f H;
    [discriminate|].
  assert (Hself : forall s0 : mstate, follows 0 s0 s0) by (unfold follows; lia).
  assert (Hagain : forall hi' res f',
    body s (fun s' =>
      if (lo =? 0) && (pos s' =? pos s) then None
      else rep_loop body fuel (Nat.pred lo) hi' greedy s' k) = res ->
    res = Some f' ->
    exists s', k s' = Some f' /\ follows 0 s s' /\ follows n s s').
  { intros hi' res f' <- Ha. apply Hb in Ha as (s1 & Hk1 & F1).
    destruct ((lo =? 0) && (pos s1 =? pos s)); [discriminate|].
    apply IH in Hk1 as (s2 & Hk2 & F2 & _).
    exists s2. split; [exact Hk2|].
    split.
    - apply (follows_weaken (n + 0)); [lia|]. eapply follows_trans; eauto.
    - replace n with (n + 0) by lia. eapply follows_trans; eauto. }
  assert (Hmain : forall hi',
    (if 0 <? lo
     then body s (fun s' =>
            if (lo =? 0) && (pos s' =? pos s) then None
            else rep_loop body fuel (Nat.pred lo) hi' greedy s' k)
     else if greedy
          then match body s (fun s' =>
                   if (lo =? 0) && (pos s' =? pos s) then None
                   else rep_loop body fuel (Nat.pred lo) hi' greedy s' k) with
               | Some r => Some r
               | None => k s
               end
          else match k s with
               | Some r => Some r
               | None => body s (fun s' =>
                   if (lo =? 0) && (pos s' =? pos s) then None
                   else rep_loop body fuel (Nat.pred lo) hi' greedy s' k)
               end) = Some f ->
    exists s', k s' = Some f /\ follows 0 s s' /\ (0 < lo -> follows n s s')).
  { intros hi' Hm. destruct (0 <? lo) eqn:Hlo.
    - destruct (Hagain _ _ _ eq_refl Hm) as (s' & ? & ? & ?). exists s'. auto.
    - apply Nat.ltb_ge in Hlo. destruct greedy.
      + match type of Hm with match ?a with _ => _ end = _ =>
          destruct a eqn:Ea end.
        * inversion Hm; subst.
          destruct (Hagain _ _ _ Ea eq_refl) as (s' & ? & ? & ?).
          exists s'. split; [|split]; auto.
        * exists s. split; [|split]; auto. intros; lia.
      + destruct (k s) eqn:Ek.
        * exists s. split; [|split]; auto; try congruence. intros; lia.
        * destruct (Hagain _ _ _ eq_refl Hm) as (s' & ? & ? & ?).
          exists s'. auto. }
  simpl in H.
  destruct hi as [[|h]|].
  - exists s. split; [exact H|]. split; [apply Hself|]. intros _ Hne. congruence.
  - apply Hmain in H as (s' & ? & ? & ?). exists s'. auto.
  - apply Hmain in H as (s' & ? & ? & ?). exists s'. auto.
Qed.

Lemma run_progresses ci r : progresses (min_len r) (run ci r).
Proof.
  induction r as [ |c|neg items|r1 IH1 r2 IH2|r1 IH1 r2 IH2|lo hi greedy r1 IH|i r1 IH| | | ];
    intros s k f H; cbn [run] in H; cbn [min_len].
  - exists s. split; [exact H|]. unfold follows; lia.
  - destruct (advance s) as [[c0 s']|] eqn:Ea; [|discriminate].
    destruct (chr_eq ci c c0); [|discriminate].
    exists s'. split; [exact H|]. eapply advance_follows; eauto.
  - destruct (advance s) as [[c0 s']|] eqn:Ea; [|discriminate].
    destruct (cls_mem ci neg items c0); [|discriminate].
    exists s'. split; [exact H|]. eapply advance_follows; eauto.
  - apply IH1 in H as (s1 & H1 & F1). apply IH2 in H1 as (s2 & H2 & F2).
    exists s2. split; [exact H2|]. eapply follows_trans; eauto.
  - destruct (run ci r1 s k) eqn:E1.
    + inversion H; subst. apply IH1 in E1 as (s1 & H1 & F1).
      exists s1. split; [exact H1|]. eapply follows_weaken; [|exact F1]. lia.
    + apply IH2 in H as (s1 & H1 & F1).
      exists s1. split; [exact H1|]. eapply follows_weaken; [|exact F1]. lia.
  - apply (rep_loop_progresses _ _ IH) in H as (s' & Hk & F0 & Fn).
    exists s'. split; [exact Hk|].
    destruct hi as [[|h]|]; try exact F0.
    + destruct (lo =? 0) eqn:E0; [exact F0|].
      apply Nat.eqb_neq in E0. apply Fn; [lia|congruence].
    + destruct (lo =? 0) eqn:E0; [exact F0|].
      apply Nat.eqb_neq in E0. apply Fn; [lia|congruence].
  - apply IH in H as (s1 & H1 & F1). exists (set_cap i (pos s) (pos s1) s1).
    split; [exact H1|]. exact F1.
  - destruct (at_word_boundary s); [|discriminate].
    exists s. split; [exact H|]. unfold follows; lia.
  - destruct (prev s); [discriminate|].
    exists s. split; [exact H|]. unfold follows; lia.
  - destruct (rest s); [|discriminate].
    exists s. split; [exact H|]. unfold follows; lia.
Qed.

(** *** The fuel of the quantifier loop is never used up *)

Lemma follows_refl s : follows 0 s s.
Proof. unfold follows. lia. Qed.

Lemma follows_step s s1 s2 : follows 0 s s1 -> follows 0 s1 s2 -> follows 0 s s2.
Proof. unfold follows. lia. Qed.

Lemma rep_loop_local body :
  local body ->
  forall fuel lo hi greedy, local (rep_loop body fuel lo hi greedy).
Proof.
  intros Hb. induction fuel as [|fuel IH]; intros lo hi greedy s k k' Hk;
    [reflexivity|].
  assert (Hagain :
    body s (fun s' =>
      if (lo =? 0) && (pos s' =? pos s) then None
      else rep_loop body fuel (Nat.pred lo) (option_map Nat.pred hi) greedy s' k)
    = body s (fun s' =>
      if (lo =? 0) && (pos s' =? pos s) then None
      else rep_loop body fuel (Nat.pred lo) (option_map Nat.pred hi) greedy s' k')).
  { apply Hb. intros s' Hs'.
    destruct ((lo =? 0) && (pos s' =? pos s)); [reflexivity|].
    apply IH. intros s'' Hs''. apply Hk. eapply follows_step; eauto. }
  simpl. rewrite Hagain, (Hk s (follows_refl s)). reflexivity.
Qed.

Lemma run_local ci r : local (run ci r).
Proof.
  induction r as [ |c|neg items|r1 IH1 r2 IH2|r1 IH1 r2 IH2|lo hi greedy r1 IH|i r1 IH| | | ];
    intros s k k' Hk; cbn [run].
  - apply Hk, follows_refl.
  - destruct (advance s) as [[c0 s']|] eqn:Ea; [|reflexivity].
    destruct (chr_eq ci c c0); [|reflexivity].
    apply Hk. eapply follows_weaken; [|eapply advance_follows; eauto]. lia.
  - destruct (advance s) as [[c0 s']|] eqn:Ea; [|reflexivity].
    destruct (cls_mem ci neg items c0); [|reflexivity].
    apply Hk. eapply follows_weaken; [|eapply advance_follows; eauto]. lia.
  - apply IH1. intros s1 H1. apply IH2. intros s2 H2.
    apply Hk. eapply follows_step; eauto.
  - rewrite (IH1 s k k' Hk), (IH2 s k k' Hk). reflexivity.
  - apply rep_loop_local; assumption.
  - apply IH. intros s1 H1. apply Hk. exact H1.
  - destruct (at_word_boundary s); [|reflexivity]. apply Hk, follows_refl.
  - destruct (prev s); [reflexivity|]. apply Hk, follows_refl.
  - destruct (rest s); [|reflexivity]. apply Hk, follows_refl.
Qed.

(** Any fuel above [lo + length (rest s)] gives the same result. *)
Lemma rep_loop_fuel body :
  local body ->
  forall fuel fuel' lo hi greedy s k,
    lo + length (rest s) < fuel ->
    lo + length (rest s) < fuel' ->
    rep_loop body fuel lo hi greedy s k = rep_loop body fuel' lo hi greedy s k.
Proof.
  intros Hb. induction fuel as [|fuel IH]; intros fuel' lo hi greedy s k Hf Hf';
    [lia|].
  destruct fuel' as [|fuel']; [lia|].
  assert (Hagain :
    body s (fun s' =>
      if (lo =? 0) && (pos s' =? pos s) then None
      else rep_loop body fuel (Nat.pred lo) (option_map Nat.pred hi) greedy s' k)
    = body s (fun s' =>
      if (lo =? 0) && (pos s' =? pos s) then None
      else rep_loop body fuel' (Nat.pred lo) (option_map Nat.pred hi) greedy s' k)).
  { apply Hb. intros s' [Hpos Hlen].
    destruct (lo =? 0) eqn:E0; simpl.
    - destruct (pos s' =? pos s) eqn:Ep; [reflexivity|].
      apply Nat.eqb_eq in E0. apply Nat.eqb_neq in Ep. apply IH; lia.
    - apply Nat.eqb_neq in E0. apply IH; lia. }
  simpl. rewrite Hagain. reflexivity.
Qed.

(** In particular the fuel that [run] gives to a quantifier is enough. *)
Lemma run_rep_fuel ci lo hi greedy r s k extra :
  run ci (Rep lo hi greedy r) s k
  = rep_loop (run ci r) (S (lo + length (rest s)) + extra) lo hi greedy s k.
Proof. cbn [run]. apply rep_loop_fuel; [apply run_local|lia|lia]. Qed.

(** *** What a match captures *)

Lemma extends_refl gs s : extends gs s s.
Proof. exists []. split; [reflexivity|constructor]. Qed.

Lemma extends_trans gs s1 s2 s3 :
  extends gs s1 s2 -> extends gs s2 s3 -> extends gs s1 s3.
Proof.
  intros (n1 & H1 & F1) (n2 & H2 & F2). exists (n2 ++ n1). split.
  - rewrite H2, H1. apply app_assoc.
  - apply Forall_app. split; assumption.
Qed.

Lemma extends_incl gs gs' s s' :
  incl gs gs' -> extends gs s s' -> extends gs' s s'.
Proof.
  intros Hi (new & H & F). exists new. split; [exact H|].
  eapply List.Forall_impl; [|exact F]. intros e He. apply Hi. exact He.
Qed.

Lemma advance_extends gs s c s' : advance s = Some (c, s') -> extends gs s s'.
Proof.
  unfold advance. destruct (rest s); [discriminate|].
  intros [= _ <-]. exists []. split; [reflexivity|constructor].
Qed.

Lemma rep_loop_captures body gs :
  captures gs body ->
  forall fuel lo hi greedy, captures gs (rep_loop body fuel lo hi greedy).
Proof.
  intros Hb. induction fuel as [|fuel IH]; intros lo hi greedy s k f H;
    [discriminate|].
  assert (Hagain : forall hi' f',
    body s (fun s' =>
      if (lo =? 0) && (pos s' =? pos s) then None
      else rep_loop body fuel (Nat.pred lo) hi' greedy s' k) = Some f' ->
    exists s', k s' = Some f' /\ extends gs s s').
  { intros hi' f' Ha. apply Hb in Ha as (s1 & Hk1 & E1).
    destruct ((lo =? 0) && (pos s1 =? pos s)); [discriminate|].
    apply IH in Hk1 as (s2 & Hk2 & E2).
    exists s2. split; [exact Hk2|]. eapply extends_trans; eauto. }
  assert (Hmain : forall hi',
    (if 0 <? lo
     then body s (fun s' =>
            if (lo =? 0) && (pos s' =? pos s) then None
            else rep_loop body fuel (Nat.pred lo) hi' greedy s' k)
     else if greedy
          then match body s (fun s' =>
                   if (lo =? 0) && (pos s' =? pos s) then None
                   else rep_loop body fuel (Nat.pred lo) hi' greedy s' k) with
               | Some r => Some r
               | None => k s
               end
          else match k s with
               | Some r => Some r
               | None => body s (fun s' =>
                   if (lo =? 0) && (pos s' =? pos s) then None
                   else rep_loop body fuel (Nat.pred lo) hi' greedy s' k)
               end) = Some f ->
    exists s', k s' = Some f /\ extends gs s s').
  { intros hi' Hm. destruct (0 <? lo).
    - apply (Hagain _ _ Hm).
    - destruct greedy.
      + match type of Hm with match ?a with _ => _ end = _ =>
          destruct a eqn:Ea end.
        * inversion Hm; subst. apply (Hagain _ _ Ea).
        * exists s. split; [exact Hm|apply extends_refl].
      + destruct (k s) eqn:Ek.
        * exists s. split; [congruence|apply extends_refl].
        * apply (Hagain _ _ Hm). }
  simpl in H.
  destruct hi as [[|h]|].
  - exists s. split; [exact H|apply extends_refl].
  - apply Hmain in H. exact H.
  - apply Hmain in H. exact H.
Qed.

(** A pattern sets captures of its own groups only. *)
Lemma run_captures ci r : captures (groups r) (run ci r).
Proof.
  induction r as [ |c|neg items|r1 IH1 r2 IH2|r1 IH1 r2 IH2|lo hi greedy r1 IH|i r1 IH| | | ];
    intros s k f H; cbn [run] in H; cbn [groups].
  - exists s. split; [exact H|apply extends_refl].
  - destruct (advance s) as [[c0 s']|] eqn:Ea; [|discriminate].
    destruct (chr_eq ci c c0); [|discriminate].
    exists s'. split; [exact H|]. eapply advance_extends; eauto.
  - destruct (advance s) as [[c0 s']|] eqn:Ea; [|discriminate].
    destruct (cls_mem ci neg items c0); [|discriminate].
    exists s'. split; [exact H|]. eapply advance_extends; eauto.
  - apply IH1 in H as (s1 & H1 & E1). apply IH2 in H1 as (s2 & H2 & E2).
    exists s2. split; [exact H2|].
    eapply extends_trans; (eapply extends_incl; [|eassumption]).
    + apply incl_appl, incl_refl.
    + apply incl_appr, incl_refl.
  - destruct (run ci r1 s k) eqn:E1.
    + inversion H; subst. apply IH1 in E1 as (s1 & H1 & F1).
      exists s1. split; [exact H1|].
      eapply extends_incl; [apply incl_appl, incl_refl|exact F1].
    + apply IH2 in H as (s1 & H1 & F1).
      exists s1. split; [exact H1|].
      eapply extends_incl; [apply incl_appr, incl_refl|exact F1].
  - apply (rep_loop_captures _ _ IH) in H. exact H.
  - apply IH in H as (s1 & H1 & (new & Hc & Hn)).
    exists (set_cap i (pos s) (pos s1) s1). split; [exact H1|].
    exists ((i, (pos s, pos s1)) :: new). split.
    + simpl. rewrite Hc. reflexivity.
    + constructor; [left; reflexivity|].
      eapply List.Forall_impl; [|exact Hn]. intros e He. right. exact He.
  - destruct (at_word_boundary s); [|discriminate].
    exists s. split; [exact H|apply extends_refl].
  - destruct (prev s); [discriminate|].
    exists s. split; [exact H|apply extends_refl].
  - destruct (rest s); [|discriminate].
    exists s. split; [exact H|apply extends_refl].
Qed.

(** Captures of other groups leave the capture of group [i] alone. *)
Lemma find_cap_extends i gs s s' :
  extends gs s s' -> ~ In i gs -> find_cap i (caps s') = find_cap i (caps s).
Proof.
  intros (new & -> & Hn) Hi. induction Hn as [|[j ab] new Hj _ IH];
    [reflexivity|].
  simpl. destruct (i =? j) eqn:E; [|exact IH].
  apply Nat.eqb_eq in E. subst j. contradiction.
Qed.

(** *** Where a match can lie *)

Lemma seek_skipn : forall i rs pv pv' rs',
  seek pv rs i = Some (pv', rs') -> rs' = skipn i rs.
Proof.
  induction i as [|i IH]; intros rs pv pv' rs' H; simpl in H.
  - inversion H; subst. reflexivity.
  - destruct rs as [|c tl]; [discriminate|]. apply IH in H. exact H.
Qed.

(** A match found by the search is a run of the pattern from its start
    index, begun with no capture. *)
Lemma search_start re : forall rs pv p m,
  search re pv rs p = Some m ->
  exists j pv' f,
    m_index m = p + j
    /\ run (ignoreCase re) (pattern re) (MState pv' (skipn j rs) (p + j) []) Some
       = Some f
    /\ m_end m = pos f /\ m_caps m = caps f.
Proof.
  induction rs as [|c tl IH]; intros pv p m H; simpl in H.
  - destruct (run _ _ _ _) eqn:E; [|discriminate].
    inversion H; subst. exists 0, pv, m0. rewrite Nat.add_0_r. auto.
  - destruct (run _ _ _ _) eqn:E.
    + inversion H; subst. exists 0, pv, m0. rewrite Nat.add_0_r. auto.
    + apply IH in H as (j & pv' & f & Hi & Hr & He & Hc).
      exists (S j), pv', f. replace (p + S j) with (S p + j) by lia. auto.
Qed.

Lemma search_from_start re input i m :
  search_from re input i = Some m ->
  exists pv f,
    run (ignoreCase re) (pattern re)
        (MState pv (skipn (m_index m) input) (m_index m) []) Some
    = Some f
    /\ m_end m = pos f /\ m_caps m = caps f.
Proof.
  unfold search_from. destruct (seek None input i) as [[pv rs]|] eqn:E;
    [|discriminate].
  intros H. apply seek_skipn in E. subst rs.
  apply search_start in H as (j & pv' & f & Hi & Hr & He & Hc).
  exists pv', f. rewrite Hi. rewrite skipn_skipn in Hr.
  replace (j + i) with (i + j) in Hr by lia. auto.
Qed.

Lemma search_bounds re : forall rs pv p m,
  search re pv rs p = Some m ->
  p <= m_index m /\ m_index m + min_len (pattern re) <= m_end m
  /\ m_end m <= p + length rs.
Proof.
  induction rs as [|c tl IH]; intros pv p m H; simpl in H.
  - destruct (run _ _ _ _) eqn:E; [|discriminate].
    inversion H; subst; simpl.
    apply run_progresses in E as (s' & Hs & F1 & F2). inversion Hs; subst.
    simpl in *. lia.
  - destruct (run _ _ _ _) eqn:E.
    + inversion H; subst; simpl.
      apply run_progresses in E as (s' & Hs & F1 & F2). inversion Hs; subst.
      simpl in *. lia.
    + apply IH in H. simpl. lia.
Qed.

Lemma seek_length : forall i rs pv pv' rs',
  seek pv rs i = Some (pv', rs') -> length rs = i + length rs'.
Proof.
  induction i as [|i IH]; intros rs pv pv' rs' H; simpl in H.
  - inversion H; subst. reflexivity.
  - destruct rs as [|c tl]; [discriminate|]. apply IH in H. simpl. lia.
Qed.

Lemma search_from_bounds re input i m :
  search_from re input i = Some m ->
  i <= m_index m /\ m_index m + min_len (pattern re) <= m_end m
  /\ m_end m <= length input.
Proof.
  unfold search_from. destruct (seek None input i) as [[pv rs]|] eqn:E;
    [|discriminate].
  intros H. apply search_bounds in H. apply seek_length in E. lia.
Qed.

Lemma length_of_string s : length (of_string s) = String.length s.
Proof.
  unfold of_string. induction s as [|c s IH]; simpl; [reflexivity|].
  now rewrite IH.
Qed.

(** A successful [exec] of a [g] pattern moves [lastIndex] forward by at
    least the minimal length of a match, and never past the end. *)
Lemma exec_advances re input li m li' :
  global re = true ->
  exec re input li = (Some m, li') ->
  li' = m_end m /\ li + min_len (pattern re) <= li'
  /\ li' <= String.length input.
Proof.
  intros Hg. unfold exec. rewrite Hg.
  destruct (search_from re (of_string input) li) as [m0|] eqn:E;
    [|discriminate].
  intros [= <- <-]. apply search_from_bounds in E.
  rewrite length_of_string in E. lia.
Qed.

(** A literal pattern matches wherever the literal occurs. *)
Lemma run_lit ci : forall kw st k tl,
  rest st = kw ++ tl ->
  exists st', run ci (lit_chars kw) st k = k st'.
Proof.
  induction kw as [|c kw IH]; intros st k tl Hr.
  - exists st. reflexivity.
  - assert (Hadv : advance st
                   = Some (c, MState (Some c) (kw ++ tl) (S (pos st)) (caps st))).
    { unfold advance. rewrite Hr. reflexivity. }
    assert (Heq : chr_eq ci c c = true).
    { unfold chr_eq. destruct ci; apply Ascii.eqb_refl. }
    destruct kw as [|c' kw'].
    + eexists. cbn [lit_chars run]. rewrite Hadv, Heq. reflexivity.
    + destruct (IH (MState (Some c) ((c' :: kw') ++ tl) (S (pos st)) (caps st))
                  k tl eq_refl) as (st' & Hst').
      exists st'. change (lit_chars (c :: c' :: kw'))
        with (Seq (Chr c) (lit_chars (c' :: kw'))).
      cbn [run]. rewrite Hadv, Heq. exact Hst'.
Qed.

(** A pattern that matches at the start of [rs], whatever comes before,
    is found in every input that ends in [rs]. *)
Lemma search_app re rs :
  (forall pv p, exists f,
      run (ignoreCase re) (pattern re) (MState pv rs p []) Some = Some f) ->
  forall pre pv p, exists m, search re pv (pre ++ rs) p = Some m.
Proof.
  intros Hhit. induction pre as [|c pre IH]; intros pv p.
  - destruct (Hhit pv p) as (f & Hf). simpl app.
    destruct rs; simpl; rewrite Hf; eauto.
  - simpl. destruct (run _ _ _ _); eauto.
Qed.

Lemma test0_hit re s pre rs :
  global re = false ->
  of_string s = pre ++ rs ->
  (forall pv p, exists f,
      run (ignoreCase re) (pattern re) (MState pv rs p []) Some = Some f) ->
  test0 re s = true.
Proof.
  intros Hg Hs Hhit.
  unfold test0, test, exec. rewrite Hg. unfold search_from. simpl seek.
  rewrite Hs. destruct (search_app re rs Hhit pre None 0) as (m & ->).
  reflexivity.
Qed.

(** A literal pattern is found in every string that contains the literal. *)
Lemma test0_contains re kw s :
  global re = false ->
  pattern re = lit kw ->
  contains kw s ->
  test0 re s = true.
Proof.
  intros Hg Hp (pre & post & Hs).
  apply (test0_hit re s pre (of_string kw ++ post) Hg Hs).
  intros pv p. rewrite Hp.
  destruct (run_lit (ignoreCase re) (of_string kw)
              (MState pv (of_string kw ++ post) p []) Some post eq_refl)
    as (st' & Hst').
  exists st'. exact Hst'.
Qed.

(** So is an alternation of two literals in every string that contains
    one of them. *)
Lemma test0_contains_either re kw1 kw2 s :
  global re = false ->
  pattern re = Alt (lit kw1) (lit kw2) ->
  contains kw1 s \/ contains kw2 s ->
  test0 re s = true.
Proof.
  intros Hg Hp [(pre & post & Hs)|(pre & post & Hs)].
  - apply (test0_hit re s pre (of_string kw1 ++ post) Hg Hs).
    intros pv p. rewrite Hp. cbn [run].
    destruct (run_lit (ignoreCase re) (of_string kw1)
                (MState pv (of_string kw1 ++ post) p []) Some post eq_refl)
      as (st' & Hst').
    unfold lit. rewrite Hst'. eauto.
  - apply (test0_hit re s pre (of_string kw2 ++ post) Hg Hs).
    intros pv p. rewrite Hp. cbn [run].
    destruct (run (ignoreCase re) (lit kw1) _ Some) as [f|]; [eauto|].
    destruct (run_lit (ignoreCase re) (of_string kw2)
                (MState pv (of_string kw2 ++ post) p []) Some post eq_refl)
      as (st' & Hst').
    unfold lit. rewrite Hst'. eauto.
Qed.

End JSFacts.

(** ** Loops over successive matches end *)

Module LoopFacts.

Import JS Extract JSFacts.

Lemma exec_loop_fold {A} re input (body : Match -> A -> A) :
  global re = true ->
  0 < min_len (pattern re) ->
  forall fuel li acc,
    0 < fuel ->
    String.length input < fuel + li ->
    exec_loop fuel re input li body acc
    = Some (fold_left (fun a m => body m a) (exec_all fuel re input li) acc).
Proof.
  intros Hg Hmin. induction fuel as [|fuel IH]; intros li acc Hpos Hlen;
    [lia|]. simpl.
  destruct (exec re input li) as [[m|] li'] eqn:E; [|reflexivity].
  apply (exec_advances _ _ _ _ _ Hg) in E as (-> & Hadv & Hle).
  simpl. apply IH; lia.
Qed.

(** [while ((m = re.exec(input)) !== null) body] returns for every [g]
    pattern that matches no empty string, and it runs [body] once per
    successive match, in scan order. *)
Lemma while_exec_fold {A} re input (body : Match -> A -> A) acc :
  global re = true ->
  0 < min_len (pattern re) ->
  while_exec re input body acc
  = Some (fold_left (fun a m => body m a) (successive_matches re input) acc).
Proof.
  intros Hg Hmin. unfold while_exec, successive_matches.
  apply exec_loop_fold; auto; lia.
Qed.

End LoopFacts.

(** ** Typography scale *)

Module TypographyFacts.

Import JS Types Extract JSFacts LoopFacts Spec.

Lemma fold_left_snoc {A B} (f : A -> B) (l : list A) (acc : list B) :
  fold_left (fun a m => a ++ [f m]) l acc = acc ++ List.map f l.
Proof.
  revert acc. induction l as [|x l IH]; intros acc; simpl.
  - now rewrite app_nil_r.
  - rewrite IH. now rewrite <- app_assoc.
Qed.

Lemma last_cons_default {A} (x : A) (l : list A) (d d' : A) :
  List.last (x :: l) d = List.last (x :: l) d'.
Proof.
  revert x. induction l as [|y l IH]; intros x; [reflexivity|].
  change (List.last (y :: l) d = List.last (y :: l) d'). apply IH.
Qed.

Lemma fold_left_overwrite {A B} (f : A -> B) (l : list A) (acc : option B) :
  fold_left (fun _ m => Some (f m)) l acc
  = List.last (List.map (fun m => Some (f m)) l) acc.
Proof.
  revert acc. induction l as [|x l IH]; intros acc; simpl; [reflexivity|].
  rewrite IH. destruct l as [|y l]; [reflexivity|].
  apply last_cons_default.
Qed.

Lemma last_map_snoc {A B} (f : A -> B) (pre : list A) (x : A) (d : B) :
  List.last (List.map f (pre ++ [x])) d = f x.
Proof. rewrite map_app. simpl. apply last_last. Qed.

Lemma Forall2_map_self {A B} (f : A -> B) (P : B -> A -> Prop) (l : list A) :
  (forall a, In a l -> P (f a) a) -> Forall2 P (List.map f l) l.
Proof.
  induction l as [|a l IH]; intros H; simpl; constructor.
  - apply H. left. reflexivity.
  - apply IH. intros b Hb. apply H. right. exact Hb.
Qed.

Lemma filter_map_length {A B} (f : A -> B) (p : B -> bool) (l : list A) :
  length (List.filter p (List.map f l))
  = length (List.filter (fun a => p (f a)) l).
Proof.
  induction l as [|a l IH]; [reflexivity|]. simpl.
  destruct (p (f a)); simpl; now rewrite IH.
Qed.

(** Every successive match of a [g] pattern was found by a search. *)
Lemma exec_all_in re input :
  global re = true ->
  forall fuel li m,
    In m (exec_all fuel re input li) ->
    exists li', search_from re (of_string input) li' = Some m.
Proof.
  intros Hg. induction fuel as [|fuel IH]; intros li m Hin; [destruct Hin|].
  simpl in Hin. destruct (exec re input li) as [[m0|] li'] eqn:E;
    [|destruct Hin].
  destruct Hin as [<-|Hin]; [|apply (IH _ _ Hin)].
  unfold exec in E. rewrite Hg in E.
  destruct (search_from re (of_string input) li) as [m1|] eqn:Es;
    [|discriminate].
  injection E as <- _. exists li. exact Es.
Qed.

(** The characters that the tag group of the heading pattern accepts. *)
Lemma heading_letter c : chr_eq true "h" c = true -> to_lower c = "h"%char.
Proof.
  unfold chr_eq. intros H. apply Ascii.eqb_eq in H. symmetry. exact H.
Qed.

Lemma heading_digit d :
  cls_mem true false [Range "1" "6"] d = true ->
  In (to_lower d) ["1"; "2"; "3"; "4"; "5"; "6"]%char.
Proof.
  destruct d as [[] [] [] [] [] [] [] []]; vm_compute; intros H;
    try discriminate; tauto.
Qed.

(** What a match of the heading pattern captures as its tag: the letter h
    in either case and a digit from 1 to 6. *)
Lemma heading_capture css m :
  In m (successive_matches headingRegex css) ->
  exists c d,
    group css m 1 = Some (String c (String d ""))
    /\ to_lower c = "h"%char
    /\ In (to_lower d) ["1"; "2"; "3"; "4"; "5"; "6"]%char.
Proof.
  intros Hin. apply exec_all_in in Hin as (li & Hs); [|reflexivity].
  apply search_from_start in Hs as (pv & f & Hrun & _ & Hcaps).
  remember (seqs [ws; Chr "{"; Grp 2 (Plus (ncls [One "}"])); Chr "}"])
    as tail eqn:Etail.
  assert (Hpat : pattern headingRegex
                 = Seq WordB
                     (Seq (Grp 1 (Seq (Chr "h") (Cls false [Range "1" "6"])))
                        tail))
    by (subst tail; reflexivity).
  rewrite Hpat in Hrun. change (ignoreCase headingRegex) with true in Hrun.
  cbn [run] in Hrun.
  destruct (at_word_boundary _); [|discriminate].
  unfold advance in Hrun. cbn [rest pos prev caps] in Hrun.
  destruct (skipn (m_index m) (of_string css)) as [|c rs1] eqn:Esk;
    [discriminate|].
  destruct (chr_eq true "h" c) eqn:Ec; [|discriminate].
  cbn [rest pos prev caps] in Hrun.
  destruct rs1 as [|d rs2]; [discriminate|].
  destruct (cls_mem true false [Range "1" "6"] d) eqn:Ed; [|discriminate].
  apply run_captures in Hrun as (s' & Hf & Hext).
  injection Hf as <-.
  apply (find_cap_extends 1) in Hext;
    [|subst tail; simpl; intuition discriminate].
  cbn [caps set_cap pos find_cap Nat.eqb] in Hext.
  exists c, d. split; [|split].
  - unfold group. rewrite Hcaps, Hext. f_equal.
    unfold slice, slice_chars.
    replace (S (S (m_index m)) - m_index m) with 2 by lia.
    rewrite Esk. reflexivity.
  - apply heading_letter. exact Ec.
  - apply heading_digit. exact Ed.
Qed.

Lemma heading_tag css m :
  In m (successive_matches headingRegex css) ->
  In (toLowerCase (group_or_empty css m 1))
     ["h1"; "h2"; "h3"; "h4"; "h5"; "h6"].
Proof.
  intros Hin. destruct (heading_capture css m Hin) as (c & d & Hg & Hc & Hd).
  unfold group_or_empty. rewrite Hg.
  change (toLowerCase (String c (String d "")))
    with (String (to_lower c) (String (to_lower d) "")).
  rewrite Hc. simpl in Hd.
  destruct Hd as [<-|[<-|[<-|[<-|[<-|[<-|[]]]]]]]; simpl; tauto.
Qed.

(** C8. The typography-scale analysis returns for every session. Its
    heading list holds exactly one record per successive match of the
    heading rule pattern in the scanned CSS, in scan order: the record of
    a match carries the tag that the match declares, in lower case, which
    is one of h1 to h6, the trimmed values of the first font-size,
    font-weight, line-height and font-family declarations between its
    braces (null where there is none), and the start of the matched text.
    Nothing is merged or deduplicated: for every tag there are as many
    records as there are matches that declare it. The body-text record is
    the one built in the same way from the last match of the body rule
    pattern, and it is null when there is none. *)
Theorem typography_scale_keeps_every_heading (session : CrawlSession) :
  let css := scale_css session in
  let ms := successive_matches headingRegex css in
  exists scale,
    extractTypographyScale session = Some scale
    /\ length (headings scale) = length ms
    /\ Forall2
         (fun h m =>
            h_tag h = toLowerCase (group_or_empty css m 1)
            /\ In (h_tag h) ["h1"; "h2"; "h3"; "h4"; "h5"; "h6"]
            /\ h_fontSize h = sub_decl "font-size" (group_or_empty css m 2)
            /\ h_fontWeight h = sub_decl "font-weight" (group_or_empty css m 2)
            /\ h_lineHeight h = sub_decl "line-height" (group_or_empty css m 2)
            /\ h_fontFamily h = sub_decl "font-family" (group_or_empty css m 2)
            /\ sourceUrl (h_source h) = startUrl session
            /\ sampleSnippet (h_source h) = slice 0 100 (matched css m))
         (headings scale) ms
    /\ (forall tag,
          length (List.filter (fun h => String.eqb (h_tag h) tag)
                    (headings scale))
          = length (List.filter
                      (fun m => String.eqb
                                  (toLowerCase (group_or_empty css m 1)) tag)
                      ms))
    /\ (successive_matches bodyRegex css = [] -> bodyText scale = None)
    /\ (forall pre m,
          successive_matches bodyRegex css = pre ++ [m] ->
          exists b,
            bodyText scale = Some b
            /\ b_fontSize b = sub_decl "font-size" (group_or_empty css m 1)
            /\ b_lineHeight b = sub_decl "line-height" (group_or_empty css m 1)
            /\ b_fontFamily b = sub_decl "font-family" (group_or_empty css m 1)
            /\ sourceUrl (b_source b) = startUrl session
            /\ sampleSnippet (b_source b) = slice 0 100 (matched css m)).
Proof.
  intros css ms. unfold extractTypographyScale. fold css.
  rewrite (while_exec_fold headingRegex) by (reflexivity || (vm_compute; lia)).
  rewrite (while_exec_fold FONT_FAMILY_REGEX) by (reflexivity || (vm_compute; lia)).
  rewrite (while_exec_fold bodyRegex) by (reflexivity || (vm_compute; lia)).
  destruct (fold_left _ (successive_matches FONT_FAMILY_REGEX _) _)
    as [fontFamilies seen].
  eexists. split; [reflexivity|]. cbn [headings bodyText].
  rewrite fold_left_snoc. cbn [app]. fold ms.
  rewrite (fold_left_overwrite (body_of session css)).
  split; [apply length_map|]. split.
  { apply Forall2_map_self. intros m Hm.
    cbn [heading_of h_tag h_fontSize h_fontWeight h_lineHeight h_fontFamily
         h_source sourceUrl sampleSnippet].
    split; [reflexivity|]. split; [apply heading_tag; exact Hm|].
    repeat split. }
  split.
  { intros tag.
    apply (filter_map_length (heading_of session css)
             (fun h => String.eqb (h_tag h) tag)). }
  split.
  { intros ->. reflexivity. }
  intros pre m ->. rewrite last_map_snoc.
  eexists. split; [reflexivity|].
  cbn [body_of b_fontSize b_lineHeight b_fontFamily b_source sourceUrl
       sampleSnippet].
  repeat split.
Qed.

(** An instance: a session whose inline styles and stylesheet both declare
    h1. The tag appears twice. *)
Lemma typography_scale_keeps_every_heading_witness :
  exists scale,
    extractTypographyScale two_h1_session = Some scale
    /\ length (headings scale) = 2
    /\ length (List.filter (fun h => String.eqb (h_tag h) "h1")
                 (headings scale)) = 2.
Proof.
  destruct (typography_scale_keeps_every_heading two_h1_session)
    as (scale & He & Hlen & _ & Hcount & _).
  exists scale. split; [exact He|]. split.
  - rewrite Hlen. vm_compute. reflexivity.
  - rewrite (Hcount "h1"). vm_compute. reflexivity.
Defined.

(** A tag declared twice appears twice; of two body rules the later one
    survives. *)
Example typography_scale_two_h1 :
  option_map (fun sc => (List.map (fun h => (h_tag h, h_fontSize h)) (headings sc),
                         option_map b_fontSize (bodyText sc)))
             (extractTypographyScale two_h1_session)
  = Some ([("h1", Some "2em"); ("h1", Some "3em")], Some (Some "18px")).
Proof. vm_compute. reflexivity. Qed.

End TypographyFacts.

(** ** Component patterns *)

Module ComponentFacts.

Import JS Types Extract Spec.

(** C10. Component pattern detection reads the fetched stylesheet texts
    only: replacing the pages of a session by any others leaves its result
    unchanged, and a session whose stylesheet map is empty yields the empty
    list whatever its pages hold. *)
Theorem component_patterns_read_stylesheets_only
    (session : CrawlSession) (ps : list CrawledPage) :
  detectComponentPatterns (with_pages ps session)
  = detectComponentPatterns session
  /\ (cssContents session = [] -> detectComponentPatterns session = Some []).
Proof.
  split; [reflexivity|].
  intros H. unfold detectComponentPatterns. rewrite H. vm_compute. reflexivity.
Qed.

(** An instance: component rules that only stand in an inline style block
    are not seen. *)
Lemma component_patterns_read_stylesheets_only_witness :
  cssContents inline_only_session = []
  /\ detectComponentPatterns inline_only_session = Some [].
Proof.
  split; [reflexivity|].
  apply (proj2 (component_patterns_read_stylesheets_only inline_only_session [])).
  reflexivity.
Defined.

(** With the same rules in a fetched stylesheet the card pattern is found. *)
Example component_patterns_card :
  option_map (List.map (fun p => (cp_type p, classPatterns p, hasHoverState p,
                                   hasFocusState p)))
             (detectComponentPatterns card_session)
  = Some [(t_card, [".card"; ".card-body"; ".card:hover"], true, false)].
Proof. vm_compute. reflexivity. Qed.

End ComponentFacts.

(** ** Accessibility signals *)

Module AccessibilityFacts.

Import JS Types Extract Spec.

Lemma Qgtb_lt x y : Qgtb x y = true <-> (y < x)%Q.
Proof.
  unfold Qgtb. rewrite negb_true_iff. split.
  - intros H. apply Qnot_le_lt. intros Hle. apply Qle_bool_iff in Hle. congruence.
  - intros H. destruct (Qle_bool x y) eqn:E; [|reflexivity].
    apply Qle_bool_iff in E. exfalso. eapply Qlt_not_le; eauto.
Qed.

(** C9. Whatever the session, exactly one "Image Alt Text" signal is
    emitted; it is present exactly when the alt coverage (images carrying
    [alt=] over all image tags, 1 when there is no image tag) strictly
    exceeds 0.8; with no image tag the coverage is 1 and the signal is
    present; with 3 of 4 images carrying alt it is absent and its detail
    text is "3/4 images have alt text (75%)". *)
Theorem image_alt_signal (session : CrawlSession) :
  let imgTags := imgTags_of (allHTML_of session) in
  let imgWithAlt := imgWithAlt_of imgTags in
  let altCoverage := altCoverage_of imgWithAlt (length imgTags) in
  exists sig,
    List.filter is_alt_signal (detectAccessibilitySignals session) = [sig]
    /\ (present sig = true <-> (0.8 < altCoverage)%Q)
    /\ (0 < length imgTags ->
        (altCoverage == count_Q imgWithAlt / count_Q (length imgTags))%Q)
    /\ (length imgTags = 0 -> (altCoverage == 1)%Q /\ present sig = true)
    /\ (length imgTags = 4 -> imgWithAlt = 3 ->
        present sig = false
        /\ details sig = Some "3/4 images have alt text (75%)").
Proof.
  intros imgTags imgWithAlt altCoverage.
  eexists. split; [reflexivity|]. cbn [present details].
  fold imgTags. fold imgWithAlt. fold altCoverage.
  split; [apply Qgtb_lt|].
  split.
  { intros H. unfold altCoverage, altCoverage_of.
    apply Nat.ltb_lt in H. rewrite H. reflexivity. }
  split.
  { intros H. unfold altCoverage. rewrite H. split; reflexivity. }
  intros H4 H3. unfold altCoverage. rewrite H4, H3. split; reflexivity.
Qed.

(** The percentage is rounded from the double product: 23 of 40 images
    give 0.575 as a double, whose product with 100 is just below 57.5. *)
Example altPercent_23_of_40 :
  altPercent 23 40 = 57%Z /\ round (altCoverage_of 23 40 * 100)%Q = 58%Z.
Proof. split; vm_compute; reflexivity. Qed.

(** Instances: a page without images, and the 3-of-4 scenario. *)
Lemma image_alt_signal_witness :
  (exists sig,
     List.filter is_alt_signal (detectAccessibilitySignals no_img_session) = [sig]
     /\ present sig = true)
  /\ (exists sig,
       List.filter is_alt_signal (detectAccessibilitySignals three_of_four_session)
       = [sig]
       /\ present sig = false
       /\ details sig = Some "3/4 images have alt text (75%)").
Proof.
  split.
  - destruct (image_alt_signal no_img_session) as (sig & Hf & _ & _ & H0 & _).
    exists sig. split; [exact Hf|]. apply H0. reflexivity.
  - destruct (image_alt_signal three_of_four_session)
      as (sig & Hf & _ & _ & _ & H34).
    exists sig. split; [exact Hf|]. apply H34; reflexivity.
Defined.

End AccessibilityFacts.

(** ** Colour tokens *)

Module ColorFacts.

Import JS Types Extract Spec JSFacts.

(** C6 (the code departs from it). Usage inference is, for every name,
    the ordered first-match-wins walk over the rules background,
    foreground/text, primary, secondary, accent, border, else unknown, and
    a name that contains "background" or "bg" in any letter case is a
    background colour whatever else it contains. The scenario, though,
    depends on what was called before. Colour extraction on
    [:root{--color-primary-bg:#102030;}] yields the one token (value
    "#102030", format hex, usage background) in every state where
    [COLOR_REGEX.lastIndex] is 0, as in a freshly loaded module, and it
    leaves that index at 7; in every state where the index is not 0, so
    after the scenario itself has been run once, the same call yields no
    token at all. *)
Theorem color_scenario_needs_fresh_pattern (sourceUrl : string) :
  List.map snd usage_rules
  = [u_background; u_foreground; u_primary; u_secondary; u_accent; u_border]
  /\ (forall name, inferColorUsage name = first_match_usage name)
  /\ (forall name,
        contains "background" (toLowerCase name)
        \/ contains "bg" (toLowerCase name) ->
        inferColorUsage name = u_background)
  /\ inferColorUsage "primary-background" = u_background
  /\ (forall g,
        COLOR_REGEX_lastIndex g = 0 ->
        exists tok g',
          extractColors primary_bg_css sourceUrl g = Some ([tok], g')
          /\ ct_name tok = "--color-primary-bg"
          /\ ct_value tok = "#102030"
          /\ ct_format tok = hex
          /\ ct_usage tok = u_background
          /\ COLOR_REGEX_lastIndex g' = 7)
  /\ (forall g,
        COLOR_REGEX_lastIndex g <> 0 ->
        exists g', extractColors primary_bg_css sourceUrl g = Some ([], g')).
Proof.
  split; [reflexivity|]. split.
  { intros name. unfold inferColorUsage, first_match_usage, usage_rules.
    cbn [List.find fst].
    repeat match goal with
           | |- context [test0 ?r ?s] => destruct (test0 r s); try reflexivity
           end. }
  split.
  { intros name Hname. unfold inferColorUsage.
    rewrite (test0_contains_either _ "background" "bg"); auto. }
  split; [vm_compute; reflexivity|].
  split.
  { intros [v c] Hc. cbn [COLOR_REGEX_lastIndex] in Hc. subst c.
    eexists. eexists. split; [vm_compute; reflexivity|].
    repeat split. }
  intros [v c] Hc. cbn [COLOR_REGEX_lastIndex] in Hc.
  destruct c as [|c]; [congruence|].
  do 7 (destruct c as [|c]; [eexists; vm_compute; reflexivity|]).
  eexists. vm_compute. reflexivity.
Qed.

(** An instance: a name with both "primary" and "bg", in upper case. *)
Lemma color_scenario_needs_fresh_pattern_witness :
  inferColorUsage "Color-Primary-BG" = u_background.
Proof.
  apply (proj1 (proj2 (proj2 (color_scenario_needs_fresh_pattern "")))).
  right. exists (of_string "color-primary-"), []. reflexivity.
Defined.

(** C7 (the code departs from it). [extractColors] is not repeatable: in a
    freshly loaded module a first call on [:root{--a:#102030;}] returns the
    token for [#102030] and leaves [COLOR_REGEX.lastIndex] at 7; a second
    call with the very same arguments then returns no token at all. *)
Theorem extractColors_second_call_differs (sourceUrl : string) :
  exists tok g1 g2,
    extractColors one_color_css sourceUrl fresh = Some ([tok], g1)
    /\ ct_value tok = "#102030"
    /\ COLOR_REGEX_lastIndex g1 = 7
    /\ extractColors one_color_css sourceUrl g1 = Some ([], g2).
Proof.
  do 3 eexists.
  split; [vm_compute; reflexivity|].
  split; [reflexivity|]. split; [reflexivity|].
  vm_compute. reflexivity.
Qed.

(** Within one call too, a colour that follows a longer one is lost. *)
Example extractColors_drops_later_color :
  option_map (fun r => List.map ct_value (fst r))
             (extractColors ":root{--a:#102030;--b:#fff;}" seed fresh)
  = Some ["#102030"].
Proof. vm_compute. reflexivity. Qed.

End ColorFacts.

(** ** Sorting *)

Module SortFacts.

Import JS Sort.

Lemma insert_perm {A} (cmp : A -> A -> number) x l :
  Permutation (insert_by cmp x l) (x :: l).
Proof.
  induction l as [|y l IH]; simpl; [reflexivity|].
  destruct (positive (cmp x y)); [|reflexivity].
  rewrite IH. apply perm_swap.
Qed.

Lemma sort_perm {A} (cmp : A -> A -> number) l : Permutation (sort cmp l) l.
Proof.
  induction l as [|x l IH]; simpl; [reflexivity|].
  fold (sort cmp l). rewrite insert_perm. now rewrite IH.
Qed.

Lemma filter_perm {A} (f : A -> bool) l l' :
  Permutation l l' -> Permutation (List.filter f l) (List.filter f l').
Proof.
  induction 1; simpl.
  - constructor.
  - destruct (f x); [constructor|]; assumption.
  - destruct (f x), (f y); try reflexivity. apply perm_swap.
  - etransitivity; eauto.
Qed.

(** Sorting elements on which the comparator decides as an exact rank
    does: [cmp x y > 0] exactly when [x] ranks below [y]. *)
Section Ranked.

Context {A : Type} (cmp : A -> A -> number) (rank : A -> Q) (good : A -> Prop).

Hypothesis cmp_rank : forall x y,
  good x -> good y -> (positive (cmp x y) = true <-> (rank x < rank y)%Q).

Local Abbreviation above := (fun a b : A => (rank b <= rank a)%Q).

Lemma cmp_not_positive x y :
  good x -> good y -> positive (cmp x y) = false -> (rank y <= rank x)%Q.
Proof.
  intros Hx Hy H.
  destruct (Qlt_le_dec (rank x) (rank y)) as [Hlt|Hle]; [|exact Hle].
  apply (cmp_rank x y Hx Hy) in Hlt. congruence.
Qed.

Lemma insert_sorted x l :
  good x -> Forall good l ->
  StronglySorted above l -> StronglySorted above (insert_by cmp x l).
Proof.
  intros Hx. induction l as [|y l IH]; intros Hgood Hs; simpl.
  - constructor; constructor.
  - inversion Hs as [|? ? Hs' Hall]; subst.
    inversion Hgood as [|? ? Hy Hgood']; subst.
    destruct (positive (cmp x y)) eqn:E.
    + constructor; [apply IH; assumption|].
      eapply Permutation_Forall; [symmetry; apply insert_perm|].
      constructor; [|exact Hall].
      apply (cmp_rank x y Hx Hy) in E. lra.
    + apply cmp_not_positive in E; [|assumption|assumption].
      constructor; [exact Hs|].
      constructor; [exact E|].
      eapply List.Forall_impl; [|exact Hall].
      intros z Hz. cbv beta in *. lra.
Qed.

Lemma sort_sorted l : Forall good l -> StronglySorted above (sort cmp l).
Proof.
  induction l as [|x l IH]; intros Hgood; simpl; [constructor|].
  inversion Hgood as [|? ? Hx Hgood']; subst.
  apply insert_sorted; [exact Hx| |apply IH; exact Hgood'].
  eapply Permutation_Forall; [symmetry; apply sort_perm|exact Hgood'].
Qed.

(** Elements of equal rank keep their relative order. *)
Lemma insert_stable c x l :
  good x -> Forall good l ->
  List.filter (fun a => Qeq_bool (rank a) c) (insert_by cmp x l)
  = List.filter (fun a => Qeq_bool (rank a) c) (x :: l).
Proof.
  intros Hx. induction l as [|y l IH]; intros Hgood; [reflexivity|].
  inversion Hgood as [|? ? Hy Hgood']; subst.
  simpl insert_by. destruct (positive (cmp x y)) eqn:E; [|reflexivity].
  apply (cmp_rank x y Hx Hy) in E. simpl in *. rewrite (IH Hgood').
  destruct (Qeq_bool (rank x) c) eqn:Ex; [|reflexivity].
  destruct (Qeq_bool (rank y) c) eqn:Ey; [|reflexivity].
  apply Qeq_bool_iff in Ex, Ey. lra.
Qed.

Lemma sort_stable c l :
  Forall good l ->
  List.filter (fun a => Qeq_bool (rank a) c) (sort cmp l)
  = List.filter (fun a => Qeq_bool (rank a) c) l.
Proof.
  induction l as [|x l IH]; intros Hgood; [reflexivity|].
  inversion Hgood as [|? ? Hx Hgood']; subst.
  simpl sort. fold (sort cmp l). rewrite insert_stable.
  - simpl. now rewrite (IH Hgood').
  - exact Hx.
  - eapply Permutation_Forall; [symmetry; apply sort_perm|exact Hgood'].
Qed.

End Ranked.

Lemma StronglySorted_weaken {A} (R R' : A -> A -> Prop) (good : A -> Prop) l :
  (forall x y, good x -> good y -> R x y -> R' x y) ->
  Forall good l -> StronglySorted R l -> StronglySorted R' l.
Proof.
  intros Himp Hgood Hs. induction Hs as [|x l Hs IH Hall]; [constructor|].
  inversion Hgood as [|? ? Hx Hgood']; subst.
  constructor; [apply IH; exact Hgood'|].
  rewrite List.Forall_forall in *. intros y Hy.
  apply Himp; auto.
Qed.

End SortFacts.

(** ** Stack detection *)

Module StackFacts.

Import JS Types Extract Spec JSFacts SortFacts.

Section Session.

Variable session : CrawlSession.

Local Abbreviation corpus := (allContent session).

Lemma pattern_fold ps : forall ev urls mx,
  exists urls',
    fold_left (pattern_step session corpus) ps (ev, urls, mx)
    = (ev ++ List.map description
               (List.filter (fun p => test0 (fp_regex p) corpus) ps),
       urls',
       fold_left (fun m p => Math_max m (weight p))
         (List.filter (fun p => test0 (fp_regex p) corpus) ps) mx).
Proof.
  induction ps as [|p ps IH]; intros ev urls mx; simpl.
  - exists urls. now rewrite app_nil_r.
  - destruct (test0 (fp_regex p) corpus) eqn:E.
    + match goal with
      | |- context [fold_left _ ps (?e, ?u, ?m)] =>
            destruct (IH e u m) as (urls' & ->)
        end.
      exists urls'. simpl. now rewrite <- app_assoc.
    + apply IH.
Qed.

(** The evidence of a detector lists its matching fingerprints, and the
    confidence it starts from is their largest weight. *)
Lemma run_detector_spec d :
  exists urls,
    run_detector session corpus d
    = (List.map description (matching corpus d), urls,
       maxWeight (matching corpus d)).
Proof.
  unfold run_detector, matching, maxWeight.
  destruct (pattern_fold (patterns d) [] [] (num_of_Z 0)) as (urls & H).
  exists urls. exact H.
Qed.

Lemma signal_of_spec d :
  (matching corpus d = [] -> signal_of session d = [])
  /\ (matching corpus d <> [] ->
      exists urls,
        signal_of session d
        = [MkStackSignal (sd_name d) (sd_category d)
             (confidence_of (matching corpus d))
             (List.map description (matching corpus d)) urls]).
Proof.
  unfold signal_of, confidence_of.
  destruct (run_detector_spec d) as (urls & ->).
  rewrite length_map. split.
  - intros ->. reflexivity.
  - intros Hne. exists urls.
    destruct (matching corpus d); [congruence|]. reflexivity.
Qed.

Lemma signal_of_named d s : In s (signal_of session d) -> sig_name s = sd_name d.
Proof.
  unfold signal_of. destruct (run_detector session corpus d) as [[ev urls] mx].
  destruct (0 <? length ev); simpl; [|tauto].
  intros [<-|[]]. reflexivity.
Qed.

Lemma detector_step_signal_of signals d :
  detector_step session corpus signals d
  = fold_left (fun m s => OMap.set (sig_name s) s m) (signal_of session d) signals.
Proof.
  unfold detector_step, signal_of.
  destruct (run_detector session corpus d) as [[ev urls] mx].
  destruct (0 <? length ev); reflexivity.
Qed.

End Session.

Lemma set_fresh {V} k (v : V) m :
  ~ In k (OMap.keys m) -> OMap.set k v m = m ++ [(k, v)].
Proof.
  induction m as [|[k' v'] m IH]; simpl; intros Hn; [reflexivity|].
  destruct (String.eqb k k') eqn:E.
  - apply String.eqb_eq in E. exfalso. apply Hn. left. now symmetry.
  - rewrite IH; [reflexivity|]. intros H. apply Hn. right. exact H.
Qed.

Lemma keys_entries l : OMap.keys (entries l) = List.map sig_name l.
Proof. unfold OMap.keys, entries. rewrite map_map. reflexivity. Qed.

Lemma values_entries l : OMap.values (entries l) = l.
Proof. unfold OMap.values, entries. rewrite map_map. simpl. apply map_id. Qed.

(** With pairwise distinct detector names the map of signals fills up in
    table order. *)
Lemma detector_fold session : forall table done,
  List.NoDup (List.map sig_name done ++ List.map sd_name table) ->
  fold_left (detector_step session (allContent session)) table (entries done)
  = entries (done ++ flat_map (signal_of session) table).
Proof.
  induction table as [|d table IH]; intros done Hnd; simpl.
  - now rewrite app_nil_r.
  - rewrite detector_step_signal_of.
    pose proof (signal_of_named session d) as Hname.
    destruct (signal_of session d) as [|s [|s' l]] eqn:Es.
    + simpl. apply IH. eapply NoDup_remove_1. exact Hnd.
    + simpl. rewrite set_fresh.
      * change (entries done ++ [(sig_name s, s)]) with
          (entries done ++ entries [s]).
        unfold entries at 1 2. rewrite <- map_app. fold (entries (done ++ [s])).
        rewrite IH.
        -- now rewrite <- app_assoc.
        -- rewrite map_app. simpl. rewrite <- app_assoc. simpl.
           rewrite (Hname s) by (left; reflexivity). exact Hnd.
      * rewrite keys_entries. rewrite (Hname s) by (left; reflexivity).
        apply NoDup_remove_2 in Hnd. intros Hin. apply Hnd.
        apply in_or_app. left. exact Hin.
    + exfalso. unfold signal_of in Es.
      destruct (run_detector _ _ d) as [[ev urls] mx].
      destruct (0 <? length ev); discriminate.
Qed.

Lemma filter_named_other session n d :
  sd_name d <> n -> List.filter (named n) (signal_of session d) = [].
Proof.
  intros Hne. pose proof (signal_of_named session d) as Hname.
  induction (signal_of session d) as [|s l IH]; [reflexivity|]. simpl.
  unfold named at 1. rewrite (Hname s) by (left; reflexivity).
  destruct (String.eqb (sd_name d) n) eqn:E.
  - apply String.eqb_eq in E. contradiction.
  - apply IH. intros s' Hs'. apply Hname. right. exact Hs'.
Qed.

Lemma filter_named_self session d :
  List.filter (named (sd_name d)) (signal_of session d) = signal_of session d.
Proof.
  pose proof (signal_of_named session d) as Hname.
  induction (signal_of session d) as [|s l IH]; [reflexivity|]. simpl.
  unfold named at 1. rewrite (Hname s) by (left; reflexivity).
  rewrite String.eqb_refl. f_equal. apply IH.
  intros s' Hs'. apply Hname. right. exact Hs'.
Qed.

Lemma filter_named_table session : forall table d,
  List.NoDup (List.map sd_name table) ->
  In d table ->
  List.filter (named (sd_name d)) (flat_map (signal_of session) table)
  = signal_of session d.
Proof.
  induction table as [|d0 table IH]; intros d Hnd Hin; [destruct Hin|].
  simpl. rewrite List.filter_app. inversion Hnd as [|? ? Hnot Hnd']; subst.
  destruct Hin as [->|Hin].
  - rewrite filter_named_self.
    assert (Hrest : List.filter (named (sd_name d))
                      (flat_map (signal_of session) table) = []).
    { clear IH Hnd Hnd'. induction table as [|d1 table IH]; [reflexivity|].
      simpl. rewrite List.filter_app.
      rewrite filter_named_other.
      - simpl. apply IH. intros H. apply Hnot. right. exact H.
      - intros H. apply Hnot. left. exact H. }
    rewrite Hrest. apply app_nil_r.
  - rewrite filter_named_other.
    + simpl. apply IH; assumption.
    + intros H. apply Hnot. rewrite H. apply in_map. exact Hin.
Qed.

Lemma detectStack_sorted_table session :
  detectStack session
  = Sort.sort (Sort.desc sig_confidence)
      (flat_map (signal_of session) STACK_DETECTORS).
Proof.
  unfold detectStack, detectStackWith.
  change (@nil (string * StackSignal)) with (entries []).
  rewrite detector_fold.
  - rewrite values_entries. reflexivity.
  - vm_compute. repeat constructor; simpl; intuition discriminate.
Qed.

Lemma detector_names_distinct : List.NoDup (List.map sd_name STACK_DETECTORS).
Proof. vm_compute. repeat constructor; simpl; intuition discriminate. Qed.

Lemma named_signals session d :
  In d STACK_DETECTORS ->
  Permutation (List.filter (named (sd_name d)) (detectStack session))
              (signal_of session d).
Proof.
  intros Hin. rewrite detectStack_sorted_table.
  rewrite <- (filter_named_table session STACK_DETECTORS d
                detector_names_distinct Hin).
  apply filter_perm. apply sort_perm.
Qed.

(** *** The numbers of the table

    The weights are six decimal constants and a detector has at most four
    fingerprints, so what the floating-point operations give on them is
    settled by running them on every outcome. *)

Lemma num_same_eq x y : num_same x y = true -> x = y.
Proof.
  destruct x as [s| s| |s m e], y as [s'| s'| |s' m' e']; simpl;
    try discriminate; try reflexivity.
  - intros H. apply Bool.eqb_prop in H. now subst.
  - intros H. apply Bool.eqb_prop in H. now subst.
  - rewrite !andb_true_iff. intros [[Hs Hm] He].
    apply Bool.eqb_prop in Hs. apply Pos.eqb_eq in Hm. apply Z.eqb_eq in He.
    now subst.
Qed.

Lemma filter_in_sublists {A} (f : A -> bool) l :
  In (List.filter f l) (sublists l).
Proof.
  induction l as [|x l IH]; simpl; [left; reflexivity|].
  apply in_or_app. destruct (f x); [left|right; exact IH].
  apply in_map. exact IH.
Qed.

(** The fingerprints of a detector that match a corpus are an outcome. *)
Lemma matching_is_outcome corpus d :
  In d STACK_DETECTORS -> matching corpus d <> [] ->
  In (matching corpus d) outcomes.
Proof.
  intros Hd Hne. unfold outcomes. apply filter_In. split.
  - apply in_flat_map. exists d. split; [exact Hd|].
    apply filter_in_sublists.
  - destruct (matching corpus d); [congruence|reflexivity].
Qed.

Lemma outcomes_max : forallb max_ok outcomes = true.
Proof. vm_compute. reflexivity. Qed.

Lemma outcomes_bounds : forallb bounds_ok outcomes = true.
Proof. vm_compute. reflexivity. Qed.

Lemma outcomes_order :
  forallb (fun m =>
             forallb (fun m' => order_ok (confidence_of m) (confidence_of m'))
                     outcomes)
          outcomes = true.
Proof. vm_compute. reflexivity. Qed.

(** [maxWeight] is the largest weight among the fingerprints of an
    outcome. *)
Lemma maxWeight_is_max m :
  In m outcomes ->
  In (maxWeight m) (List.map weight m)
  /\ Forall (fun p => fle (weight p) (maxWeight m) = true) m.
Proof.
  intros Hm. pose proof outcomes_max as H.
  rewrite forallb_forall in H. specialize (H m Hm).
  unfold max_ok in H. apply andb_true_iff in H as [Hex Hall]. split.
  - apply existsb_exists in Hex as (p & Hp & Hsame).
    apply num_same_eq in Hsame. rewrite Hsame. apply in_map. exact Hp.
  - apply List.Forall_forall. intros p Hp.
    rewrite forallb_forall in Hall. apply Hall. exact Hp.
Qed.

(** A signal whose confidence is that of an outcome. *)
Local Abbreviation scored :=
  (fun s : StackSignal =>
     exists m, In m outcomes /\ sig_confidence s = confidence_of m).

Lemma signals_scored session :
  Forall scored (flat_map (signal_of session) STACK_DETECTORS).
Proof.
  apply List.Forall_forall. intros s Hs.
  apply in_flat_map in Hs as (d & Hd & Hs).
  destruct (signal_of_spec session d) as [Hnone Hsome].
  destruct (matching (allContent session) d) as [|p ps] eqn:Em.
  - rewrite Hnone in Hs by reflexivity. destruct Hs.
  - destruct Hsome as (urls & He); [discriminate|].
    rewrite He in Hs. destruct Hs as [<-|[]].
    exists (p :: ps). split; [|reflexivity].
    rewrite <- Em. apply matching_is_outcome; [exact Hd|].
    rewrite Em. discriminate.
Qed.

Lemma scored_order x y :
  scored x -> scored y ->
  order_ok (sig_confidence x) (sig_confidence y) = true.
Proof.
  intros (m & Hm & ->) (m' & Hm' & ->).
  pose proof outcomes_order as H. rewrite forallb_forall in H.
  specialize (H m Hm). rewrite forallb_forall in H. exact (H m' Hm').
Qed.

Lemma Qgtb_rank x y : Qgtb y x = true <-> (x < y)%Q.
Proof.
  unfold Qgtb. rewrite negb_true_iff. split.
  - intros H. destruct (Qlt_le_dec x y) as [Hlt|Hle]; [exact Hlt|].
    apply Qle_bool_iff in Hle. congruence.
  - intros H. destruct (Qle_bool y x) eqn:E; [|reflexivity].
    apply Qle_bool_iff in E. lra.
Qed.

(** On scored signals the comparator of the sort and the comparisons of
    numbers decide as the exact values of the confidences do. *)
Lemma scored_rank x y :
  scored x -> scored y ->
  (Sort.positive (Sort.desc sig_confidence x y) = true
   <-> (num_value (sig_confidence x) < num_value (sig_confidence y))%Q)
  /\ (fle (sig_confidence x) (sig_confidence y) = true
      <-> (num_value (sig_confidence x) <= num_value (sig_confidence y))%Q)
  /\ (feq (sig_confidence x) (sig_confidence y)
      = Qeq_bool (num_value (sig_confidence x)) (num_value (sig_confidence y))).
Proof.
  intros Hx Hy. pose proof (scored_order x y Hx Hy) as H.
  unfold order_ok in H. apply andb_true_iff in H as [H Heq].
  apply andb_true_iff in H as [Hgt Hle].
  apply Bool.eqb_prop in Hgt, Hle, Heq.
  split; [|split].
  - unfold Sort.desc. rewrite Hgt. apply Qgtb_rank.
  - rewrite Hle. apply Qle_bool_iff.
  - exact Heq.
Qed.

Lemma detectStack_scored session : Forall scored (detectStack session).
Proof.
  rewrite detectStack_sorted_table.
  eapply Permutation_Forall; [symmetry; apply sort_perm|].
  apply signals_scored.
Qed.

(** The result is sorted by non-increasing confidence. *)
Lemma detectStack_sorted session :
  StronglySorted (Sort.geq sig_confidence) (detectStack session).
Proof.
  pose proof (detectStack_scored session) as Hgood.
  apply (StronglySorted_weaken
           (fun a b => (num_value (sig_confidence b)
                        <= num_value (sig_confidence a))%Q)
           (Sort.geq sig_confidence) scored).
  - intros x y Hx Hy Hr. unfold Sort.geq.
    apply (proj1 (proj2 (scored_rank y x Hy Hx))). exact Hr.
  - exact Hgood.
  - rewrite detectStack_sorted_table.
    apply (sort_sorted (Sort.desc sig_confidence)
             (fun s => num_value (sig_confidence s)) scored).
    + intros x y Hx Hy. apply (proj1 (scored_rank x y Hx Hy)).
    + apply signals_scored.
Qed.

(** Signals of equal confidence stand in detector table order. *)
Lemma detectStack_stable session s0 :
  In s0 (detectStack session) ->
  List.filter (has_confidence (sig_confidence s0)) (detectStack session)
  = List.filter (has_confidence (sig_confidence s0))
      (flat_map (signal_of session) STACK_DETECTORS).
Proof.
  intros Hs0.
  pose proof (detectStack_scored session) as Hgood.
  pose proof (signals_scored session) as Hgood'.
  assert (H0 : scored s0).
  { rewrite List.Forall_forall in Hgood. apply Hgood. exact Hs0. }
  assert (Hext : forall l, Forall scored l ->
            List.filter (has_confidence (sig_confidence s0)) l
            = List.filter (fun a => Qeq_bool (num_value (sig_confidence a))
                                      (num_value (sig_confidence s0))) l).
  { intros l Hl. apply filter_ext_in. intros a Ha.
    rewrite List.Forall_forall in Hl. unfold has_confidence.
    apply (proj2 (proj2 (scored_rank a s0 (Hl a Ha) H0))). }
  rewrite (Hext _ Hgood), (Hext _ Hgood'), detectStack_sorted_table.
  apply (sort_stable (Sort.desc sig_confidence)
           (fun s => num_value (sig_confidence s)) scored).
  - intros x y Hx Hy. apply (proj1 (scored_rank x y Hx Hy)).
  - exact Hgood'.
Qed.

(** C5. For every session and every detector of the table: when none of
    its fingerprints matches the combined corpus the result holds no signal
    of its name; otherwise it holds exactly one, whose confidence is
    min(maxWeight + min(0.1 * (evidenceCount - 1), 0.15), 1) in the
    arithmetic of the program, which is that of binary64 numbers, where
    maxWeight is the largest weight among the matching fingerprints, and
    whose evidence lists them. The result is sorted by non-increasing
    confidence, and signals of equal confidence stand in detector table
    order. A corpus that contains both [__NEXT_DATA__] and
    [/_next/static/chunk.js] yields one Next.js signal of confidence
    exactly 1 whose evidence starts with those two fingerprints, and has
    exactly two entries when the other two Next.js fingerprints do not
    match. *)
Theorem stack_signals_scored_and_sorted (session : CrawlSession) :
  let corpus := allContent session in
  (forall d, In d STACK_DETECTORS ->
     let m := matching corpus d in
     (m = [] -> List.filter (named (sd_name d)) (detectStack session) = [])
     /\ (m <> [] ->
         exists sig,
           List.filter (named (sd_name d)) (detectStack session) = [sig]
           /\ sig_confidence sig
              = Math_min
                  (fadd (maxWeight m)
                     (Math_min
                        (fmul (double 0.1)
                           (fsub (num_of_nat (length m)) (num_of_Z 1)))
                        (double 0.15)))
                  (num_of_Z 1)
           /\ In (maxWeight m) (List.map weight m)
           /\ Forall (fun p => fle (weight p) (maxWeight m) = true) m
           /\ sig_evidence sig = List.map description m))
  /\ StronglySorted (Sort.geq sig_confidence) (detectStack session)
  /\ (forall s0,
        In s0 (detectStack session) ->
        List.filter (has_confidence (sig_confidence s0)) (detectStack session)
        = List.filter (has_confidence (sig_confidence s0))
            (flat_map (signal_of session) STACK_DETECTORS))
  /\ (contains "__NEXT_DATA__" corpus ->
      contains "/_next/static/chunk.js" corpus ->
      exists sig,
        List.filter (named "Next.js") (detectStack session) = [sig]
        /\ sig_confidence sig = num_of_Z 1
        /\ firstn 2 (sig_evidence sig) = ["__NEXT_DATA__ script"; "/_next/ assets"]
        /\ (test0 (re_i (lit "next/head")) corpus = false ->
            test0 (re_i (lit "data-nscript")) corpus = false ->
            length (sig_evidence sig) = 2)).
Proof.
  intros corpus.
  assert (Hdet : forall d, In d STACK_DETECTORS ->
     let m := matching corpus d in
     (m = [] -> List.filter (named (sd_name d)) (detectStack session) = [])
     /\ (m <> [] ->
         exists sig,
           List.filter (named (sd_name d)) (detectStack session) = [sig]
           /\ sig_confidence sig = confidence_of m
           /\ In (maxWeight m) (List.map weight m)
           /\ Forall (fun p => fle (weight p) (maxWeight m) = true) m
           /\ sig_evidence sig = List.map description m)).
  { intros d Hin m. pose proof (named_signals session d Hin) as Hperm.
    destruct (signal_of_spec session d) as [Hnone Hsome]. split.
    - intros Hm. rewrite (Hnone Hm) in Hperm.
      apply Permutation_sym, Permutation_nil in Hperm. exact Hperm.
    - intros Hm. destruct (Hsome Hm) as (urls & Hs). rewrite Hs in Hperm.
      apply Permutation_sym, Permutation_length_1_inv in Hperm.
      destruct (maxWeight_is_max m (matching_is_outcome corpus d Hin Hm))
        as [Hmax Hall].
      eexists. split; [exact Hperm|]. split; [reflexivity|].
      split; [exact Hmax|]. split; [exact Hall|reflexivity]. }
  split; [exact Hdet|]. split; [apply detectStack_sorted|].
  split; [apply detectStack_stable|].
  intros Hdata Hchunk.
  assert (H1 : test0 (re_i (lit "__NEXT_DATA__")) corpus = true).
  { eapply test0_contains; [reflexivity|reflexivity|exact Hdata]. }
  assert (H2 : test0 (re_i (lit "/_next/")) corpus = true).
  { eapply test0_contains; [reflexivity|reflexivity|].
    destruct Hchunk as (pre & post & Hc).
    exists pre, (of_string "static/chunk.js" ++ post). rewrite Hc. reflexivity. }
  destruct (Hdet NEXT_JS (or_introl eq_refl)) as [_ Hsome].
  assert (Hm : matching corpus NEXT_JS
               = fp (lit "__NEXT_DATA__") 0.9 "__NEXT_DATA__ script"
                 :: fp (lit "/_next/") 0.8 "/_next/ assets"
                 :: List.filter (fun p => test0 (fp_regex p) corpus)
                      [fp (lit "next/head") 0.7 "next/head import";
                       fp (lit "data-nscript") 0.6 "Next.js script attribute"]).
  { unfold matching, NEXT_JS. cbn [patterns List.filter fp fp_regex].
    rewrite H1, H2. reflexivity. }
  destruct Hsome as (sig & Hf & Hc & _ & _ & He).
  { rewrite Hm. discriminate. }
  exists sig. split; [exact Hf|].
  rewrite Hc, He, Hm. cbn [List.filter fp fp_regex].
  destruct (test0 (re_i (lit "next/head")) corpus),
           (test0 (re_i (lit "data-nscript")) corpus);
    (split; [vm_compute; reflexivity|]);
    (split; [reflexivity|]); intros; try discriminate; reflexivity.
Qed.

(** An instance: the scenario markup. *)
Lemma stack_signals_scored_and_sorted_witness :
  exists sig,
    List.filter (named "Next.js") (detectStack next_session) = [sig]
    /\ sig_confidence sig = num_of_Z 1
    /\ length (sig_evidence sig) = 2.
Proof.
  destruct (stack_signals_scored_and_sorted next_session)
    as (_ & _ & _ & Hnext).
  destruct Hnext as (sig & Hf & Hc & _ & Hlen).
  - exists (of_string "<script id="),
      (of_string "></script><script src=/_next/static/chunk.js></script>").
    reflexivity.
  - exists (of_string "<script id=__NEXT_DATA__></script><script src="),
      (of_string "></script>").
    reflexivity.
  - exists sig. split; [exact Hf|]. split; [exact Hc|].
    apply Hlen; reflexivity.
Defined.

(** The scenario evaluated. *)
Example detectStack_next_session :
  List.map (fun s => (sig_name s, sig_confidence s, sig_evidence s))
           (detectStack next_session)
  = [("Next.js", num_of_Z 1, ["__NEXT_DATA__ script"; "/_next/ assets"])].
Proof. vm_compute. reflexivity. Qed.

(** Rounding shows in the order: 0.7 + 0.1 is the number just below 0.8,
    so a shadcn/ui signal of confidence 0.8 comes before a Next.js signal
    built from the weights 0.7 and 0.6. *)
Example detectStack_radix_session :
  List.map (fun s => (sig_name s, sig_confidence s)) (detectStack radix_session)
  = [("shadcn/ui", double 0.8);
     ("Next.js", SpecFloat.S754_finite false 7205759403792793 (-53))]
  /\ flt (fadd (double 0.7) (double 0.1)) (double 0.8) = true.
Proof. vm_compute. split; reflexivity. Qed.

End StackFacts.

(** ** Fetch with retry *)

Module RetryFacts.

Import JS Types Crawler Spec CrawlSpec.

Lemma after_nil w : after w [] = w.
Proof.
  destruct w as [c t]. unfold after, fetch_count. simpl.
  f_equal; [lia|apply app_nil_r].
Qed.

Lemma after_app w evs evs' : after (after w evs) evs' = after w (evs ++ evs').
Proof.
  unfold after, fetch_count. simpl. rewrite List.filter_app, length_app.
  f_equal; [lia|now rewrite app_assoc].
Qed.

Lemma do_fetch_after P url w :
  do_fetch P url w = Some (http P (calls w) url, after w [EvFetch url]).
Proof. unfold do_fetch, after, fetch_count. simpl. do 3 f_equal. lia. Qed.

Lemma sleep_after ms w : sleep ms w = Some (tt, after w [EvSleep ms]).
Proof. unfold sleep, after, fetch_count. simpl. do 3 f_equal. lia. Qed.

Section Retry.

Variables (P : Platform) (url : string) (maxRetries initialDelay : nat).

Local Abbreviation retry_run := (retry_run P url initialDelay).
Local Abbreviation paced := (paced url initialDelay).

Lemma fetch_count_cons_fetch u evs :
  fetch_count (EvFetch u :: evs) = S (fetch_count evs).
Proof. reflexivity. Qed.

Lemma fetch_count_cons_sleep d evs :
  fetch_count (EvSleep d :: evs) = fetch_count evs.
Proof. reflexivity. Qed.

(** A run that makes no call and sleeps no delay. *)
Lemma retry_run_nil attempt w e :
  retry_run 0 attempt w (inl e) [].
Proof.
  unfold Crawler.retry_run, fetch_count. simpl.
  repeat split; try lia; try discriminate.
  - intros k d Hk. destruct k; discriminate.
  - intros pre d post H. destruct pre; discriminate.
Qed.

(** A run of one call that is answered for good. *)
Lemma retry_run_answer n attempt w a :
  resolved (http P (calls w) url) = Some a ->
  retryable (http P (calls w) url) = false ->
  retry_run (S n) attempt w (inr a) [EvFetch url].
Proof.
  intros Ho Hn. unfold Crawler.retry_run.
  change (fetch_count [EvFetch url]) with 1.
  repeat split; try lia; try discriminate.
  - intros k d Hk. destruct k; discriminate.
  - intros pre d post H. destruct pre as [|e [|e' pre]]; discriminate.
  - intros a' [= <-]. exists 0. rewrite Nat.add_0_r. auto.
Qed.

(** One retried attempt in front of a run. *)
Lemma retry_run_cons n attempt w res evs pre :
  retryable (http P (calls w) url) = true ->
  (pre = [EvSleep (initialDelay * 2 ^ attempt)] \/ (pre = [] /\ evs = [])) ->
  retry_run n (S attempt) (after w (EvFetch url :: pre)) res evs ->
  (forall a, res = inr a -> evs <> []) ->
  retry_run (S n) attempt w res (EvFetch url :: pre ++ evs).
Proof.
  intros Hretry Hpre (Hcount & Hsleep & Hwhen & Hbefore & Hresp & Hfail) Hne.
  assert (Hc : calls (after w (EvFetch url :: pre)) = S (calls w)).
  { destruct Hpre as [->|[-> _]]; unfold after, fetch_count; simpl; lia. }
  rewrite Hc in *.
  assert (Hfc : fetch_count (EvFetch url :: pre ++ evs) = S (fetch_count evs)).
  { destruct Hpre as [->|[-> _]]; reflexivity. }
  unfold Crawler.retry_run. rewrite Hfc.
  split; [lia|]. split; [|split; [|split; [|split]]].
  - intros k d Hk. destruct Hpre as [->|[-> ->]].
    + simpl in Hk. destruct k as [|k].
      * inversion Hk. now rewrite Nat.add_0_r.
      * simpl in Hk. apply Hsleep in Hk. rewrite Hk. f_equal. f_equal. lia.
    + destruct k; discriminate.
  - intros front d post Hsplit.
    destruct front as [|e front]; [discriminate|].
    injection Hsplit as <- Hsplit.
    destruct Hpre as [->|[-> ->]].
    + destruct front as [|e front].
      * injection Hsplit as <- _. exists 0. rewrite Nat.add_0_r. auto.
      * injection Hsplit as <- Hsplit.
        destruct (Hwhen front d post Hsplit) as (a & Ha & Hd).
        exists (S a). rewrite fetch_count_cons_fetch, fetch_count_cons_sleep.
        split; [lia|]. rewrite Hd. f_equal. f_equal. lia.
    + destruct front; discriminate.
  - intros j Hj. destruct j as [|j].
    + now rewrite Nat.add_0_r.
    + replace (calls w + S j) with (S (calls w) + j) by lia.
      apply Hbefore. lia.
  - intros a Ha. destruct (Hresp a Ha) as (j & Hj & Ho & Hn).
    exists (S j). split; [lia|].
    replace (calls w + S j) with (S (calls w) + j) by lia. auto.
  - intros e He. destruct (Hfail e He) as [Hall Hretry']. split; [lia|].
    intros j Hj. destruct j as [|j].
    + now rewrite Nat.add_0_r.
    + replace (calls w + S j) with (S (calls w) + j) by lia.
      apply Hretry'. lia.
Qed.

(** *** Every retry waits first *)

Lemma paced_nil attempt : paced attempt [].
Proof.
  unfold Crawler.paced, fetch_count. simpl.
  split; [intros k Hk; lia|]. split; [constructor|lia].
Qed.

Lemma paced_one attempt : paced attempt [EvFetch url].
Proof.
  unfold Crawler.paced. change (fetch_count [EvFetch url]) with 1. simpl.
  split; [intros k Hk; lia|]. split; [repeat constructor|lia].
Qed.

(** A last call that is followed by its delay and nothing else. *)
Lemma paced_last attempt :
  paced attempt [EvFetch url; EvSleep (initialDelay * 2 ^ attempt)].
Proof.
  unfold Crawler.paced.
  change (fetch_count [EvFetch url; EvSleep (initialDelay * 2 ^ attempt)])
    with 1.
  simpl. split; [intros k Hk; lia|]. split; [repeat constructor|lia].
Qed.

(** A call and its delay in front of a run that starts with a call. *)
Lemma paced_cons attempt evs :
  paced (S attempt) (EvFetch url :: evs) ->
  paced attempt
    (EvFetch url :: EvSleep (initialDelay * 2 ^ attempt) :: EvFetch url :: evs).
Proof.
  intros (Hnext & Hall & Hlen). unfold Crawler.paced.
  rewrite fetch_count_cons_fetch, fetch_count_cons_sleep.
  split; [|split].
  - intros [|k] Hk.
    + exists [EvFetch url], evs. rewrite Nat.add_0_r. split; reflexivity.
    + destruct (Hnext k) as (pre & post & He & Hc); [lia|].
      exists (EvFetch url :: EvSleep (initialDelay * 2 ^ attempt) :: pre), post.
      split.
      * simpl. rewrite He.
        replace (attempt + S k) with (S attempt + k) by lia. reflexivity.
      * rewrite fetch_count_cons_fetch, fetch_count_cons_sleep. lia.
  - constructor; [reflexivity|]. constructor; [exact I|exact Hall].
  - change (sleeps (EvFetch url :: EvSleep (initialDelay * 2 ^ attempt)
                      :: EvFetch url :: evs))
      with (initialDelay * 2 ^ attempt :: sleeps (EvFetch url :: evs)).
    cbn [length]. lia.
Qed.

(** The loop returns, and its run is as [retry_run] and [paced] say; a
    run with attempts left starts with a call. *)
Lemma retry_loop_spec : forall n attempt lastError w,
  maxRetries = attempt + n ->
  exists res evs,
    retry_loop P url maxRetries initialDelay n attempt lastError w
    = Some (res, after w evs)
    /\ retry_run n attempt w res evs
    /\ (forall a, res = inr a -> evs <> [])
    /\ paced attempt evs
    /\ (0 < n -> exists post, evs = EvFetch url :: post).
Proof.
  induction n as [|n IH]; intros attempt lastError w Hmax.
  - eexists. exists []. rewrite after_nil. split; [reflexivity|].
    split; [apply retry_run_nil|]. split; [discriminate|].
    split; [apply paced_nil|]. intros H. lia.
  - cbn [retry_loop]. unfold bind at 1. rewrite do_fetch_after.
    assert (Hdone : forall response unread,
      resolved (http P (calls w) url) = Some (response, unread) ->
      retryable (http P (calls w) url)
      = (r_status response =? 429) || (500 <=? r_status response) ->
      exists res evs,
        (if (r_status response =? 429) || (500 <=? r_status response)
         then
           bind (sleep (initialDelay * 2 ^ attempt))
             (fun _ => retry_loop P url maxRetries initialDelay n (S attempt)
                         lastError)
         else ret (inr (response, unread))) (after w [EvFetch url])
        = Some (res, after w evs)
        /\ retry_run (S n) attempt w res evs
        /\ (forall a, res = inr a -> evs <> [])
        /\ paced attempt evs
        /\ (0 < S n -> exists post, evs = EvFetch url :: post)).
    { intros response unread Hres Hret.
      destruct ((r_status response =? 429) || (500 <=? r_status response))
        eqn:Es.
      - unfold bind at 1. rewrite sleep_after, after_app.
        destruct (IH (S attempt) lastError
                    (after w ([EvFetch url]
                              ++ [EvSleep (initialDelay * 2 ^ attempt)])))
          as (res & evs & Hrun & Hspec & Hne & Hpaced & Hhead); [lia|].
        exists res, (EvFetch url :: [EvSleep (initialDelay * 2 ^ attempt)] ++ evs).
        split; [rewrite Hrun, after_app; reflexivity|].
        split; [apply retry_run_cons; auto|]. split; [discriminate|].
        split; [|eexists; reflexivity].
        destruct n as [|n'].
        + destruct Hspec as (Hcount & _).
          assert (Hz : fetch_count evs = 0) by lia.
          destruct evs as [|e evs]; [apply paced_last|].
          destruct Hpaced as (_ & Hall & Hlen).
          inversion Hall as [|? ? He _]; subst.
          destruct e as [u|d|u]; [discriminate|simpl in Hlen, Hz; lia|tauto].
        + destruct Hhead as (post & ->); [lia|].
          apply paced_cons. exact Hpaced.
      - exists (inr (response, unread)), [EvFetch url].
        split; [reflexivity|].
        split; [apply retry_run_answer; assumption|].
        split; [discriminate|]. split; [apply paced_one|].
        eexists. reflexivity. }
    destruct (http P (calls w) url) as [response|message|response message] eqn:Eo.
    + apply Hdone; reflexivity.
    + destruct (attempt <? maxRetries - 1) eqn:El.
      * unfold bind at 1. rewrite sleep_after, after_app.
        destruct (IH (S attempt) (Some message)
                    (after w ([EvFetch url]
                              ++ [EvSleep (initialDelay * 2 ^ attempt)])))
          as (res & evs & Hrun & Hspec & Hne & Hpaced & Hhead); [lia|].
        exists res, (EvFetch url :: [EvSleep (initialDelay * 2 ^ attempt)] ++ evs).
        split; [rewrite Hrun, after_app; reflexivity|].
        split; [apply retry_run_cons; auto; rewrite Eo; reflexivity|].
        split; [discriminate|].
        split; [|eexists; reflexivity].
        apply Nat.ltb_lt in El.
        destruct Hhead as (post & ->); [lia|].
        apply paced_cons. exact Hpaced.
      * apply Nat.ltb_ge in El. assert (n = 0) by lia. subst n.
        unfold bind at 1. unfold ret at 1. cbn [retry_loop].
        exists (inl message), [EvFetch url]. split; [reflexivity|].
        split.
        { change [EvFetch url] with (EvFetch url :: [] ++ []).
          apply retry_run_cons.
          - rewrite Eo. reflexivity.
          - right. auto.
          - apply retry_run_nil.
          - discriminate. }
        split; [discriminate|]. split; [apply paced_one|].
        eexists. reflexivity.
    + apply Hdone; reflexivity.
Qed.

End Retry.

(** C4. [fetchWithRetry] always returns or raises after finitely many
    steps, having made at most [maxRetries] transport calls (at most 3 for
    [maxRetries = 3]), all for the given URL. A further call follows a call
    only when that call came back with status 429 or at least 500, or
    raised; a completed response of any other status is never retried and
    is returned as it is. Every call but the first comes right after a
    delay: the call of index [k + 1], that is retry [k] counting from 0,
    directly follows a pause of [initialDelay * 2^k] milliseconds,
    uncapped; no other delay is slept between two calls, and the delays
    slept are, in order, [initialDelay * 2^0], [initialDelay * 2^1], ....
    A failure is raised only after exactly [maxRetries] calls that all were
    retryable. *)
Theorem fetchWithRetry_retries_with_backoff
    (P : Platform) (url : string) (maxRetries initialDelay : nat) (w : World) :
  exists res evs,
    fetchWithRetry P url maxRetries initialDelay w = Some (res, after w evs)
    /\ fetch_count evs <= maxRetries
    /\ fetched evs = repeat url (fetch_count evs)
    /\ (forall k, S k < fetch_count evs ->
          exists pre post,
            evs = pre ++ EvSleep (initialDelay * 2 ^ k) :: EvFetch url :: post
            /\ fetch_count pre = S k)
    /\ fetch_count evs - 1 <= length (sleeps evs) <= fetch_count evs
    /\ (forall k d, nth_error (sleeps evs) k = Some d ->
                    d = initialDelay * 2 ^ k)
    /\ (forall pre d post, evs = pre ++ EvSleep d :: post ->
          exists a, fetch_count pre = S a /\ d = initialDelay * 2 ^ a)
    /\ (forall j, S j < fetch_count evs ->
                  retryable (http P (calls w + j) url) = true)
    /\ (forall j a, j < fetch_count evs ->
                    resolved (http P (calls w + j) url) = Some a ->
                    retryable (http P (calls w + j) url) = false ->
                    res = inr a /\ fetch_count evs = S j)
    /\ (forall a, res = inr a ->
          exists j, fetch_count evs = S j
                    /\ resolved (http P (calls w + j) url) = Some a
                    /\ retryable (http P (calls w + j) url) = false)
    /\ (forall e, res = inl e ->
          fetch_count evs = maxRetries
          /\ forall j, j < maxRetries ->
                       retryable (http P (calls w + j) url) = true).
Proof.
  destruct (retry_loop_spec P url maxRetries initialDelay maxRetries 0 None w
              eq_refl)
    as (res & evs & Hrun
        & (Hcount & Hsleep & Hwhen & Hbefore & Hresp & Hfail) & _
        & (Hpaced & Hall & Hlen) & _).
  exists res, evs. split; [exact Hrun|]. split; [exact Hcount|].
  split.
  { clear - Hall. induction Hall as [|e evs He _ IH]; [reflexivity|].
    destruct e as [u|d|u]; [|exact IH|destruct He].
    subst u. change (fetched (EvFetch url :: evs)) with (url :: fetched evs).
    rewrite fetch_count_cons_fetch, IH. reflexivity. }
  split; [exact Hpaced|]. split; [exact Hlen|].
  split; [exact Hsleep|]. split; [exact Hwhen|]. split; [exact Hbefore|].
  split; [|split; [exact Hresp|exact Hfail]].
  intros j a Hj Ho Hn.
  assert (Hlast : fetch_count evs = S j).
  { destruct (Nat.eq_dec (fetch_count evs) (S j)) as [|Hne]; [assumption|].
    assert (Hlt : S j < fetch_count evs) by lia.
    apply Hbefore in Hlt. congruence. }
  split; [|exact Hlast].
  destruct res as [e|a'].
  - destruct (Hfail e eq_refl) as [Hall' Hretry].
    assert (Hjm : j < maxRetries) by lia.
    apply Hretry in Hjm. congruence.
  - destruct (Hresp a' eq_refl) as (j' & Hj' & Ho' & _).
    assert (j' = j) by lia. subst j'. congruence.
Qed.

(** An instance: against a server that always answers 503, the third call
    comes right after a pause of 2000 ms. *)
Lemma fetchWithRetry_retries_with_backoff_witness :
  exists res evs,
    fetchWithRetry busy seed 3 1000 world0 = Some (res, after world0 evs)
    /\ exists pre post,
         evs = pre ++ EvSleep 2000 :: EvFetch seed :: post
         /\ fetch_count pre = 2.
Proof.
  destruct (fetchWithRetry_retries_with_backoff busy seed 3 1000 world0)
    as (res & evs & Hrun & _ & _ & Hpaced & _).
  exists res, evs. split; [exact Hrun|].
  apply (Hpaced 1).
  assert (He : trace (after world0 evs)
               = [EvFetch seed; EvSleep 1000; EvFetch seed; EvSleep 2000;
                  EvFetch seed; EvSleep 4000]).
  { change (trace (snd (res, after world0 evs))
            = trace (MkWorld 3 [EvFetch seed; EvSleep 1000; EvFetch seed;
                                EvSleep 2000; EvFetch seed; EvSleep 4000])).
    apply (f_equal (fun o => match o with
                             | Some p => trace (snd p)
                             | None => []
                             end)
             (eq_trans (eq_sym Hrun) (eq_refl : fetchWithRetry busy seed 3 1000 world0 = _))). }
  simpl in He. subst evs. vm_compute. lia.
Defined.

(** Three 503 answers: three calls, delays 1000, 2000, 4000, then the
    failure. *)
Example fetchWithRetry_busy :
  fetchWithRetry busy seed 3 1000 world0
  = Some (inl "Failed to fetch https://a.test/ after 3 attempts",
          MkWorld 3 [EvFetch seed; EvSleep 1000; EvFetch seed; EvSleep 2000;
                     EvFetch seed; EvSleep 4000]).
Proof. vm_compute. reflexivity. Qed.

(** Three raised errors: three calls, delays 1000 and 2000, then the last
    error. *)
Example fetchWithRetry_refused :
  fetchWithRetry toy "https://a.test/s.css" 3 1000 world0
  = Some (inl "connection refused",
          MkWorld 3 [EvFetch "https://a.test/s.css"; EvSleep 1000;
                     EvFetch "https://a.test/s.css"; EvSleep 2000;
                     EvFetch "https://a.test/s.css"]).
Proof. vm_compute. reflexivity. Qed.

(** A 404 is returned at once. *)
Example fetchWithRetry_not_found :
  fetchWithRetry toy "https://a.test/b" 3 1000 world0
  = Some (inr (MkResponse 404 "https://a.test/b" "" "", None),
          MkWorld 1 [EvFetch "https://a.test/b"]).
Proof. vm_compute. reflexivity. Qed.

End RetryFacts.

(** ** The crawler returns *)

Module CrawlFacts.

Import JS Types Crawler LoopFacts RetryFacts Spec.

Section Crawl.

Variable P : Platform.

Lemma fetchWithRetry_total url maxRetries initialDelay w :
  exists res evs,
    fetchWithRetry P url maxRetries initialDelay w = Some (res, after w evs).
Proof.
  destruct (retry_loop_spec P url maxRetries initialDelay maxRetries 0 None w
              eq_refl) as (res & evs & H & _).
  eauto.
Qed.

Ltac loop_ends :=
  rewrite while_exec_fold by (reflexivity || (vm_compute; lia)).

Lemma style_fold html baseUrl : forall ms cssLinks,
  exists cssLinks',
    fold_left (fun a m => style_step P html baseUrl m a) ms (Some cssLinks)
    = Some cssLinks'.
Proof.
  induction ms as [|m ms IH]; intros cssLinks; simpl; [eauto|].
  loop_ends. apply IH.
Qed.

Lemma extractLinks_total html baseUrl :
  exists links, extractLinks P html baseUrl = Some links.
Proof.
  unfold extractLinks. do 3 loop_ends.
  match goal with
  | |- context [fold_left (fun a m => style_step P html baseUrl m a) ?ms (Some ?c)] =>
      destruct (style_fold html baseUrl ms c) as (css & ->)
  end.
  do 2 loop_ends. eauto.
Qed.

(** A page fetch always comes back, with a result for the URL asked. *)
Lemma fetchPage_spec url w :
  exists result evs,
    fetchPage P url w = Some (result, after w evs) /\ cr_url result = url.
Proof.
  unfold fetchPage, bind.
  destruct (fetchWithRetry_total url 3 1000 w) as (res & evs & ->).
  destruct res as [message|[response unread]].
  - eexists. exists evs. split; reflexivity.
  - destruct (negb (ok response)).
    + eexists. exists evs. split; reflexivity.
    + destruct unread as [message|].
      * eexists. exists evs. split; reflexivity.
      * unfold lift.
        destruct (extractLinks_total (r_body response) (r_url response))
          as (links & ->).
        eexists. exists evs. split; reflexivity.
Qed.

Lemma fetchCSS_total url w :
  exists css evs, fetchCSS P url w = Some (css, after w evs).
Proof.
  unfold fetchCSS, bind.
  destruct (fetchWithRetry_total url 3 1000 w) as (res & evs & ->).
  destruct res as [message|[response unread]]; [eauto|].
  destruct (negb (ok response)); [eauto|].
  destruct unread; eauto.
Qed.

(** A turn of the stylesheet loop always returns; it counts one request,
    leaves the pages alone and touches no map entry but that of its URL. *)
Lemma asset_step_spec st cssUrl w :
  exists css evs st',
    fetchCSS P cssUrl w = Some (css, after w evs)
    /\ asset_step P st cssUrl w = Some (st', after w (evs ++ [EvSleep 300]))
    /\ st_pages st' = st_pages st
    /\ st_totalRequests st' = S (st_totalRequests st)
    /\ (truthy css = None ->
        st_cssContents st' = st_cssContents st
        /\ st_failedRequests st' = S (st_failedRequests st))
    /\ (forall text, truthy css = Some text ->
        st_cssContents st' = OMap.set cssUrl text (st_cssContents st)
        /\ st_failedRequests st' = st_failedRequests st).
Proof.
  destruct (fetchCSS_total cssUrl w) as (css & evs & Hf).
  exists css, evs. unfold asset_step, bind. rewrite Hf.
  rewrite sleep_after, after_app. unfold ret.
  destruct (truthy css) as [text|]; eexists; (split; [reflexivity|]);
    (split; [reflexivity|]); cbn;
    (split; [reflexivity|]); (split; [reflexivity|]); split;
    try discriminate.
  - intros t [= <-]. split; reflexivity.
  - intros _. split; reflexivity.
Qed.

Lemma asset_pass_spec : forall urls st w,
  exists evs st',
    asset_pass P urls st w = Some (st', after w evs)
    /\ st_pages st' = st_pages st
    /\ st_totalRequests st' = st_totalRequests st + length urls.
Proof.
  induction urls as [|cssUrl urls IH]; intros st w; simpl.
  - exists [], st. rewrite after_nil. repeat split. lia.
  - unfold bind.
    destruct (asset_step_spec st cssUrl w)
      as (css & evs & st1 & _ & -> & Hp & Ht & _).
    destruct (IH st1 (after w (evs ++ [EvSleep 300])))
      as (evs' & st' & -> & Hp' & Ht').
    exists ((evs ++ [EvSleep 300]) ++ evs'), st'.
    rewrite after_app. repeat split; [congruence|lia].
Qed.

Lemma crawl_cond_true config st :
  crawl_cond config st = true <->
  st_queue st <> [] /\ length (st_pages st) < maxPages config.
Proof.
  unfold crawl_cond. rewrite andb_true_iff, !Nat.ltb_lt.
  destruct (st_queue st); simpl; split; intros [H1 H2]; split;
    try lia; try congruence.
Qed.

(** A turn of the page loop always returns. It keeps the invariant, and
    either records one more page or leaves the pages alone and shortens
    the queue. *)
Lemma crawl_step_spec config st w :
  crawl_cond config st = true ->
  crawl_inv config st ->
  exists st' evs,
    crawl_step P config st w = Some (st', after w evs)
    /\ crawl_inv config st'
    /\ st_cssContents st' = st_cssContents st
    /\ (length (st_pages st') = S (length (st_pages st))
        \/ (st_pages st' = st_pages st
            /\ length (st_queue st') < length (st_queue st))).
Proof.
  intros Hcond (Hlen & Hnd & Hvis).
  apply crawl_cond_true in Hcond as [Hq Hlt].
  unfold crawl_step.
  destruct (st_queue st) as [|u queue] eqn:Eq; [congruence|].
  assert (Hskip : forall visited,
    st_visited st ⊆ visited ->
    exists st' evs,
      ret (MkCrawlState visited queue (st_pages st) (st_cssContents st)
             (st_allCssLinks st) (st_totalRequests st) (st_failedRequests st)) w
      = Some (st', after w evs)
      /\ crawl_inv config st'
      /\ st_cssContents st' = st_cssContents st
      /\ (length (st_pages st') = S (length (st_pages st))
          \/ (st_pages st' = st_pages st
              /\ length (st_queue st') < length (u :: queue)))).
  { intros visited Hsub. eexists. exists []. rewrite after_nil.
    split; [reflexivity|]. split.
    - repeat split; simpl; auto.
    - split; [reflexivity|]. right. simpl. split; [reflexivity|lia]. }
  destruct (truthy (normalizeUrl P u None)) as [n|]; [|apply Hskip; set_solver].
  destruct (decide (n ∈ st_visited st)) as [Hin|Hnotin];
    [apply Hskip; set_solver|].
  destruct (sameOriginOnly config && negb (isSameOrigin P n (themeUrl config)));
    [apply Hskip; set_solver|].
  unfold bind.
  destruct (fetchPage_spec n w) as (result & evs & -> & Hurl).
  rewrite sleep_after, after_app. unfold ret.
  eexists. exists (evs ++ [EvSleep 500]). split; [reflexivity|].
  cbn [st_pages st_visited st_cssContents st_queue].
  split; [|split; [reflexivity|]].
  - unfold crawl_inv. cbn [st_pages st_visited]. split; [|split].
    + rewrite length_app. simpl. lia.
    + rewrite map_app. simpl. rewrite Hurl.
      apply List.NoDup_app; [exact Hnd| |].
      * constructor; [intros []|constructor].
      * intros x Hx. apply in_map_iff in Hx as (p & <- & Hp).
        intros [Heq|[]]. apply Hnotin. rewrite Heq. apply Hvis. exact Hp.
    + intros p Hp. apply in_app_or in Hp as [Hp|[<-|[]]].
      * apply Hvis in Hp. set_solver.
      * simpl. rewrite Hurl. set_solver.
  - left. rewrite length_app. simpl. lia.
Qed.

Lemma crawl_loop_terminates config : forall budget qlen st w,
  maxPages config - length (st_pages st) <= budget ->
  length (st_queue st) <= qlen ->
  crawl_inv config st ->
  exists fuel st' evs, crawl_loop fuel P config st w = Some (st', after w evs).
Proof.
  assert (Hstop : forall st w, crawl_cond config st = false ->
    exists fuel st' evs,
      crawl_loop fuel P config st w = Some (st', after w evs)).
  { intros st w Hc. exists 1, st, []. simpl. rewrite Hc, after_nil.
    reflexivity. }
  induction budget as [|budget IHb].
  - intros qlen st w Hb _ _. apply Hstop.
    destruct (crawl_cond config st) eqn:Hc; [|reflexivity].
    apply crawl_cond_true in Hc. lia.
  - induction qlen as [|qlen IHq]; intros st w Hb Hq Hinv.
    + apply Hstop. destruct (crawl_cond config st) eqn:Hc; [|reflexivity].
      apply crawl_cond_true in Hc as [Hne _].
      destruct (st_queue st); [congruence|simpl in Hq; lia].
    + destruct (crawl_cond config st) eqn:Hc; [|apply Hstop; exact Hc].
      destruct (crawl_step_spec config st w Hc Hinv)
        as (st1 & evs & Hstep & Hinv1 & _ & Hmeasure).
      assert (Hnext : exists fuel st' evs',
                crawl_loop fuel P config st1 (after w evs)
                = Some (st', after (after w evs) evs')).
      { destruct Hmeasure as [Hpage|[Hsame Hshort]].
        - apply (IHb (length (st_queue st1))); [lia|lia|exact Hinv1].
        - apply IHq; [rewrite Hsame; lia|lia|exact Hinv1]. }
      destruct Hnext as (fuel & st' & evs' & Hloop).
      exists (S fuel), st', (evs ++ evs'). cbn [crawl_loop]. rewrite Hc.
      unfold bind. rewrite Hstep, Hloop, after_app. reflexivity.
Qed.

(** When the page loop returns it has kept the invariant and left the
    stylesheet map alone; it is the first state, in the run of the loop
    body, at which the loop test fails. *)
Lemma crawl_loop_run config : forall fuel st w st' w',
  crawl_loop fuel P config st w = Some (st', w') ->
  crawl_inv config st ->
  crawl_inv config st'
  /\ crawl_cond config st' = false
  /\ st_cssContents st' = st_cssContents st
  /\ exists n,
       steps n P config st w = Some (st', w')
       /\ forall j, j < n ->
            exists stj wj,
              steps j P config st w = Some (stj, wj)
              /\ crawl_cond config stj = true.
Proof.
  induction fuel as [|fuel IH]; intros st w st' w' Hloop Hinv; [discriminate|].
  cbn [crawl_loop] in Hloop. destruct (crawl_cond config st) eqn:Hc.
  - unfold bind in Hloop.
    destruct (crawl_step_spec config st w Hc Hinv)
      as (st1 & evs & Hstep & Hinv1 & Hcss1 & _).
    rewrite Hstep in Hloop.
    destruct (IH _ _ _ _ Hloop Hinv1) as (Hinv' & Hc' & Hcss' & n & Hn & Hbefore).
    split; [exact Hinv'|]. split; [exact Hc'|]. split; [congruence|].
    exists (S n). split.
    + cbn [steps]. unfold bind. rewrite Hstep. exact Hn.
    + intros j Hj. destruct j as [|j].
      * exists st, w. split; [reflexivity|exact Hc].
      * destruct (Hbefore j) as (stj & wj & Hsj & Hcj); [lia|].
        exists stj, wj. split; [|exact Hcj].
        cbn [steps]. unfold bind. rewrite Hstep. exact Hsj.
  - injection Hloop as <- <-. split; [exact Hinv|]. split; [exact Hc|].
    split; [reflexivity|]. exists 0. split; [reflexivity|]. intros j Hj. lia.
Qed.

Lemma initial_inv config : crawl_inv config (initial config).
Proof.
  unfold crawl_inv, initial. simpl. split; [lia|]. split; [constructor|].
  intros p [].
Qed.

End Crawl.

(** C1. For every configuration the crawler returns a session. The session
    holds at most [maxPages] pages, and no two of them were fetched for the
    same normalized URL. Its pages are those of the state in which the page
    loop stopped, which is the first state of the run where the frontier is
    empty or the page count has reached [maxPages]: in every earlier state
    the frontier was non-empty and the page count below [maxPages]. The
    page loop runs in the world left by the robots check. *)
Theorem crawl_is_bounded_and_deduplicated
    (P : Platform) (config : ExtractorConfig) (w0 : World) :
  (exists fuel sess w, crawl fuel P config w0 = Some (sess, w))
  /\ (forall fuel sess w,
        crawl fuel P config w0 = Some (sess, w) ->
        length (pages sess) <= maxPages config
        /\ List.NoDup (List.map url (pages sess))
        /\ exists n st w1,
             steps n P config (initial config) (loop_start P config w0)
             = Some (st, w1)
             /\ pages sess = st_pages st
             /\ (st_queue st = [] \/ length (st_pages st) = maxPages config)
             /\ forall j, j < n ->
                  exists stj wj,
                    steps j P config (initial config) (loop_start P config w0)
                    = Some (stj, wj)
                    /\ st_queue stj <> []
                    /\ length (st_pages stj) < maxPages config).
Proof.
  split.
  - destruct (crawl_loop_terminates P config
                (maxPages config) 1 (initial config) (loop_start P config w0))
      as (fuel & st & evs & Hloop);
      [simpl; lia|simpl; lia|apply initial_inv|].
    exists fuel. unfold crawl, bind, request_robots.
    fold (loop_start P config w0). rewrite Hloop.
    destruct (includeAssets config).
    + destruct (asset_pass_spec P (st_allCssLinks st) st
                  (after (loop_start P config w0) evs))
        as (evs' & st' & -> & _).
      eauto.
    + unfold ret. eauto.
  - intros fuel sess w Hcrawl. unfold crawl, bind, request_robots in Hcrawl.
    fold (loop_start P config w0) in Hcrawl.
    destruct (crawl_loop fuel P config (initial config) (loop_start P config w0))
      as [[st w1]|] eqn:Hloop; [|discriminate].
    destruct (crawl_loop_run P config _ _ _ _ _ Hloop (initial_inv config))
      as ((Hlen & Hnd & _) & Hc & _ & n & Hn & Hbefore).
    assert (Hpages : pages sess = st_pages st).
    { destruct (includeAssets config).
      - destruct (asset_pass_spec P (st_allCssLinks st) st w1)
          as (evs' & st' & Ha & Hp & _).
        rewrite Ha in Hcrawl. injection Hcrawl as <- _. exact Hp.
      - injection Hcrawl as <- _. reflexivity. }
    rewrite Hpages. split; [exact Hlen|]. split; [exact Hnd|].
    exists n, st, w1. split; [exact Hn|]. split; [reflexivity|]. split.
    + destruct (st_queue st) eqn:Eq; [left; reflexivity|right].
      unfold crawl_cond in Hc. rewrite Eq in Hc. simpl in Hc.
      apply Nat.ltb_ge in Hc. lia.
    + intros j Hj. destruct (Hbefore j Hj) as (stj & wj & Hsj & Hcj).
      exists stj, wj. split; [exact Hsj|]. apply crawl_cond_true. exact Hcj.
Qed.

(** With room for six pages the toy crawl stops on an empty frontier after
    two pages; with room for one it stops at one page, the frontier still
    holding the second URL. *)
Example crawl_loop_stops_on_empty_frontier :
  option_map (fun r => (List.map url (st_pages (fst r)), st_queue (fst r)))
             (crawl_loop 5 toy toy_config (initial toy_config) world0)
  = Some ([seed; "https://a.test/b"], []).
Proof. vm_compute. reflexivity. Qed.

Example crawl_loop_stops_on_page_count :
  option_map (fun r => (List.map url (st_pages (fst r)), st_queue (fst r)))
             (crawl_loop 5 toy (MkExtractorConfig seed 1 true true)
                (initial toy_config) world0)
  = Some ([seed], ["https://a.test/b"]).
Proof. vm_compute. reflexivity. Qed.

(** An instance: the crawl of the toy site. *)
Lemma crawl_is_bounded_and_deduplicated_witness :
  exists sess w,
    crawl 5 toy toy_config world0 = Some (sess, w)
    /\ length (pages sess) <= 6
    /\ List.NoDup (List.map url (pages sess)).
Proof.
  destruct (crawl 5 toy toy_config world0) as [[sess w]|] eqn:E;
    [|vm_compute in E; discriminate].
  exists sess, w. split; [reflexivity|].
  destruct (proj2 (crawl_is_bounded_and_deduplicated toy toy_config world0)
              5 sess w E) as (Hlen & Hnd & _).
  split; [exact Hlen|exact Hnd].
Defined.

Lemma has_set_other {V} k k' (v : V) (m : OMap.t V) :
  k <> k' -> OMap.has k (OMap.set k' v m) = OMap.has k m.
Proof.
  intros Hne. induction m as [|[k0 v0] m IH]; simpl.
  - destruct (String.eqb k k') eqn:E; [|reflexivity].
    apply String.eqb_eq in E. contradiction.
  - destruct (String.eqb k' k0); simpl; [reflexivity|]. now rewrite IH.
Qed.

Lemma asset_pass_app P : forall l1 l2 st w,
  asset_pass P (l1 ++ l2) st w
  = match asset_pass P l1 st w with
    | Some (st1, w1) => asset_pass P l2 st1 w1
    | None => None
    end.
Proof.
  induction l1 as [|u l1 IH]; intros l2 st w; [reflexivity|].
  simpl. unfold bind.
  destruct (asset_step P st u w) as [[st1 w1]|]; [apply IH|reflexivity].
Qed.

(** The turns for other URLs leave the entry of [k] as it is. *)
Lemma asset_pass_other P k : forall urls st w st' w',
  asset_pass P urls st w = Some (st', w') ->
  ~ In k urls ->
  OMap.has k (st_cssContents st') = OMap.has k (st_cssContents st).
Proof.
  induction urls as [|u urls IH]; intros st w st' w' Hpass Hnot.
  - injection Hpass as <- _. reflexivity.
  - simpl in Hpass. unfold bind in Hpass.
    destruct (asset_step_spec P st u w)
      as (css & evs & st1 & _ & Hstep & _ & _ & Hnone & Hsome).
    rewrite Hstep in Hpass.
    rewrite (IH _ _ _ _ Hpass) by (intros H; apply Hnot; right; exact H).
    destruct (truthy css) as [text|].
    + destruct (Hsome text eq_refl) as [-> _]. apply has_set_other.
      intros ->. apply Hnot. left. reflexivity.
    + destruct (Hnone eq_refl) as [-> _]. reflexivity.
Qed.

(** C2 (as amended). When the asset pass reaches a stylesheet URL whose
    fetch fails, that turn adds no entry to the stylesheet map and no page
    record, and counts the failure in both counters: [totalRequests] and
    [failedRequests] each go up by one. The pass as a whole leaves the
    pages alone and ends with the map entry of that URL as it was before
    the pass (none, in a crawl, where the pass starts from the empty map). *)
Theorem failed_stylesheet_is_dropped_and_counted
    (P : Platform) (pre post : list string) (cssUrl : string)
    (st st1 : CrawlState) (w w1 w2 : World)
    (Hnodup : List.NoDup (pre ++ cssUrl :: post))
    (Hreach : asset_pass P pre st w = Some (st1, w1))
    (Hfail : fetchCSS P cssUrl w1 = Some (None, w2)) :
  exists st2 w3 st' w',
    asset_step P st1 cssUrl w1 = Some (st2, w3)
    /\ st_cssContents st2 = st_cssContents st1
    /\ st_pages st2 = st_pages st1
    /\ st_totalRequests st2 = S (st_totalRequests st1)
    /\ st_failedRequests st2 = S (st_failedRequests st1)
    /\ asset_pass P (pre ++ cssUrl :: post) st w = Some (st', w')
    /\ st_pages st' = st_pages st
    /\ OMap.has cssUrl (st_cssContents st')
       = OMap.has cssUrl (st_cssContents st).
Proof.
  destruct (asset_step_spec P st1 cssUrl w1)
    as (css & evs & st2 & Hf & Hs & Hp & Ht & Hnone & _).
  rewrite Hfail in Hf. injection Hf as <- _.
  destruct (Hnone eq_refl) as [Hc Hfl].
  destruct (asset_pass_spec P post st2 (after w1 (evs ++ [EvSleep 300])))
    as (evs' & st' & Hpost & Hp' & _).
  exists st2. eexists. exists st'. eexists.
  split; [exact Hs|]. split; [exact Hc|]. split; [exact Hp|].
  split; [exact Ht|]. split; [exact Hfl|].
  split.
  { rewrite asset_pass_app, Hreach. simpl. unfold bind. rewrite Hs.
    exact Hpost. }
  split.
  { destruct (asset_pass_spec P pre st w) as (evs0 & st0 & H0 & Hp0 & _).
    rewrite Hreach in H0. injection H0 as <- _. congruence. }
  apply NoDup_remove_2 in Hnodup.
  rewrite (asset_pass_other P cssUrl post _ _ _ _ Hpost)
    by (intros H; apply Hnodup; apply in_or_app; right; exact H).
  rewrite Hc.
  apply (asset_pass_other P cssUrl pre _ _ _ _ Hreach).
  intros H. apply Hnodup. apply in_or_app. left. exact H.
Qed.

(** An instance: the stylesheet of the toy site, whose fetch is refused. *)
Lemma failed_stylesheet_is_dropped_and_counted_witness :
  exists st2 w3 st' w',
    asset_step toy asset_state "https://a.test/s.css" world0 = Some (st2, w3)
    /\ st_cssContents st2 = []
    /\ st_pages st2 = []
    /\ st_totalRequests st2 = 2
    /\ st_failedRequests st2 = 1
    /\ asset_pass toy ([] ++ ["https://a.test/s.css"]) asset_state world0
       = Some (st', w')
    /\ st_pages st' = []
    /\ OMap.has "https://a.test/s.css" (st_cssContents st') = false.
Proof.
  eapply (failed_stylesheet_is_dropped_and_counted toy [] []
            "https://a.test/s.css" asset_state asset_state world0 world0).
  - repeat constructor. intros [].
  - reflexivity.
  - vm_compute. reflexivity.
Defined.

(** C2 as first stated does not hold: a failed stylesheet fetch does
    change [failedRequests]. *)
Lemma failed_stylesheet_changes_failedRequests :
  ~ (forall (P : Platform) (st : CrawlState) (cssUrl : string) (w w1 : World)
            (st' : CrawlState) (w' : World),
       fetchCSS P cssUrl w = Some (None, w1) ->
       asset_step P st cssUrl w = Some (st', w') ->
       st_failedRequests st' = st_failedRequests st).
Proof.
  intros H.
  specialize (H toy asset_state "https://a.test/s.css" world0).
  specialize (H _ _ _ eq_refl eq_refl).
  vm_compute in H. discriminate.
Qed.

(** In a whole crawl: no page failed, one stylesheet did, and the session
    reports one failed request out of two. *)
Example crawl_counts_failed_stylesheet :
  option_map (fun r => (List.map error (pages (fst r)), cssContents (fst r),
                        totalRequests (fst r), failedRequests (fst r)))
             (crawl 5 toy (MkExtractorConfig seed 1 true true) world0)
  = Some ([None], [], 2, 1).
Proof. vm_compute. reflexivity. Qed.

End CrawlFacts.

(** ** Robots advisory *)

Module RobotsFacts.

Import JS Types Crawler Spec.

Lemma root_path_blocked path :
  (String.eqb path "/" || String.eqb path "/*") = true ->
  is_blocked (MkRobotsCheck false
                (Some ("robots.txt disallows crawling: " +:+ path))).
Proof.
  intros H. apply orb_true_iff in H. split; [reflexivity|]. simpl.
  destruct H as [H|H]; apply String.eqb_eq in H; subst; auto.
Qed.

(** Once inside a block for every crawler, a root disallow that comes
    before the next user-agent line blocks. *)
Lemma scan_robots_in_block dis post : 
  is_root_disallow dis = true ->
  forall mid,
    Forall (fun l => is_agent_line l = false) mid ->
    is_blocked (scan_robots (mid ++ dis :: post) true).
Proof.
  intros Hdis.
  unfold is_root_disallow in Hdis.
  apply andb_true_iff in Hdis as [Hdis Hroot].
  apply andb_true_iff in Hdis as [Hnot Hstart].
  apply negb_true_iff in Hnot.
  induction mid as [|l mid IH]; intros Hmid.
  - cbn [app scan_robots andb]. unfold is_agent_line, norm_line in Hnot. rewrite Hnot.
    unfold norm_line in Hstart. rewrite Hstart.
    unfold disallow_path, norm_line in Hroot. rewrite Hroot.
    apply root_path_blocked. exact Hroot.
  - inversion Hmid as [|? ? Hl Hmid']; subst.
    cbn [app scan_robots andb]. unfold is_agent_line, norm_line in Hl. rewrite Hl.
    destruct (startsWith "disallow:" (toLowerCase (trim l))); cbv iota.
    + match goal with
      | |- context [if ?c then _ else _] => destruct c eqn:Ec
      end.
      * apply root_path_blocked. exact Ec.
      * apply IH. exact Hmid'.
    + apply IH. exact Hmid'.
Qed.

Lemma scan_robots_blocked ua mid dis post :
  names_crawler ua = true ->
  Forall (fun l => is_agent_line l = false) mid ->
  is_root_disallow dis = true ->
  forall pre inBlock,
    is_blocked (scan_robots (pre ++ ua :: mid ++ dis :: post) inBlock).
Proof.
  intros Hua Hmid Hdis.
  unfold names_crawler in Hua. apply andb_true_iff in Hua as [Hagent Hstar].
  induction pre as [|l pre IH]; intros inBlock.
  - cbn [app scan_robots andb]. unfold is_agent_line, norm_line in Hagent.
    rewrite Hagent.
    unfold agent_of, norm_line in Hstar. rewrite Hstar.
    apply scan_robots_in_block; assumption.
  - cbn [app scan_robots andb].
    destruct (startsWith "user-agent:" (toLowerCase (trim l)));
      [apply IH|].
    destruct (inBlock && startsWith "disallow:" (toLowerCase (trim l)));
      [|apply IH].
    match goal with
    | |- context [if ?c then _ else _] => destruct c eqn:Ec
    end.
    + apply root_path_blocked. exact Ec.
    + apply IH.
Qed.

(** *** The robots answer reaches nothing but the verdict *)

Section Independence.

Variables (P : Platform) (answer : string -> HttpOutcome).

Local Abbreviation P' := (with_robots answer P).

Lemma retry_loop_robots url maxRetries initialDelay :
  forall n attempt lastError w,
    retry_loop P' url maxRetries initialDelay n attempt lastError w
    = retry_loop P url maxRetries initialDelay n attempt lastError w.
Proof.
  induction n as [|n IH]; intros attempt lastError w; [reflexivity|].
  cbn [retry_loop]. unfold bind, do_fetch. cbn [http with_robots].
  destruct (http P (calls w) url) as [response|message|response message].
  - destruct ((r_status response =? 429) || (500 <=? r_status response));
      [|reflexivity].
    unfold sleep. apply IH.
  - destruct (attempt <? maxRetries - 1); unfold sleep, ret; apply IH.
  - destruct ((r_status response =? 429) || (500 <=? r_status response));
      [|reflexivity].
    unfold sleep. apply IH.
Qed.

Lemma fetchPage_robots url w : fetchPage P' url w = fetchPage P url w.
Proof.
  unfold fetchPage, bind, fetchWithRetry. rewrite retry_loop_robots.
  reflexivity.
Qed.

Lemma fetchCSS_robots url w : fetchCSS P' url w = fetchCSS P url w.
Proof.
  unfold fetchCSS, bind, fetchWithRetry. rewrite retry_loop_robots.
  reflexivity.
Qed.

Lemma crawl_step_robots config st w :
  crawl_step P' config st w = crawl_step P config st w.
Proof.
  unfold crawl_step.
  destruct (st_queue st) as [|u queue]; [reflexivity|].
  change (normalizeUrl P' u None) with (normalizeUrl P u None).
  destruct (truthy (normalizeUrl P u None)) as [n|]; [|reflexivity].
  destruct (decide (n ∈ st_visited st)); [reflexivity|].
  change (isSameOrigin P' n (themeUrl config))
    with (isSameOrigin P n (themeUrl config)).
  destruct (sameOriginOnly config && negb (isSameOrigin P n (themeUrl config)));
    [reflexivity|].
  unfold bind. rewrite fetchPage_robots. reflexivity.
Qed.

Lemma crawl_loop_robots config : forall fuel st w,
  crawl_loop fuel P' config st w = crawl_loop fuel P config st w.
Proof.
  induction fuel as [|fuel IH]; intros st w; [reflexivity|].
  cbn [crawl_loop]. destruct (crawl_cond config st); [|reflexivity].
  unfold bind. rewrite crawl_step_robots.
  destruct (crawl_step P config st w) as [[st' w']|]; [apply IH|reflexivity].
Qed.

Lemma asset_pass_robots : forall urls st w,
  asset_pass P' urls st w = asset_pass P urls st w.
Proof.
  induction urls as [|u urls IH]; intros st w; [reflexivity|].
  cbn [asset_pass]. unfold bind, asset_step. unfold bind.
  rewrite fetchCSS_robots.
  destruct (fetchCSS P u w) as [[css w1]|]; [|reflexivity].
  cbn. apply IH.
Qed.

(** Under another robots answer the crawl ends the same way, with a
    session that differs at most in the robots status and warning. *)
Lemma crawl_robots fuel config w sess w' :
  crawl fuel P config w = Some (sess, w') ->
  exists sess',
    crawl fuel P' config w = Some (sess', w') /\ same_crawl sess sess'.
Proof.
  unfold crawl, bind, request_robots.
  change (robots_events P' (themeUrl config))
    with (robots_events P (themeUrl config)).
  rewrite crawl_loop_robots.
  destruct (crawl_loop fuel P config (initial config) _) as [[st w1]|];
    [|discriminate].
  destruct (includeAssets config).
  - rewrite asset_pass_robots.
    destruct (asset_pass P (st_allCssLinks st) st w1) as [[st2 w2]|];
      [|discriminate].
    intros [= <- <-]. eexists. split; [reflexivity|].
    repeat split.
  - unfold ret. intros [= <- <-]. eexists. split; [reflexivity|].
    repeat split.
Qed.

End Independence.




End RobotsFacts.

(** ** Insertion-ordered sets and maps *)

Module ContainerFacts.

Import JS Types TokenSpec.

Lemma oset_has_In k s : OSet.has k s = true <-> In k s.
Proof.
  unfold OSet.has. rewrite existsb_exists. split.
  - intros (x & Hx & E). apply String.eqb_eq in E. now subst.
  - intros H. exists k. split; [exact H|apply String.eqb_refl].
Qed.

Lemma oset_add_In k s x : In x (OSet.add k s) <-> x = k \/ In x s.
Proof.
  unfold OSet.add. destruct (OSet.has k s) eqn:E.
  - apply oset_has_In in E. split; [auto|]. intros [->|H]; auto.
  - rewrite in_app_iff. simpl. intuition.
Qed.

Lemma oset_add_NoDup k s : List.NoDup s -> List.NoDup (OSet.add k s).
Proof.
  intros Hnd. unfold OSet.add. destruct (OSet.has k s) eqn:E; [exact Hnd|].
  apply List.NoDup_app; [exact Hnd| |].
  - constructor; [intros []|constructor].
  - intros x Hx [<-|[]]. apply oset_has_In in Hx. congruence.
Qed.

Lemma oset_fold_NoDup (l : list string) : forall s,
  List.NoDup s -> List.NoDup (fold_left (fun acc x => OSet.add x acc) l s).
Proof.
  induction l as [|x l IH]; intros s Hs; simpl; [exact Hs|].
  apply IH. apply oset_add_NoDup. exact Hs.
Qed.

Lemma oset_fold_In (l : list string) : forall s x,
  In x (fold_left (fun acc x => OSet.add x acc) l s) <-> In x s \/ In x l.
Proof.
  induction l as [|y l IH]; intros s x; simpl; [tauto|].
  rewrite IH, oset_add_In. intuition.
Qed.

Lemma omap_has_keys {V} k (m : OMap.t V) :
  OMap.has k m = true <-> In k (OMap.keys m).
Proof.
  induction m as [|[k' v] m IH]; simpl; [split; [discriminate|tauto]|].
  rewrite orb_true_iff, IH, String.eqb_eq. split; intros [H|H]; auto.
Qed.

Lemma omap_set_new {V} k (v : V) m :
  OMap.has k m = false -> OMap.set k v m = m ++ [(k, v)].
Proof.
  intros Hn. apply StackFacts.set_fresh. intros Hin.
  apply omap_has_keys in Hin. congruence.
Qed.

Lemma keyed_by_nil {V} (keyOf : V -> string) : keyed_by keyOf [].
Proof. split; constructor. Qed.

Lemma keyed_by_set {V} (keyOf : V -> string) m k v :
  keyed_by keyOf m -> keyOf v = k -> OMap.has k m = false ->
  keyed_by keyOf (OMap.set k v m)
  /\ OMap.values (OMap.set k v m) = OMap.values m ++ [v].
Proof.
  intros [Hnd Hk] Hv Hn. rewrite (omap_set_new _ _ _ Hn). split; [split|].
  - unfold OMap.keys. rewrite map_app. simpl.
    apply List.NoDup_app; [exact Hnd| |].
    + constructor; [intros []|constructor].
    + intros x Hx [<-|[]]. apply omap_has_keys in Hx. congruence.
  - apply Forall_app. split; [exact Hk|]. constructor; [exact Hv|constructor].
  - unfold OMap.values. now rewrite map_app.
Qed.

Lemma keyed_by_values {V} (keyOf : V -> string) m :
  keyed_by keyOf m -> List.NoDup (List.map keyOf (OMap.values m)).
Proof.
  intros [Hnd Hk].
  assert (E : List.map keyOf (OMap.values m) = OMap.keys m).
  { unfold OMap.values, OMap.keys. rewrite map_map.
    clear Hnd. induction Hk as [|e m He _ IH]; simpl; [reflexivity|].
    now rewrite He, IH. }
  rewrite E. exact Hnd.
Qed.

(** A loop whose every turn either leaves the map alone or enters a value
    under a key that is not in it yet. *)
Lemma guarded_fold {V M S} (keyOf : V -> string) (Q : V -> Prop)
    (proj : S -> OMap.t V) (step : M -> S -> S) :
  (forall m s,
     proj (step m s) = proj s
     \/ exists k v, OMap.has k (proj s) = false /\ keyOf v = k /\ Q v
                    /\ proj (step m s) = OMap.set k v (proj s)) ->
  forall ms s,
    keyed_by keyOf (proj s) -> Forall Q (OMap.values (proj s)) ->
    keyed_by keyOf (proj (fold_left (fun a m => step m a) ms s))
    /\ Forall Q (OMap.values (proj (fold_left (fun a m => step m a) ms s))).
Proof.
  intros Hstep. induction ms as [|m ms IH]; intros s Hk HQ; simpl; [auto|].
  apply IH.
  - destruct (Hstep m s) as [->|(k & v & Hn & Hv & _ & ->)]; [exact Hk|].
    apply keyed_by_set; assumption.
  - destruct (Hstep m s) as [->|(k & v & Hn & Hv & Hq & ->)]; [exact HQ|].
    destruct (keyed_by_set keyOf _ k v Hk Hv Hn) as [_ ->].
    apply Forall_app. split; [exact HQ|]. constructor; [exact Hq|constructor].
Qed.

(** A loop that pushes one record per key not seen before. *)
Lemma seen_fold {M T} (key : M -> string) (mk : M -> T) (keyOut : T -> string)
    (step : M -> list T * OSet.t -> list T * OSet.t) :
  (forall m, keyOut (mk m) = key m) ->
  (forall m out seen,
     step m (out, seen)
     = if negb (OSet.has (key m) seen)
       then (out ++ [mk m], OSet.add (key m) seen) else (out, seen)) ->
  forall ms out seen,
    List.map keyOut out = seen -> List.NoDup seen ->
    exists extra seen',
      fold_left (fun st m => step m st) ms (out, seen) = (out ++ extra, seen')
      /\ List.map keyOut (out ++ extra) = seen'
      /\ List.NoDup seen'
      /\ (forall k, In k seen' <-> In k seen \/ In k (List.map key ms))
      /\ Forall (fun t => exists m, In m ms /\ t = mk m) extra.
Proof.
  intros Hkey Hstep. induction ms as [|m ms IH]; intros out seen Hout Hnd; simpl.
  - exists [], seen. rewrite app_nil_r. repeat split; auto. tauto.
  - rewrite Hstep. destruct (OSet.has (key m) seen) eqn:E; cbn [negb].
    + destruct (IH out seen Hout Hnd) as (extra & seen' & He & H1 & H2 & H3 & H4).
      exists extra, seen'. split; [exact He|]. repeat split; auto.
      * intros H. apply H3 in H. tauto.
      * intros [H|[<-|H]]; apply H3; auto.
        left. apply oset_has_In. exact E.
      * eapply List.Forall_impl; [|exact H4].
        intros t (m' & Hm' & ->). exists m'. split; [right; exact Hm'|reflexivity].
    + destruct (IH (out ++ [mk m]) (OSet.add (key m) seen))
        as (extra & seen' & He & H1 & H2 & H3 & H4).
      * unfold OSet.add. rewrite E, map_app, Hout. simpl. now rewrite Hkey.
      * apply oset_add_NoDup. exact Hnd.
      * exists (mk m :: extra), seen'.
        replace (out ++ mk m :: extra) with ((out ++ [mk m]) ++ extra)
          by (now rewrite <- app_assoc).
        split; [exact He|]. repeat split; auto.
        -- intros H. apply H3 in H. rewrite oset_add_In in H. intuition.
        -- intros H. apply H3. rewrite oset_add_In. intuition.
        -- constructor.
           ++ exists m. split; [left; reflexivity|reflexivity].
           ++ eapply List.Forall_impl; [|exact H4].
              intros t (m' & Hm' & ->). exists m'.
              split; [right; exact Hm'|reflexivity].
Qed.

End ContainerFacts.

(** ** The deduplicator *)

Module DedupFacts.

Import JS Types Tokens.

Section Dedup.

Context {T : Type} (keyFn : T -> string).

Lemma dedup_from_keys items : forall seen k,
  In k (List.map keyFn (dedup_from keyFn seen items)) <->
  In k (List.map keyFn items) /\ k ∉ seen.
Proof.
  induction items as [|x l IH]; intros seen k; simpl; [tauto|].
  destruct (decide (keyFn x ∈ seen)) as [Hin|Hnot].
  - rewrite IH. split; [tauto|].
    intros [[<-|H1] H2]; [contradiction|auto].
  - simpl. rewrite IH, elem_of_union, elem_of_singleton. split.
    + intros [<-|[H1 H2]]; [auto|]. split; [auto|tauto].
    + intros [[<-|H1] H2]; [auto|].
      destruct (String.eqb_spec (keyFn x) k) as [|Hne]; [auto|].
      right. split; [auto|]. intros [H|H]; [contradiction|].
      apply Hne. now symmetry.
Qed.

Lemma dedup_from_NoDup items : forall seen,
  List.NoDup (List.map keyFn (dedup_from keyFn seen items)).
Proof.
  induction items as [|x l IH]; intros seen; simpl; [constructor|].
  destruct (decide (keyFn x ∈ seen)); [apply IH|].
  simpl. constructor; [|apply IH].
  rewrite dedup_from_keys, elem_of_union, elem_of_singleton. tauto.
Qed.

Lemma dedup_from_sublist items : forall seen,
  sublist (dedup_from keyFn seen items) items.
Proof.
  induction items as [|x l IH]; intros seen; simpl; [constructor|].
  destruct (decide (keyFn x ∈ seen)); [apply sublist_cons|apply sublist_skip];
    apply IH.
Qed.

Lemma dedup_from_find items : forall seen k,
  k ∉ seen ->
  List.find (fun y => String.eqb (keyFn y) k) (dedup_from keyFn seen items)
  = List.find (fun y => String.eqb (keyFn y) k) items.
Proof.
  induction items as [|x l IH]; intros seen k Hk; simpl; [reflexivity|].
  destruct (decide (keyFn x ∈ seen)) as [Hin|Hnot].
  - destruct (String.eqb_spec (keyFn x) k) as [E|_]; [|now apply IH].
    subst k. contradiction.
  - simpl. destruct (String.eqb_spec (keyFn x) k) as [E|Hne]; [reflexivity|].
    apply IH. rewrite elem_of_union, elem_of_singleton.
    intros [H|H]; [contradiction|]. apply Hne. now symmetry.
Qed.

Lemma dedup_from_id items : forall seen,
  (forall x, In x items -> keyFn x ∉ seen) ->
  List.NoDup (List.map keyFn items) ->
  dedup_from keyFn seen items = items.
Proof.
  induction items as [|x l IH]; intros seen Hnew Hnd; simpl; [reflexivity|].
  inversion Hnd as [|? ? Hx Hl]; subst.
  destruct (decide (keyFn x ∈ seen)) as [Hin|Hnot].
  - exfalso. apply (Hnew x); [left; reflexivity|exact Hin].
  - f_equal. apply IH; [|exact Hl].
    intros y Hy. rewrite elem_of_union, elem_of_singleton.
    intros [H|H]; [apply (Hnew y (or_intror Hy)); exact H|].
    apply Hx. rewrite <- H. apply in_map. exact Hy.
Qed.

End Dedup.

(** X1. [deduplicateByValue] keeps, for every key, the first item that has
    it and nothing else: the keys of the result are pairwise distinct, the
    result is the input with some items left out (order kept), and looking
    up the first item of any key gives the same answer in the result as in
    the input. *)
Theorem deduplicateByValue_keeps_first_of_each_key
    {T} (items : list T) (keyFn : T -> string) :
  let unique := deduplicateByValue items keyFn in
  List.NoDup (List.map keyFn unique)
  /\ sublist unique items
  /\ forall k,
       List.find (fun y => String.eqb (keyFn y) k) unique
       = List.find (fun y => String.eqb (keyFn y) k) items.
Proof.
  unfold deduplicateByValue. split; [apply dedup_from_NoDup|].
  split; [apply dedup_from_sublist|].
  intros k. apply dedup_from_find. apply not_elem_of_empty.
Qed.

(** X2. A list whose keys are pairwise distinct comes back unchanged, so
    deduplicating twice is the same as deduplicating once. *)
Theorem deduplicateByValue_fixes_distinct_lists
    {T} (items : list T) (keyFn : T -> string) :
  (List.NoDup (List.map keyFn items) -> deduplicateByValue items keyFn = items)
  /\ deduplicateByValue (deduplicateByValue items keyFn) keyFn
     = deduplicateByValue items keyFn.
Proof.
  assert (Hid : forall l : list T,
            List.NoDup (List.map keyFn l) -> deduplicateByValue l keyFn = l).
  { intros l Hnd. apply dedup_from_id; [|exact Hnd].
    intros x _. apply not_elem_of_empty. }
  split; [apply Hid|].
  apply Hid. apply dedup_from_NoDup.
Qed.

(** An instance: three distinct values. *)
Lemma deduplicateByValue_fixes_distinct_lists_witness :
  deduplicateByValue ["4px"; "8px"; "50%"] id = ["4px"; "8px"; "50%"].
Proof.
  apply (proj1 (deduplicateByValue_fixes_distinct_lists ["4px"; "8px"; "50%"] id)).
  repeat constructor; simpl; intuition discriminate.
Defined.

End DedupFacts.

(** ** The token extractors *)

Module TokenFacts.

Import JS Types Extract Tokens TokenSpec JSFacts LoopFacts ContainerFacts.

Ltac loop_ends :=
  rewrite while_exec_fold by (reflexivity || (vm_compute; lia)).

Lemma length_to_string l : String.length (to_string l) = length l.
Proof.
  rewrite <- length_of_string. unfold of_string, to_string.
  now rewrite list_ascii_of_string_of_list_ascii.
Qed.

Lemma slice_length n s : String.length (slice 0 n s) <= n.
Proof.
  unfold slice, slice_chars. rewrite length_to_string, length_firstn. lia.
Qed.

Lemma startsWith_append p s : startsWith p (p +:+ s) = true.
Proof.
  unfold startsWith. induction p as [|c p IH]; [destruct s; reflexivity|].
  change (String c p +:+ s) with (String c (p +:+ s)). cbn [String.prefix].
  destruct (ascii_dec c c); [exact IH|congruence].
Qed.

Lemma extractCSSVariables_spec css sourceUrl :
  extractCSSVariables css sourceUrl
  = Some (List.map (variable_of css sourceUrl)
            (successive_matches CSS_VAR_REGEX css)).
Proof.
  unfold extractCSSVariables. loop_ends. apply f_equal.
  apply (TypographyFacts.fold_left_snoc (variable_of css sourceUrl)).
Qed.

(** X3. [extractCSSVariables] returns for every text, with one entry per
    successive match of the custom-property pattern, in scan order and
    without any merging of repeated declarations; every entry reads
    [--name: value] and carries a snippet of at most 100 characters. *)
Theorem extractCSSVariables_keeps_every_declaration (css sourceUrl : string) :
  extractCSSVariables css sourceUrl
  = Some (List.map (variable_of css sourceUrl)
            (successive_matches CSS_VAR_REGEX css))
  /\ forall m,
       startsWith "--" (ev_value (variable_of css sourceUrl m)) = true
       /\ String.length (sampleSnippet (ev_source (variable_of css sourceUrl m)))
          <= 100.
Proof.
  split.
  - apply extractCSSVariables_spec.
  - intros m. split; [apply startsWith_append|]. apply slice_length.
Qed.

(** The loop of [extractTypography] ends. *)
Lemma extractTypography_fold css sourceUrl :
  extractTypography css sourceUrl
  = Some (fst (fold_left (fun st m => typography_step css sourceUrl m st)
                 (successive_matches FONT_FAMILY_REGEX css) ([], []))).
Proof. unfold extractTypography. loop_ends. reflexivity. Qed.

(** X4. [extractTypography] returns for every text; it reports each
    declared font family (the trimmed value of a [font-family] declaration)
    exactly once, under the name [font-family]. *)
Theorem extractTypography_lists_each_family_once (css sourceUrl : string) :
  exists tokens,
    extractTypography css sourceUrl = Some tokens
    /\ List.NoDup (List.map font_key tokens)
    /\ (forall f, In f (List.map font_key tokens)
                  <-> In f (List.map (declared css)
                              (successive_matches FONT_FAMILY_REGEX css)))
    /\ Forall (fun t => tt_name t = "font-family"
                        /\ tt_fontFamily t = Some (font_key t)
                        /\ Types.sourceUrl (tt_source t) = sourceUrl) tokens.
Proof.
  rewrite extractTypography_fold.
  destruct (seen_fold (declared css)
              (fun m => MkTypographyToken "font-family" (Some (declared css m))
                          (MkSourceInfo src_css sourceUrl
                             (slice 0 80 (matched css m)) 0.8))
              font_key (typography_step css sourceUrl)
              (fun _ => eq_refl) (fun _ _ _ => eq_refl)
              (successive_matches FONT_FAMILY_REGEX css) [] []
              eq_refl (List.NoDup_nil _))
    as (extra & seen' & He & Hkeys & Hnd & Hin & Hall).
  rewrite He. simpl in *. exists extra. split; [reflexivity|].
  rewrite Hkeys. split; [exact Hnd|]. split.
  - intros f. rewrite Hin. tauto.
  - eapply List.Forall_impl; [|exact Hall].
    intros t (m & _ & ->). repeat split.
Qed.

(** The two loops of [extractRadii] end. *)
Lemma extractRadii_folds css sourceUrl :
  extractRadii css sourceUrl
  = Some (OMap.values
            (fold_left (fun a m => radius_decl_step css sourceUrl m a)
               (successive_matches BORDER_RADIUS_REGEX css)
               (fold_left (fun a m => radius_var_step css sourceUrl m a)
                  (successive_matches CSS_VAR_REGEX css) []))).
Proof. unfold extractRadii. do 2 loop_ends. reflexivity. Qed.

(** X5. [extractRadii] returns for every text. A token comes either from a
    custom property whose name contains "radius" (any letter case) and is
    then named after it, or from a direct [border-radius] declaration whose
    value does not start with [var(]. No two custom-property tokens share a
    name, no two direct tokens share a value, and no direct token has for
    value the name of a custom-property token. *)
Theorem extractRadii_tokens_are_keyed (css sourceUrl : string) :
  exists tokens,
    extractRadii css sourceUrl = Some tokens
    /\ List.NoDup (List.map radius_key tokens)
    /\ Forall (fun t =>
                 (rt_name t = "border-radius"
                  /\ startsWith "var(" (rt_value t) = false)
                 \/ (exists name,
                       rt_name t = "--" +:+ name
                       /\ test0 (re_i (lit "radius")) name = true)) tokens.
Proof.
  rewrite extractRadii_folds. eexists. split; [reflexivity|].
  set (Q := fun t : RadiusToken =>
              (rt_name t = "border-radius"
               /\ startsWith "var(" (rt_value t) = false)
              \/ (exists name,
                    rt_name t = "--" +:+ name
                    /\ test0 (re_i (lit "radius")) name = true)).
  assert (H1 : forall m s,
            id (radius_var_step css sourceUrl m s) = id s
            \/ exists k v, OMap.has k (id s) = false /\ radius_key v = k /\ Q v
                           /\ id (radius_var_step css sourceUrl m s)
                              = OMap.set k v (id s)).
  { intros m s. unfold radius_var_step, id.
    destruct (test0 (re_i (lit "radius")) (group_or_empty css m 1)) eqn:Et;
      [|left; reflexivity].
    destruct (OMap.has ("--" +:+ group_or_empty css m 1) s) eqn:Eh;
      [left; reflexivity|].
    right.
    refine (ex_intro _ _ (ex_intro _ _ (conj Eh (conj _ (conj _ eq_refl)))));
      [reflexivity|].
    right. eexists. split; [reflexivity|exact Et]. }
  assert (H2 : forall m s,
            id (radius_decl_step css sourceUrl m s) = id s
            \/ exists k v, OMap.has k (id s) = false /\ radius_key v = k /\ Q v
                           /\ id (radius_decl_step css sourceUrl m s)
                              = OMap.set k v (id s)).
  { intros m s. unfold radius_decl_step, id.
    destruct (OMap.has (trim (group_or_empty css m 1)) s) eqn:Eh;
      [left; reflexivity|].
    destruct (startsWith "var(" (trim (group_or_empty css m 1))) eqn:Ev;
      [left; reflexivity|].
    right.
    refine (ex_intro _ _ (ex_intro _ _ (conj Eh (conj _ (conj _ eq_refl)))));
      [reflexivity|].
    left. split; [reflexivity|exact Ev]. }
  destruct (guarded_fold radius_key Q id _ H1
              (successive_matches CSS_VAR_REGEX css) []
              (keyed_by_nil _) (List.Forall_nil _)) as [Hk HQ].
  destruct (guarded_fold radius_key Q id _ H2
              (successive_matches BORDER_RADIUS_REGEX css) _ Hk HQ)
    as [Hk' HQ'].
  split; [apply keyed_by_values; exact Hk'|exact HQ'].
Qed.

(** The two loops of [extractShadows] end. *)
Lemma extractShadows_folds css sourceUrl :
  extractShadows css sourceUrl
  = Some (OMap.values
            (fold_left (fun a m => shadow_decl_step css sourceUrl m a)
               (successive_matches BOX_SHADOW_REGEX css)
               (fold_left (fun a m => shadow_var_step css sourceUrl m a)
                  (successive_matches CSS_VAR_REGEX css) []))).
Proof. unfold extractShadows. do 2 loop_ends. reflexivity. Qed.

(** X6. [extractShadows] returns for every text. A token comes either from
    a custom property whose name contains "shadow" and is then named after
    it, or from a direct [box-shadow] declaration whose value is not [none]
    and does not start with [var(]; the keys (custom-property names, values
    of direct declarations) are pairwise distinct. *)
Theorem extractShadows_tokens_are_keyed (css sourceUrl : string) :
  exists tokens,
    extractShadows css sourceUrl = Some tokens
    /\ List.NoDup (List.map shadow_key tokens)
    /\ Forall (fun t =>
                 (sh_name t = "box-shadow"
                  /\ sh_value t <> "none"
                  /\ startsWith "var(" (sh_value t) = false)
                 \/ (exists name,
                       sh_name t = "--" +:+ name
                       /\ test0 (re_i (lit "shadow")) name = true)) tokens.
Proof.
  rewrite extractShadows_folds. eexists. split; [reflexivity|].
  set (Q := fun t : ShadowToken =>
              (sh_name t = "box-shadow"
               /\ sh_value t <> "none"
               /\ startsWith "var(" (sh_value t) = false)
              \/ (exists name,
                    sh_name t = "--" +:+ name
                    /\ test0 (re_i (lit "shadow")) name = true)).
  assert (H1 : forall m s,
            id (shadow_var_step css sourceUrl m s) = id s
            \/ exists k v, OMap.has k (id s) = false /\ shadow_key v = k /\ Q v
                           /\ id (shadow_var_step css sourceUrl m s)
                              = OMap.set k v (id s)).
  { intros m s. unfold shadow_var_step, id.
    destruct (test0 (re_i (lit "shadow")) (group_or_empty css m 1)) eqn:Et;
      [|left; reflexivity].
    destruct (OMap.has ("--" +:+ group_or_empty css m 1) s) eqn:Eh;
      [left; reflexivity|].
    right.
    refine (ex_intro _ _ (ex_intro _ _ (conj Eh (conj _ (conj _ eq_refl)))));
      [reflexivity|].
    right. eexists. split; [reflexivity|exact Et]. }
  assert (H2 : forall m s,
            id (shadow_decl_step css sourceUrl m s) = id s
            \/ exists k v, OMap.has k (id s) = false /\ shadow_key v = k /\ Q v
                           /\ id (shadow_decl_step css sourceUrl m s)
                              = OMap.set k v (id s)).
  { intros m s. unfold shadow_decl_step, id.
    destruct (String.eqb_spec (trim (group_or_empty css m 1)) "none") as [|Hn];
      [left; reflexivity|].
    destruct (startsWith "var(" (trim (group_or_empty css m 1))) eqn:Ev;
      [left; reflexivity|].
    destruct (OMap.has (trim (group_or_empty css m 1)) s) eqn:Eh;
      [left; reflexivity|].
    right.
    refine (ex_intro _ _ (ex_intro _ _ (conj Eh (conj _ (conj _ eq_refl)))));
      [reflexivity|].
    left. split; [reflexivity|]. split; [exact Hn|exact Ev]. }
  destruct (guarded_fold shadow_key Q id _ H1
              (successive_matches CSS_VAR_REGEX css) []
              (keyed_by_nil _) (List.Forall_nil _)) as [Hk HQ].
  destruct (guarded_fold shadow_key Q id _ H2
              (successive_matches BOX_SHADOW_REGEX css) _ Hk HQ)
    as [Hk' HQ'].
  split; [apply keyed_by_values; exact Hk'|exact HQ'].
Qed.

(** The loop of [extractColors] ends, from any state of the shared
    patterns. *)
Lemma extractColors_fold css sourceUrl g :
  extractColors css sourceUrl g
  = let st := fold_left (fun a m => color_step css sourceUrl m a)
                (successive_matches CSS_VAR_REGEX css)
                ([], COLOR_REGEX_lastIndex g) in
    Some (OMap.values (fst st), MkGlobals 0 (snd st)).
Proof.
  unfold extractColors. loop_ends. cbv zeta.
  destruct (fold_left _ _ _) as [colors li]. reflexivity.
Qed.

(** X7. [extractColors] returns from every state of the shared patterns.
    Its tokens have pairwise distinct values, and each of them is named
    after a custom property, its usage inferred from that name and its
    format from its value. Colours are read from custom properties only: a
    text that declares no custom property yields no token and leaves
    [COLOR_REGEX.lastIndex] as it was. *)
Theorem extractColors_reads_custom_properties_only
    (css sourceUrl : string) (g : Globals) :
  exists tokens g',
    extractColors css sourceUrl g = Some (tokens, g')
    /\ CSS_VAR_REGEX_lastIndex g' = 0
    /\ List.NoDup (List.map ct_value tokens)
    /\ Forall (fun t => exists name,
                 ct_name t = "--" +:+ name
                 /\ ct_usage t = inferColorUsage name
                 /\ ct_format t = getColorFormat (ct_value t)) tokens
    /\ (successive_matches CSS_VAR_REGEX css = [] ->
        tokens = [] /\ g' = MkGlobals 0 (COLOR_REGEX_lastIndex g)).
Proof.
  rewrite extractColors_fold. cbv zeta.
  set (Q := fun t : ColorToken => exists name,
              ct_name t = "--" +:+ name
              /\ ct_usage t = inferColorUsage name
              /\ ct_format t = getColorFormat (ct_value t)).
  assert (H1 : forall m (s : OMap.t ColorToken * nat),
            fst (color_step css sourceUrl m s) = fst s
            \/ exists k v, OMap.has k (fst s) = false /\ ct_value v = k /\ Q v
                           /\ fst (color_step css sourceUrl m s)
                              = OMap.set k v (fst s)).
  { intros m [colors li]. unfold color_step.
    destruct (test COLOR_REGEX (trim (group_or_empty css m 2)) li) as [[|] li1];
      [|left; reflexivity].
    destruct (exec COLOR_REGEX (trim (group_or_empty css m 2)) 0)
      as [[cm|] li2]; [|left; reflexivity].
    destruct (OMap.has (matched (trim (group_or_empty css m 2)) cm) colors)
      eqn:Eh; [left; reflexivity|].
    right.
    refine (ex_intro _ _ (ex_intro _ _ (conj Eh (conj _ (conj _ eq_refl)))));
      [reflexivity|].
    eexists. repeat split. }
  destruct (guarded_fold ct_value Q fst _ H1
              (successive_matches CSS_VAR_REGEX css)
              ([], COLOR_REGEX_lastIndex g)
              (keyed_by_nil _) (List.Forall_nil _)) as [Hk HQ].
  do 2 eexists. split; [reflexivity|]. split; [reflexivity|].
  split; [apply keyed_by_values; exact Hk|]. split; [exact HQ|].
  intros ->. split; reflexivity.
Qed.

(** An instance: a rule that sets a colour directly. *)
Lemma extractColors_reads_custom_properties_only_witness :
  extractColors "a{color:#fff}" "u" (MkGlobals 0 3) = Some ([], MkGlobals 0 3).
Proof.
  destruct (extractColors_reads_custom_properties_only
              "a{color:#fff}" "u" (MkGlobals 0 3))
    as (tokens & g' & -> & _ & _ & _ & H).
  destruct H as [-> ->]; [vm_compute; reflexivity|reflexivity].
Defined.

End TokenFacts.

(** ** Layout analysis *)

Module LayoutFacts.

Import JS Types Extract Tokens TokenSpec JSFacts LoopFacts ContainerFacts.

Ltac loop_ends :=
  rewrite while_exec_fold by (reflexivity || (vm_compute; lia)).

Lemma grid_checks_table g f c :
  grid_checks g f c
  = (grid_table g f c,
     (if g then ["CSS Grid (display: grid)"] else [])
     ++ (if f then ["Flexbox (display: flex)"] else [])
     ++ (if c then ["Bootstrap grid classes"] else [])).
Proof. destruct g, f, c; reflexivity. Qed.

Lemma extractLayoutInfo_spec session :
  let allCSS := allCSS_of session in
  let hasGrid := test0 (display_regex "grid") allCSS in
  let hasFlex := test0 (display_regex "flex") allCSS in
  let hasCols := test0 colClassRegex allCSS in
  exists info,
    extractLayoutInfo session = Some info
    /\ List.map ev_value (containerWidths info)
       = List.map (declared allCSS) (successive_matches containerRegex allCSS)
    /\ List.NoDup (List.map ev_value (breakpoints info))
    /\ (forall b, In b (List.map ev_value (breakpoints info))
                  <-> In b (List.map (declared allCSS)
                              (successive_matches mediaQueryRegex allCSS)))
    /\ gridSystem info = grid_table hasGrid hasFlex hasCols
    /\ gridEvidence info
       = (if hasGrid then ["CSS Grid (display: grid)"] else [])
         ++ (if hasFlex then ["Flexbox (display: flex)"] else [])
         ++ (if hasCols then ["Bootstrap grid classes"] else []).
Proof.
  intros allCSS hasGrid hasFlex hasCols.
  unfold extractLayoutInfo. fold (allCSS_of session). fold allCSS.
  do 2 loop_ends.
  destruct (seen_fold (declared allCSS)
              (fun m => MkExtractedValue (declared allCSS m)
                          (MkSourceInfo src_css (startUrl session)
                             (slice 0 60 (matched allCSS m)) 0.85))
              ev_value (breakpoint_step session allCSS)
              (fun _ => eq_refl) (fun _ _ _ => eq_refl)
              (successive_matches mediaQueryRegex allCSS) [] []
              eq_refl (List.NoDup_nil _))
    as (extra & seen' & He & Hkeys & Hnd & Hin & _).
  rewrite He. fold hasGrid hasFlex hasCols. rewrite grid_checks_table.
  simpl in *. eexists. split; [reflexivity|]. cbn.
  split.
  { rewrite (TypographyFacts.fold_left_snoc
               (fun m => MkExtractedValue (trim (group_or_empty allCSS m 1))
                           (MkSourceInfo src_css (startUrl session)
                              (slice 0 80 (matched allCSS m)) 0.8))).
    simpl. rewrite map_map. reflexivity. }
  rewrite Hkeys. split; [exact Hnd|]. split; [|split; reflexivity].
  intros b. rewrite Hin. tauto.
Qed.

(** X8. [extractLayoutInfo] returns for every session. Container widths
    are listed once per match, breakpoints once per distinct value. The
    grid system is decided by three checks on the stylesheets, Bootstrap
    column classes taking precedence over [display: grid] and that over
    [display: flex]; the evidence lists every check that succeeded, in the
    order grid, flex, columns. The system is never [custom], and it is
    [unknown] exactly when there is no evidence. *)
Theorem extractLayoutInfo_classifies_grid (session : CrawlSession) :
  let allCSS := allCSS_of session in
  let hasGrid := test0 (display_regex "grid") allCSS in
  let hasFlex := test0 (display_regex "flex") allCSS in
  let hasCols := test0 colClassRegex allCSS in
  exists info,
    extractLayoutInfo session = Some info
    /\ List.map ev_value (containerWidths info)
       = List.map (declared allCSS) (successive_matches containerRegex allCSS)
    /\ List.NoDup (List.map ev_value (breakpoints info))
    /\ (forall b, In b (List.map ev_value (breakpoints info))
                  <-> In b (List.map (declared allCSS)
                              (successive_matches mediaQueryRegex allCSS)))
    /\ gridSystem info = grid_table hasGrid hasFlex hasCols
    /\ gridEvidence info
       = (if hasGrid then ["CSS Grid (display: grid)"] else [])
         ++ (if hasFlex then ["Flexbox (display: flex)"] else [])
         ++ (if hasCols then ["Bootstrap grid classes"] else [])
    /\ gridSystem info <> custom
    /\ (gridSystem info = grid_unknown <-> gridEvidence info = []).
Proof.
  intros allCSS hasGrid hasFlex hasCols.
  destruct (extractLayoutInfo_spec session)
    as (info & Hi & Hw & Hnd & Hb & Hg & He).
  exists info. split; [exact Hi|]. split; [exact Hw|]. split; [exact Hnd|].
  split; [exact Hb|]. fold allCSS hasGrid hasFlex hasCols in Hg, He.
  split; [exact Hg|]. split; [exact He|]. rewrite Hg, He.
  destruct hasGrid, hasFlex, hasCols; simpl; split; try discriminate;
    split; intros; try discriminate; reflexivity.
Qed.

End LayoutFacts.

(** ** Font families of the typography scale *)

Module ScaleFacts.

Import JS Types Extract Tokens TokenSpec JSFacts LoopFacts ContainerFacts.

Ltac loop_ends :=
  rewrite while_exec_fold by (reflexivity || (vm_compute; lia)).

(** The three loops of [extractTypographyScale] end; what the middle one,
    over the font-family declarations, has gathered. *)
Lemma extractTypographyScale_fonts session :
  let allCSS := scale_css session in
  exists scale seen,
    extractTypographyScale session = Some scale
    /\ List.map ev_value (fontFamilies scale) = seen
    /\ List.NoDup seen
    /\ (forall k, In k seen
                  <-> In k [] \/ In k (List.map (declared allCSS)
                                         (successive_matches FONT_FAMILY_REGEX
                                            allCSS)))
    /\ Forall (fun t => exists m,
                 In m (successive_matches FONT_FAMILY_REGEX allCSS)
                 /\ t = MkExtractedValue (declared allCSS m)
                          (MkSourceInfo src_css (startUrl session)
                             (slice 0 80 (matched allCSS m)) 0.75))
              (fontFamilies scale).
Proof.
  intros allCSS. unfold extractTypographyScale. fold allCSS. do 3 loop_ends.
  destruct (seen_fold (declared allCSS)
              (fun m => MkExtractedValue (declared allCSS m)
                          (MkSourceInfo src_css (startUrl session)
                             (slice 0 80 (matched allCSS m)) 0.75))
              ev_value (font_step session allCSS)
              (fun _ => eq_refl) (fun _ _ _ => eq_refl)
              (successive_matches FONT_FAMILY_REGEX allCSS) [] []
              eq_refl (List.NoDup_nil _))
    as (extra & seen' & He & Hkeys & Hnd & Hin & Hall).
  rewrite He. eexists. exists seen'. split; [reflexivity|].
  cbn [fontFamilies]. auto.
Qed.

(** X9. The typography scale lists each font family declared in the
    inline style blocks and the fetched stylesheets exactly once, and
    attributes every one of them to the start URL of the session, whichever
    page or stylesheet declared it. *)
Theorem typography_scale_lists_each_family_once (session : CrawlSession) :
  let allCSS := scale_css session in
  exists scale,
    extractTypographyScale session = Some scale
    /\ List.NoDup (List.map ev_value (fontFamilies scale))
    /\ (forall f, In f (List.map ev_value (fontFamilies scale))
                  <-> In f (List.map (declared allCSS)
                              (successive_matches FONT_FAMILY_REGEX allCSS)))
    /\ Forall (fun v => Types.sourceUrl (ev_source v) = startUrl session)
              (fontFamilies scale).
Proof.
  intros allCSS.
  destruct (extractTypographyScale_fonts session)
    as (scale & seen & Hs & Hkeys & Hnd & Hin & Hall).
  exists scale. split; [exact Hs|]. rewrite Hkeys.
  split; [exact Hnd|]. split.
  - intros f. rewrite Hin. simpl. tauto.
  - eapply List.Forall_impl; [|exact Hall]. intros t (m & _ & ->). reflexivity.
Qed.

End ScaleFacts.

(** ** Component patterns of any session *)

Module PatternFacts.

Import JS Types Extract JSFacts LoopFacts ContainerFacts.

Lemma collect_fold css : forall res cps,
  Forall (fun re => global re = true /\ 0 < min_len (pattern re)) res ->
  exists more,
    fold_left
      (fun acc regex =>
         match acc with
         | None => None
         | Some classPatterns =>
             while_exec regex css
               (fun m cps =>
                  cps ++ [trim (replace_one (re_plain (Seq (Chr "{") Eol))
                                  (matched css m))])
               classPatterns
         end)
      res (Some cps)
    = Some (cps ++ more).
Proof.
  induction res as [|re res IH]; intros cps Hres; simpl.
  - exists []. now rewrite app_nil_r.
  - inversion Hres as [|? ? [Hg Hm] Hres']; subst.
    rewrite (while_exec_fold _ _ _ _ Hg Hm).
    rewrite (TypographyFacts.fold_left_snoc
               (fun m => trim (replace_one (re_plain (Seq (Chr "{") Eol))
                                 (matched css m)))).
    destruct (IH (cps ++ List.map
                    (fun m => trim (replace_one (re_plain (Seq (Chr "{") Eol))
                                      (matched css m)))
                    (successive_matches re css)) Hres') as (more & ->).
    eexists. rewrite <- app_assoc. reflexivity.
Qed.

Lemma uniq_head x l : exists tl, uniq (x :: l) = x :: tl.
Proof.
  assert (H : forall (l s : list string) x,
            exists tl, fold_left (fun acc y => OSet.add y acc) l (x :: s)
                       = x :: tl).
  { clear. induction l as [|y l IH]; intros s x; simpl; [eauto|].
    unfold OSet.add. destruct (OSet.has y (x :: s)); [apply IH|].
    change ((x :: s) ++ [y]) with (x :: (s ++ [y])). apply IH. }
  unfold uniq. simpl. change (OSet.add x []) with [x]. apply H.
Qed.

Lemma table_patterns_progress :
  Forall (fun e => Forall (fun re => global re = true
                                     /\ 0 < min_len (pattern re)) (snd e))
         componentPatterns.
Proof.
  assert (H : forallb (fun e => forallb (fun re => global re
                                                   && (0 <? min_len (pattern re)))
                                        (snd e)) componentPatterns = true)
    by (vm_compute; reflexivity).
  rewrite forallb_forall in H. apply List.Forall_forall. intros e He.
  specialize (H e He). rewrite forallb_forall in H.
  apply List.Forall_forall. intros re Hre. specialize (H re Hre).
  apply andb_true_iff in H as [Hg Hm]. apply Nat.ltb_lt in Hm. auto.
Qed.

Lemma component_fold session css : forall table patterns,
  Forall (fun e => Forall (fun re => global re = true
                                     /\ 0 < min_len (pattern re)) (snd e))
         table ->
  exists more,
    fold_left (component_step session css) table (Some patterns)
    = Some (patterns ++ more)
    /\ sublist (List.map cp_type more) (List.map fst table)
    /\ Forall (fun p => cp_name p = cp_type p
                        /\ classPatterns p <> []
                        /\ length (classPatterns p) <= 5
                        /\ List.NoDup (classPatterns p)
                        /\ Types.sourceUrl (cp_source p) = startUrl session)
              more.
Proof.
  induction table as [|[type res] table IH]; intros patterns Htable; simpl.
  - exists []. rewrite app_nil_r. repeat constructor.
  - inversion Htable as [|? ? Hres Htable']; subst. simpl in Hres.
    unfold collect_class_patterns.
    destruct (collect_fold css res [] Hres) as (cps & ->). simpl.
    destruct cps as [|first cps].
    + destruct (IH patterns Htable') as (more & -> & Hsub & Hall).
      exists more. split; [reflexivity|]. split; [|exact Hall].
      apply sublist_cons. exact Hsub.
    + match goal with
      | |- context [Some (patterns ++ [?p])] => set (pat := p)
      end.
      destruct (IH (patterns ++ [pat]) Htable') as (more & -> & Hsub & Hall).
      exists (pat :: more). rewrite <- app_assoc. split; [reflexivity|].
      split; [apply sublist_skip; exact Hsub|].
      constructor; [|exact Hall]. subst pat.
      cbn [cp_name cp_type classPatterns cp_source Types.sourceUrl].
      split; [reflexivity|]. split; [|split; [|split; [|reflexivity]]].
      * destruct (uniq_head first cps) as (tl & ->). discriminate.
      * rewrite length_firstn. lia.
      * apply NoDup_ListNoDup. eapply sublist_NoDup; [|apply sublist_take].
        apply NoDup_ListNoDup. apply oset_fold_NoDup. constructor.
Qed.

(** X10. [detectComponentPatterns] returns for every session. It reports
    at most one pattern per component type, in the order button, card, nav,
    hero, form, input, modal; every reported pattern lists between one and
    five class patterns, pairwise distinct, and is attributed to the start
    URL of the session. *)
Theorem component_patterns_one_per_type (session : CrawlSession) :
  exists patterns,
    detectComponentPatterns session = Some patterns
    /\ sublist (List.map cp_type patterns)
               [t_button; t_card; t_nav; t_hero; t_form; t_input; t_modal]
    /\ Forall (fun p => cp_name p = cp_type p
                        /\ classPatterns p <> []
                        /\ length (classPatterns p) <= 5
                        /\ List.NoDup (classPatterns p)
                        /\ Types.sourceUrl (cp_source p) = startUrl session)
              patterns.
Proof.
  unfold detectComponentPatterns.
  destruct (component_fold session (join nl (OMap.values (cssContents session)))
              Extract.componentPatterns [] table_patterns_progress)
    as (more & -> & Hsub & Hall).
  exists more. split; [reflexivity|]. split; [exact Hsub|exact Hall].
Qed.

End PatternFacts.

(** ** The main extraction function *)

Module ExtractFacts.

Import JS Types Extract Tokens TokenSpec ContainerFacts DedupFacts TokenFacts.

Lemma gather_unit_total g u : exists g', gather_unit (Some g) u = Some g'.
Proof.
  destruct u as [css url]. unfold gather_unit.
  rewrite extractColors_fold, extractTypography_fold, extractRadii_folds,
    extractShadows_folds, extractCSSVariables_spec.
  cbv zeta. eauto.
Qed.

Lemma gather_fold_total units : forall g,
  exists g', fold_left gather_unit units (Some g) = Some g'.
Proof.
  induction units as [|u units IH]; intros g; simpl; [eauto|].
  destruct (gather_unit_total g u) as (g1 & ->). apply IH.
Qed.

Lemma extract_spec session g :
  exists scale patterns info all,
    extractTypographyScale session = Some scale
    /\ detectComponentPatterns session = Some patterns
    /\ extractLayoutInfo session = Some info
    /\ extract session g
       = Some (MkExtractionResult (detectStack session)
                 (MkDesignTokens
                    (deduplicateByValue (allColors all) ct_value)
                    (deduplicateByValue (allTypography all) font_key)
                    []
                    (deduplicateByValue (allRadii all) rt_value)
                    (deduplicateByValue (allShadows all) sh_value)
                    (deduplicateByValue (allCustomProperties all) ev_value))
                 scale patterns (detectAccessibilitySignals session) info
                 (risks_of session (detectStack session)
                    (deduplicateByValue (allColors all) ct_value))
                 (notes_of session),
               color_state all).
Proof.
  destruct (ScaleFacts.extractTypographyScale_fonts session)
    as (scale & _ & Hs & _).
  destruct (PatternFacts.component_fold session
              (join nl (OMap.values (cssContents session)))
              Extract.componentPatterns [] PatternFacts.table_patterns_progress)
    as (patterns & Hp & _).
  change (detectComponentPatterns session = Some patterns) in Hp.
  destruct (LayoutFacts.extractLayoutInfo_spec session) as (info & Hi & _).
  destruct (gather_fold_total (css_units session) (MkGathered [] [] [] [] [] g))
    as (all & Ha).
  exists scale, patterns, info, all. unfold extract.
  rewrite Hs, Hp, Hi, Ha. auto.
Qed.

(** X11. [extract] returns for every session and every state of the
    shared patterns. The result carries the outcomes of the five analyses
    unchanged, no spacing token at all, and token collections without
    repetition: no two colours, radii or shadows share a value, no two
    typography tokens a font family, no two custom properties their text. *)
Theorem extract_returns_deduplicated_tokens
    (session : CrawlSession) (g : Globals) :
  exists r g',
    extract session g = Some (r, g')
    /\ stackSignals r = detectStack session
    /\ Some (typographyScale r) = extractTypographyScale session
    /\ Some (Tokens.componentPatterns r) = detectComponentPatterns session
    /\ accessibilitySignals r = detectAccessibilitySignals session
    /\ Some (layout r) = extractLayoutInfo session
    /\ spacing (tokens r) = []
    /\ List.NoDup (List.map ct_value (colors (tokens r)))
    /\ List.NoDup (List.map font_key (typography (tokens r)))
    /\ List.NoDup (List.map rt_value (radii (tokens r)))
    /\ List.NoDup (List.map sh_value (shadows (tokens r)))
    /\ List.NoDup (List.map ev_value (customProperties (tokens r))).
Proof.
  destruct (extract_spec session g)
    as (scale & patterns & info & all & Hs & Hp & Hi & He).
  do 2 eexists. split; [exact He|]. cbn.
  repeat split; auto; apply dedup_from_NoDup.
Qed.

(** X12. The risks and notes of [extract]. The robots risk is reported
    exactly for a session whose robots status is [blocked]; the palette
    risk exactly when more than fifty distinct colour values were found (so
    not for fifty); the framework risk exactly when both a Bootstrap and a
    Tailwind CSS signal were detected. The only note there can be is the
    one about inline styles, given exactly when the session has pages but
    no fetched stylesheet. *)
Theorem extract_reports_risks_and_notes
    (session : CrawlSession) (g : Globals) :
  exists r g',
    extract session g = Some (r, g')
    /\ (In "robots.txt blocks crawling - results may be incomplete" (risks r)
        <-> robotsTxtStatus session = blocked)
    /\ (In "Large color palette detected (50+ colors) - may indicate inconsistent design tokens"
           (risks r)
        <-> 50 < length (colors (tokens r)))
    /\ (In "Multiple CSS frameworks detected (Bootstrap + Tailwind) - may cause style conflicts"
           (risks r)
        <-> has_signal "Bootstrap" (stackSignals r) = true
            /\ has_signal "Tailwind CSS" (stackSignals r) = true)
    /\ length (risks r) <= 3
    /\ (notes r = ["No external CSS files were fetched - tokens extracted from inline styles only"]
        \/ notes r = [])
    /\ (notes r <> [] <-> cssContents session = [] /\ pages session <> []).
Proof.
  destruct (extract_spec session g)
    as (scale & patterns & info & all & Hs & Hp & Hi & He).
  do 2 eexists. split; [exact He|]. cbn [risks notes tokens colors stackSignals].
  unfold risks_of, notes_of.
  destruct (50 <? length (deduplicateByValue (allColors all) ct_value)) eqn:E50;
    [apply Nat.ltb_lt in E50|apply Nat.ltb_ge in E50];
    destruct (has_signal "Bootstrap" (detectStack session)),
             (has_signal "Tailwind CSS" (detectStack session)),
             (robotsTxtStatus session);
    cbn [andb app In length];
    (split; [split; [intros H; repeat destruct H as [H|H];
                     try discriminate; try contradiction; reflexivity
                    |intros H; try discriminate; auto 6]|]);
    (split; [split; [intros H; repeat destruct H as [H|H];
                     try discriminate; try contradiction; try lia
                    |intros H; try lia; auto 6]|]);
    (split; [split; [intros H; repeat destruct H as [H|H];
                     try discriminate; try contradiction; auto
                    |intros [H1 H2]; try discriminate; auto 6]|]);
    (split; [lia|]);
    destruct (cssContents session), (pages session); cbn;
    (split; [auto|]);
    (split; [intros H; try congruence; split; try congruence; discriminate
            |intros [H1 H2]; try discriminate; congruence]).
Qed.

End ExtractFacts.

(** ** More on the accessibility signals *)

Module SignalFacts.

Import JS Types Extract AccessibilityFacts.

Lemma skip_confidence (b : bool) :
  (if b then 0.7 <= (if b then 0.9 else 0.5) else (if b then 0.9 else 0.5) <= 0.7)%Q.
Proof. destruct b; unfold Qle; simpl; lia. Qed.

Lemma focus_confidence (v o : bool) :
  (if v || o
   then 0.7 <= (if v then 0.9 else if o then 0.7 else 0.4)
   else (if v then 0.9 else if o then 0.7 else 0.4) <= 0.7)%Q.
Proof. destruct v, o; unfold Qle; simpl; lia. Qed.

Lemma aria_confidence (n : nat) :
  (if 5 <? n
   then 0.7 <= (if 20 <? n then 0.9 else if 5 <? n then 0.7 else 0.4)
   else (if 20 <? n then 0.9 else if 5 <? n then 0.7 else 0.4) <= 0.7)%Q.
Proof.
  destruct (5 <? n) eqn:E5, (20 <? n) eqn:E20; try (unfold Qle; simpl; lia).
  apply Nat.ltb_ge in E5. apply Nat.ltb_lt in E20. lia.
Qed.

Lemma alt_confidence (q : Q) :
  (if Qgtb q 0.8
   then 0.7 <= (if Qgtb q 0.9 then 0.9 else if Qgtb q 0.7 then 0.7 else 0.5)
   else (if Qgtb q 0.9 then 0.9 else if Qgtb q 0.7 then 0.7 else 0.5) <= 0.7)%Q.
Proof.
  assert (Hf : forall x y, Qgtb x y = false -> (x <= y)%Q).
  { intros x y H. destruct (Qlt_le_dec y x) as [Hlt|Hle]; [|exact Hle].
    apply Qgtb_lt in Hlt. congruence. }
  destruct (Qgtb q 0.8) eqn:E8, (Qgtb q 0.9) eqn:E9, (Qgtb q 0.7) eqn:E7;
    try (unfold Qle; simpl; lia);
    repeat match goal with
           | H : Qgtb _ _ = true |- _ => apply Qgtb_lt in H
           | H : Qgtb _ _ = false |- _ => apply Hf in H
           end; lra.
Qed.

Lemma semantic_confidence (n : nat) :
  (if 3 <=? n
   then 0.7 <= (if 3 <=? n then 0.85 else if 2 <=? n then 0.6 else 0.4)
   else (if 3 <=? n then 0.85 else if 2 <=? n then 0.6 else 0.4) <= 0.7)%Q.
Proof.
  destruct (3 <=? n) eqn:E3, (2 <=? n) eqn:E2; unfold Qle; simpl; lia.
Qed.

(** X13. [detectAccessibilitySignals] always reports the same five
    features in the same order, whatever the session. The confidence
    attached to a signal follows its verdict: a feature reported present
    has confidence at least 0.7, a feature reported absent at most 0.7. *)
Theorem accessibility_confidence_follows_presence (session : CrawlSession) :
  List.map feature (detectAccessibilitySignals session)
  = ["Skip Links"; "Focus Visible Styling"; "ARIA Attributes";
     "Image Alt Text"; "Semantic HTML"]
  /\ Forall (fun s =>
               (if present s then 0.7 <= confidence (a_source s)
                else confidence (a_source s) <= 0.7)%Q)
            (detectAccessibilitySignals session).
Proof.
  split; [reflexivity|].
  unfold detectAccessibilitySignals. cbv zeta.
  repeat apply List.Forall_cons; [| | | | |apply List.Forall_nil];
    cbn [present a_source confidence].
  - apply skip_confidence.
  - apply focus_confidence.
  - apply aria_confidence.
  - apply alt_confidence.
  - apply semantic_confidence.
Qed.

End SignalFacts.

(** ** More on the stack signals *)

Module StackBounds.

Import JS Types Extract Spec SortFacts StackFacts.

Lemma table_lengths :
  Forall (fun d => length (patterns d) <= 4) STACK_DETECTORS.
Proof. repeat constructor. Qed.

Lemma signal_of_bounds session d :
  In d STACK_DETECTORS ->
  Forall (fun s => fle (double 0.5) (sig_confidence s) = true
                   /\ fle (sig_confidence s) (num_of_Z 1) = true
                   /\ sig_evidence s <> []
                   /\ length (sig_evidence s) <= 4
                   /\ sig_name s = sd_name d)
         (signal_of session d).
Proof.
  intros Hd.
  pose proof table_lengths as Ht. rewrite List.Forall_forall in Ht.
  pose proof (Ht d Hd) as Hlen.
  destruct (signal_of_spec session d) as [Hnone Hsome].
  destruct (matching (allContent session) d) as [|p ps] eqn:Em.
  - rewrite Hnone by reflexivity. constructor.
  - destruct Hsome as (urls & ->); [discriminate|].
    constructor; [|constructor]. cbn [sig_confidence sig_evidence sig_name].
    assert (Hout : In (p :: ps) outcomes).
    { rewrite <- Em. apply matching_is_outcome; [exact Hd|].
      rewrite Em. discriminate. }
    pose proof outcomes_bounds as Hb. rewrite forallb_forall in Hb.
    specialize (Hb _ Hout). unfold bounds_ok in Hb.
    apply andb_true_iff in Hb as [Hb _].
    apply andb_true_iff in Hb as [Hlo Hhi].
    split; [exact Hlo|]. split; [exact Hhi|].
    split; [discriminate|]. split; [|reflexivity].
    rewrite length_map, <- Em. unfold matching.
    eapply Nat.le_trans; [apply filter_length_le|exact Hlen].
Qed.

Lemma signals_sublist session : forall table,
  sublist (List.map sig_name (flat_map (signal_of session) table))
          (List.map sd_name table).
Proof.
  induction table as [|d table IH]; simpl; [constructor|].
  pose proof (signal_of_named session d) as Hname.
  unfold signal_of in *.
  destruct (run_detector session (allContent session) d) as [[ev urls] mx].
  destruct (0 <? length ev); simpl.
  - apply sublist_skip. exact IH.
  - apply sublist_cons. exact IH.
Qed.

(** X14. Whatever the session, [detectStack] reports at most twelve
    signals, no two of them with the same name, each named after a detector
    of the table; every signal carries between one and four pieces of
    evidence and a confidence that is a number between 0.5 and 1. *)
Theorem stack_signals_are_bounded (session : CrawlSession) :
  length (detectStack session) <= 12
  /\ List.NoDup (List.map sig_name (detectStack session))
  /\ Forall (fun s => fle (double 0.5) (sig_confidence s) = true
                      /\ fle (sig_confidence s) (num_of_Z 1) = true
                      /\ sig_evidence s <> []
                      /\ length (sig_evidence s) <= 4
                      /\ In (sig_name s) (List.map sd_name STACK_DETECTORS))
            (detectStack session).
Proof.
  pose proof (sort_perm (Sort.desc sig_confidence)
                (flat_map (signal_of session) STACK_DETECTORS)) as Hperm.
  rewrite <- detectStack_sorted_table in Hperm.
  pose proof (signals_sublist session STACK_DETECTORS) as Hsub.
  split; [|split].
  - rewrite (Permutation_length Hperm).
    rewrite <- (length_map sig_name).
    apply sublist_length in Hsub. exact Hsub.
  - eapply Permutation_NoDup;
      [apply Permutation_map; apply Permutation_sym; exact Hperm|].
    apply NoDup_ListNoDup. eapply sublist_NoDup; [|exact Hsub].
    apply NoDup_ListNoDup. apply detector_names_distinct.
  - eapply Permutation_Forall; [apply Permutation_sym; exact Hperm|].
    apply List.Forall_forall. intros s Hs.
    apply in_flat_map in Hs as (d & Hd & Hs).
    pose proof (signal_of_bounds session d Hd) as Hb.
    rewrite List.Forall_forall in Hb.
    destruct (Hb s Hs) as (Hlo & Hhi & He & Hl & Hn).
    split; [exact Hlo|]. split; [exact Hhi|]. split; [exact He|].
    split; [exact Hl|].
    rewrite Hn. apply in_map. exact Hd.
Qed.

End StackBounds.

(** ** Outcomes of single fetches *)

Module FetchFacts.

Import JS Types Crawler CrawlSpec RetryFacts CrawlFacts.

Lemma after_inj w evs evs' : after w evs = after w evs' -> evs = evs'.
Proof. unfold after. intros [= _ H]. now apply app_inv_head in H. Qed.

Lemma fetch_count_app evs evs' :
  fetch_count (evs ++ evs') = fetch_count evs + fetch_count evs'.
Proof. unfold fetch_count. now rewrite List.filter_app, length_app. Qed.

Lemma pauses_app ms evs evs' :
  pauses ms (evs ++ evs') = pauses ms evs + pauses ms evs'.
Proof.
  unfold pauses, sleeps. now rewrite flat_map_app, List.filter_app, length_app.
Qed.

Lemma fetched_app evs evs' : fetched (evs ++ evs') = fetched evs ++ fetched evs'.
Proof. unfold fetched. apply flat_map_app. Qed.

Lemma robots_requests_app evs evs' :
  robots_requests (evs ++ evs') = robots_requests evs ++ robots_requests evs'.
Proof. unfold robots_requests. apply flat_map_app. Qed.

(** A delay among the delays of some events is one of the events. *)
Lemma sleeps_split evs d :
  In d (sleeps evs) -> exists pre post, evs = pre ++ EvSleep d :: post.
Proof.
  induction evs as [|e evs IH]; [intros []|].
  destruct e as [u|ms|u]; cbn [sleeps flat_map app].
  - intros Hd. destruct (IH Hd) as (pre & post & ->).
    exists (EvFetch u :: pre), post. reflexivity.
  - intros [<-|Hd]; [exists [], evs; reflexivity|].
    destruct (IH Hd) as (pre & post & ->).
    exists (EvSleep ms :: pre), post. reflexivity.
  - intros Hd. destruct (IH Hd) as (pre & post & ->).
    exists (EvRobots u :: pre), post. reflexivity.
Qed.

(** No delay of [ms] milliseconds among delays that are all longer. *)
Lemma pauses_none ms evs :
  (forall d, In d (sleeps evs) -> ms < d) -> pauses ms evs = 0.
Proof.
  unfold pauses. induction (sleeps evs) as [|d l IH]; intros Hall;
    [reflexivity|].
  cbn [List.filter]. destruct (ms =? d) eqn:E.
  - apply Nat.eqb_eq in E. specialize (Hall d (or_introl eq_refl)). lia.
  - apply IH. intros d' Hd'. apply Hall. right. exact Hd'.
Qed.

Section Fetch.

Variable P : Platform.

(** A fetch with the default three attempts and one-second initial delay:
    its run, and the shape of its events. *)
Lemma fetch_trace url w :
  exists res evs,
    fetchWithRetry P url 3 1000 w = Some (res, after w evs)
    /\ retry_run P url 1000 3 0 w res evs
    /\ 1 <= fetch_count evs <= 3
    /\ pauses 500 evs = 0
    /\ pauses 300 evs = 0
    /\ Forall (eq url) (fetched evs)
    /\ robots_requests evs = [].
Proof.
  destruct (retry_loop_spec P url 3 1000 3 0 None w eq_refl)
    as (res & evs & Hrun & Hspec & _ & (_ & Hall & _) & Hhead).
  unfold fetchWithRetry. exists res, evs. split; [exact Hrun|].
  split; [exact Hspec|].
  destruct Hspec as (Hle & _ & Hwhen & _).
  assert (Hlong : forall d, In d (sleeps evs) -> 1000 <= d).
  { intros d Hd. apply sleeps_split in Hd as (pre & post & He).
    destruct (Hwhen pre d post He) as (a & _ & ->). cbn [Nat.add].
    pose proof (Nat.pow_nonzero 2 a). lia. }
  split.
  { split; [|exact Hle].
    destruct Hhead as (post & ->); [lia|].
    rewrite fetch_count_cons_fetch. lia. }
  split; [apply pauses_none; intros d Hd; apply Hlong in Hd; lia|].
  split; [apply pauses_none; intros d Hd; apply Hlong in Hd; lia|].
  clear - Hall. induction Hall as [|e evs He _ [IHf IHr]];
    [split; [constructor|reflexivity]|].
  destruct e as [u|d|u]; [|split; assumption|destruct He].
  subst u. split; [constructor; [reflexivity|exact IHf]|exact IHr].
Qed.

(** What a page fetch does to the world. *)
Lemma fetchPage_events url w :
  exists result evs,
    fetchPage P url w = Some (result, after w evs)
    /\ cr_url result = url
    /\ 1 <= fetch_count evs <= 3
    /\ pauses 500 evs = 0
    /\ pauses 300 evs = 0
    /\ Forall (eq url) (fetched evs)
    /\ robots_requests evs = [].
Proof.
  destruct (fetch_trace url w)
    as (res & evs & Hrun & _ & Hcount & H5 & H3 & Hf & Hr).
  unfold fetchPage, bind. rewrite Hrun.
  destruct res as [message|[response unread]].
  - eexists. exists evs. split; [reflexivity|]. auto 10.
  - destruct (negb (ok response)).
    + eexists. exists evs. split; [reflexivity|]. auto 10.
    + destruct unread as [message|].
      * eexists. exists evs. split; [reflexivity|]. auto 10.
      * unfold lift.
        destruct (extractLinks_total P (r_body response) (r_url response))
          as (links & ->).
        eexists. exists evs. split; [reflexivity|]. auto 10.
Qed.

(** What a stylesheet fetch does to the world. *)
Lemma fetchCSS_events url w :
  exists css evs,
    fetchCSS P url w = Some (css, after w evs)
    /\ 1 <= fetch_count evs <= 3
    /\ pauses 500 evs = 0
    /\ pauses 300 evs = 0
    /\ Forall (eq url) (fetched evs)
    /\ robots_requests evs = [].
Proof.
  destruct (fetch_trace url w)
    as (res & evs & Hrun & _ & Hcount & H5 & H3 & Hf & Hr).
  unfold fetchCSS, bind. rewrite Hrun.
  destruct res as [message|[response unread]]; [eauto 10|].
  destruct (negb (ok response)); [eauto 10|].
  destruct unread; eauto 10.
Qed.

End Fetch.


(** X16. [fetchCSS] never raises and makes one to three transport calls.
    It returns the body of the last answer exactly when that answer has a
    2xx status and its body was read. In every other case it returns null:
    a status that is not retried, a 2xx answer whose body could not be
    read (no further call is made then), or three retryable calls in a
    row. *)
Theorem fetchCSS_body_or_null (P : Platform) (url : string) (w : World) :
  exists css evs,
    fetchCSS P url w = Some (css, after w evs)
    /\ 1 <= fetch_count evs <= 3
    /\ ((exists j r,
           fetch_count evs = S j
           /\ http P (calls w + j) url = Responded r
           /\ ok r = true
           /\ css = Some (r_body r))
        \/ (css = None
            /\ ((exists j r unread,
                   fetch_count evs = S j
                   /\ resolved (http P (calls w + j) url) = Some (r, unread)
                   /\ ok r = false
                   /\ retryable (http P (calls w + j) url) = false)
                \/ (exists j r message,
                      fetch_count evs = S j
                      /\ http P (calls w + j) url = Unread r message
                      /\ ok r = true)
                \/ (fetch_count evs = 3
                    /\ forall j, j < 3 ->
                         retryable (http P (calls w + j) url) = true)))).
Proof.
  destruct (FetchFacts.fetch_trace P url w)
    as (res & evs & Hrun & Hspec & Hcount & _).
  destruct Hspec as (_ & _ & _ & _ & Hresp & Hfail).
  unfold fetchCSS, bind. rewrite Hrun.
  destruct res as [message|[response unread]].
  - destruct (Hfail message eq_refl) as [Hall Hretry].
    exists None, evs. split; [reflexivity|]. split; [exact Hcount|].
    right. split; [reflexivity|]. right. right. auto.
  - destruct (Hresp (response, unread) eq_refl) as (j & Hj & Ho & Hn).
    destruct (ok response) eqn:Eok; cbn [negb].
    + destruct unread as [message|].
      * exists None, evs. split; [reflexivity|]. split; [exact Hcount|].
        right. split; [reflexivity|]. right. left.
        exists j, response, message. split; [exact Hj|]. split; [|exact Eok].
        destruct (http P (calls w + j) url); simpl in Ho; congruence.
      * eexists. exists evs. split; [reflexivity|]. split; [exact Hcount|].
        left. exists j, response. split; [exact Hj|]. split; [|auto].
        destruct (http P (calls w + j) url); simpl in Ho; congruence.
    + exists None, evs. split; [reflexivity|]. split; [exact Hcount|].
      right. split; [reflexivity|]. left. exists j, response, unread. auto.
Qed.

(** A 2xx answer whose body cannot be read: one call, no retry, status 0
    for the page and null for the stylesheet. *)
Example fetch_of_unread_body :
  (option_map (fun r => (cr_status (fst r), cr_error (fst r), snd r))
     (fetchPage Spec.cut_off Spec.seed world0),
   fetchCSS Spec.cut_off Spec.seed world0)
  = (Some (0, Some "terminated", MkWorld 1 [EvFetch Spec.seed]),
     Some (None, MkWorld 1 [EvFetch Spec.seed])).
Proof. vm_compute. reflexivity. Qed.

End FetchFacts.

(** ** Accounting of a crawl *)

Module AccountFacts.

Import JS Types Crawler CrawlSpec RetryFacts CrawlFacts ContainerFacts FetchFacts.

Lemma trace_ok_nil urls : trace_ok [] urls 0 0.
Proof.
  unfold trace_ok, pauses, fetched, fetch_count. simpl.
  repeat split; try lia. constructor.
Qed.

Lemma trace_ok_app evs evs' urls urls' kp kc kp' kc' :
  trace_ok evs urls kp kc -> trace_ok evs' urls' kp' kc' ->
  trace_ok (evs ++ evs') (urls ++ urls') (kp + kp') (kc + kc').
Proof.
  intros (H1 & H2 & H3 & H4 & H5) (H1' & H2' & H3' & H4' & H5').
  unfold trace_ok.
  rewrite !pauses_app, fetch_count_app, fetched_app, robots_requests_app.
  split; [lia|]. split; [lia|]. split; [lia|].
  split; [|rewrite H5, H5'; reflexivity].
  apply Forall_app. split.
  - eapply List.Forall_impl; [|exact H4]. intros u Hu. apply in_or_app. auto.
  - eapply List.Forall_impl; [|exact H4']. intros u Hu. apply in_or_app. auto.
Qed.

Lemma trace_ok_one url evs ms kp kc :
  1 <= fetch_count evs <= 3 ->
  pauses 500 evs = 0 -> pauses 300 evs = 0 ->
  Forall (eq url) (fetched evs) ->
  robots_requests evs = [] ->
  pauses 500 [EvSleep ms] = kp -> pauses 300 [EvSleep ms] = kc ->
  kp + kc = 1 ->
  trace_ok (evs ++ [EvSleep ms]) [url] kp kc.
Proof.
  intros Hc H5 H3 Hf Hr Hp Hq Hk. unfold trace_ok.
  rewrite !pauses_app, fetch_count_app, fetched_app, robots_requests_app.
  rewrite H5, H3, Hp, Hq, Hr.
  change (fetch_count [EvSleep ms]) with 0. change (fetched [EvSleep ms]) with (@nil string).
  rewrite app_nil_r. split; [reflexivity|]. split; [reflexivity|].
  split; [lia|]. split; [|reflexivity].
  eapply List.Forall_impl; [|exact Hf].
  intros u <-. left. reflexivity.
Qed.

Lemma queue_fold (visited : gset string) links : forall queue u,
  In u (fold_left (fun q link => if decide (link ∈ visited) then q
                                 else q ++ [link]) links queue) ->
  In u queue \/ In u links.
Proof.
  induction links as [|l links IH]; intros queue u; simpl; [auto|].
  intros H. apply IH in H as [H|H]; [|auto].
  destruct (decide (l ∈ visited)); [auto|].
  apply in_app_or in H as [H|[<-|[]]]; auto.
Qed.

Lemma failed_pages_app ps p :
  failed_pages (ps ++ [p]) = failed_pages ps + (if failed_page p then 1 else 0).
Proof.
  unfold failed_pages. rewrite List.filter_app, length_app. simpl.
  destruct (failed_page p); reflexivity.
Qed.

Lemma gathered_links_app ps p :
  gathered_links (ps ++ [p])
  = fold_left (fun acc link => OSet.add link acc) (cssLinks p) (gathered_links ps).
Proof.
  unfold gathered_links. rewrite flat_map_app, fold_left_app. simpl.
  now rewrite app_nil_r.
Qed.

Lemma discovered_more config ps more raw :
  discovered config ps raw -> discovered config (ps ++ more) raw.
Proof.
  intros [H|(q & Hq & Hr)]; [left; exact H|].
  right. exists q. split; [apply in_or_app; auto|exact Hr].
Qed.

Lemma page_ok_more P config ps more p :
  page_ok P config ps p -> page_ok P config (ps ++ more) p.
Proof.
  intros [Hso (raw & Hn & Hd)]. split; [exact Hso|].
  exists raw. split; [exact Hn|apply discovered_more; exact Hd].
Qed.

Lemma omap_has_app {V} k (m m' : OMap.t V) :
  OMap.has k (m ++ m') = OMap.has k m || OMap.has k m'.
Proof.
  induction m as [|[k' v] m IH]; simpl; [reflexivity|].
  now rewrite IH, orb_assoc.
Qed.

Lemma truthy_Some o s : truthy o = Some s -> o = Some s /\ s <> "".
Proof.
  destruct o as [t|]; simpl; [|discriminate].
  destruct (String.eqb_spec t ""); [discriminate|].
  intros [= <-]. auto.
Qed.

Section Account.

Variable P : Platform.

Lemma initial_acct config : page_acct P config (initial config).
Proof.
  unfold page_acct, initial. cbn.
  repeat split; auto.
  constructor; [left; reflexivity|constructor].
Qed.

Lemma crawl_step_acct config st w st' w' :
  crawl_step P config st w = Some (st', w') ->
  page_acct P config st ->
  page_acct P config st'
  /\ exists more evs,
       st_pages st' = st_pages st ++ more
       /\ w' = after w evs
       /\ trace_ok evs (List.map url more) (length more) 0.
Proof.
  intros Hstep (Ht & Hf & Hl & Hc & Hq & Hp & Hs & He).
  unfold crawl_step in Hstep.
  destruct (st_queue st) as [|u queue] eqn:Eq.
  { injection Hstep as <- <-. split.
    - unfold page_acct. rewrite Eq. auto 10.
    - exists [], []. rewrite app_nil_r, after_nil.
      split; [reflexivity|]. split; [reflexivity|apply trace_ok_nil]. }
  assert (Hskip : forall visited,
            page_acct P config
              (MkCrawlState visited queue (st_pages st) (st_cssContents st)
                 (st_allCssLinks st) (st_totalRequests st)
                 (st_failedRequests st))
            /\ exists more evs,
                 st_pages st = st_pages st ++ more
                 /\ w = after w evs
                 /\ trace_ok evs (List.map url more) (length more) 0).
  { intros visited. split.
    - unfold page_acct. cbn.
      split; [exact Ht|]. split; [exact Hf|]. split; [exact Hl|].
      split; [exact Hc|]. split; [inversion Hq; assumption|].
      split; [exact Hp|]. split; [exact Hs|].
      intros Hnil. destruct (He Hnil) as [E|E]; [|discriminate].
      injection E as _ ->. auto.
    - exists [], []. rewrite app_nil_r, after_nil.
      split; [reflexivity|]. split; [reflexivity|apply trace_ok_nil]. }
  destruct (truthy (normalizeUrl P u None)) as [n|] eqn:En;
    [|injection Hstep as <- <-; apply (Hskip (st_visited st))].
  destruct (decide (n ∈ st_visited st)) as [Hin|Hnotin];
    [injection Hstep as <- <-; apply (Hskip (st_visited st))|].
  destruct (sameOriginOnly config
            && negb (isSameOrigin P n (themeUrl config))) eqn:Eso;
    [injection Hstep as <- <-; apply Hskip|].
  unfold bind in Hstep.
  destruct (fetchPage_events P n w)
    as (result & evs & Hfp & Hurl & Hcount & H5 & H3 & Hfe & Hro).
  rewrite Hfp in Hstep. rewrite sleep_after, after_app in Hstep.
  unfold ret in Hstep. injection Hstep as <- <-.
  set (page := page_of P result (after w evs)).
  assert (Hpu : url page = n) by exact Hurl.
  assert (Hu : discovered config (st_pages st) u) by (inversion Hq; assumption).
  split.
  - unfold page_acct. cbn [st_pages st_queue st_cssContents st_allCssLinks
                                st_totalRequests st_failedRequests].
    split; [rewrite length_app; simpl; lia|].
    split.
    { rewrite failed_pages_app. unfold failed_page.
      change (error page) with (cr_error result).
      destruct (truthy (cr_error result)); lia. }
    split; [rewrite gathered_links_app, Hl; reflexivity|].
    split; [exact Hc|].
    split.
    { apply List.Forall_forall. intros x Hx.
      apply queue_fold in Hx as [Hx|Hx].
      - apply discovered_more. inversion Hq as [|? ? _ Hq']; subst.
        rewrite List.Forall_forall in Hq'. apply Hq'. exact Hx.
      - right. exists page. split; [apply in_or_app; right; left; reflexivity|].
        exact Hx. }
    split.
    { apply Forall_app. split.
      - eapply List.Forall_impl; [|exact Hp].
        intros p Hp'. apply page_ok_more. exact Hp'.
      - constructor; [|constructor]. split.
        + intros Hso. rewrite Hso in Eso. simpl in Eso. rewrite Hpu.
          destruct (isSameOrigin P n (themeUrl config));
            [reflexivity|discriminate].
        + exists u. rewrite Hpu. split; [exact En|].
          apply discovered_more. exact Hu. }
    split.
    { unfold starts_at_seed in *. destruct (st_pages st) as [|p0 ps] eqn:Ep.
      - cbn [app]. rewrite Hpu.
        destruct (He eq_refl) as [E|E]; [|discriminate].
        injection E as -> _. exact En.
      - exact Hs. }
    intros Hnil. destruct (st_pages st); discriminate.
  - exists [page], (evs ++ [EvSleep 500]).
    split; [reflexivity|]. split; [reflexivity|].
    cbn [List.map length]. rewrite Hpu. apply trace_ok_one; auto.
Qed.

Lemma crawl_loop_acct config : forall fuel st w st' w',
  crawl_loop fuel P config st w = Some (st', w') ->
  page_acct P config st ->
  page_acct P config st'
  /\ exists more evs,
       st_pages st' = st_pages st ++ more
       /\ w' = after w evs
       /\ trace_ok evs (List.map url more) (length more) 0.
Proof.
  induction fuel as [|fuel IH]; intros st w st' w' Hloop Hacct; [discriminate|].
  cbn [crawl_loop] in Hloop. destruct (crawl_cond config st).
  - unfold bind in Hloop.
    destruct (crawl_step P config st w) as [[st1 w1]|] eqn:Hstep; [|discriminate].
    destruct (crawl_step_acct _ _ _ _ _ Hstep Hacct)
      as (Hacct1 & more1 & evs1 & Hp1 & Hw1 & Ht1).
    destruct (IH _ _ _ _ Hloop Hacct1)
      as (Hacct' & more2 & evs2 & Hp2 & Hw2 & Ht2).
    split; [exact Hacct'|].
    exists (more1 ++ more2), (evs1 ++ evs2).
    split; [rewrite Hp2, Hp1, app_assoc; reflexivity|].
    split; [rewrite Hw2, Hw1, after_app; reflexivity|].
    rewrite map_app, length_app.
    apply (trace_ok_app _ _ _ _ _ 0 _ 0 Ht1 Ht2).
  - injection Hloop as <- <-. split; [exact Hacct|].
    exists [], []. rewrite app_nil_r, after_nil.
    split; [reflexivity|]. split; [reflexivity|apply trace_ok_nil].
Qed.

Lemma asset_pass_acct : forall urls st w st' w',
  asset_pass P urls st w = Some (st', w') ->
  List.NoDup urls ->
  (forall u, In u urls -> OMap.has u (st_cssContents st) = false) ->
  st_pages st' = st_pages st
  /\ st_totalRequests st' = st_totalRequests st + length urls
  /\ exists added evs,
       st_cssContents st' = st_cssContents st ++ added
       /\ st_failedRequests st' + length added
          = st_failedRequests st + length urls
       /\ sublist (List.map fst added) urls
       /\ Forall (fun e => snd e <> "") added
       /\ w' = after w evs
       /\ trace_ok evs urls 0 (length urls).
Proof.
  induction urls as [|cssUrl urls IH]; intros st w st' w' Hpass Hnd Hnew.
  - injection Hpass as <- <-. split; [reflexivity|]. split; [simpl; lia|].
    exists [], []. rewrite app_nil_r, after_nil.
    split; [reflexivity|]. split; [simpl; lia|]. split; [constructor|].
    split; [constructor|]. split; [reflexivity|apply trace_ok_nil].
  - cbn [asset_pass] in Hpass. unfold bind at 1 in Hpass.
    unfold asset_step in Hpass. unfold bind at 1 in Hpass.
    destruct (fetchCSS_events P cssUrl w)
      as (css & evs & Hfc & Hcount & H5 & H3 & Hfe & Hro).
    rewrite Hfc in Hpass. unfold bind at 1 in Hpass.
    rewrite sleep_after, after_app in Hpass. unfold ret at 1 in Hpass.
    inversion Hnd as [|? ? Hfresh Hnd']; subst.
    assert (Htr : trace_ok (evs ++ [EvSleep 300]) [cssUrl] 0 1)
      by (apply trace_ok_one; auto).
    destruct (truthy css) as [text|] eqn:Ecss.
    + apply truthy_Some in Ecss as [-> Htext].
      assert (Hset : OMap.set cssUrl text (st_cssContents st)
                     = st_cssContents st ++ [(cssUrl, text)]).
      { apply omap_set_new. apply Hnew. left. reflexivity. }
      apply IH in Hpass as (Hp & Ht & added & evs' & Hc & Hf & Hs & Hne & Hw & Htr');
        [|exact Hnd'|].
      * cbn [st_pages st_totalRequests st_cssContents st_failedRequests] in *.
        split; [exact Hp|]. split; [simpl; lia|].
        exists ((cssUrl, text) :: added), ((evs ++ [EvSleep 300]) ++ evs').
        split; [rewrite Hc, Hset, <- app_assoc; reflexivity|].
        split; [simpl; lia|].
        split; [simpl; apply sublist_skip; exact Hs|].
        split; [constructor; [exact Htext|exact Hne]|].
        split; [rewrite Hw, after_app; reflexivity|].
        apply (trace_ok_app _ _ [cssUrl] urls 0 1 0 (length urls) Htr Htr').
      * cbn [st_cssContents]. intros u Hu. rewrite Hset, omap_has_app.
        rewrite (Hnew u (or_intror Hu)). simpl.
        destruct (String.eqb_spec u cssUrl) as [->|_]; [contradiction|reflexivity].
    + apply IH in Hpass as (Hp & Ht & added & evs' & Hc & Hf & Hs & Hne & Hw & Htr');
        [|exact Hnd'|].
      * cbn [st_pages st_totalRequests st_cssContents st_failedRequests] in *.
        split; [exact Hp|]. split; [simpl; lia|].
        exists added, ((evs ++ [EvSleep 300]) ++ evs').
        split; [exact Hc|]. split; [simpl; lia|].
        split; [apply sublist_cons; exact Hs|].
        split; [exact Hne|].
        split; [rewrite Hw, after_app; reflexivity|].
        apply (trace_ok_app _ _ [cssUrl] urls 0 1 0 (length urls) Htr Htr').
      * cbn [st_cssContents]. intros u Hu. apply Hnew. right. exact Hu.
Qed.

Lemma crawl_account fuel config w0 sess w :
  crawl fuel P config w0 = Some (sess, w) ->
  let L := asset_urls config (pages sess) in
  Forall (page_ok P config (pages sess)) (pages sess)
  /\ starts_at_seed P config (pages sess)
  /\ totalRequests sess = length (pages sess) + length L
  /\ failedRequests sess + length (cssContents sess)
     = failed_pages (pages sess) + length L
  /\ sublist (OMap.keys (cssContents sess)) L
  /\ Forall (fun e => snd e <> "") (cssContents sess)
  /\ exists evs,
       w = after w0 (robots_events P (themeUrl config) ++ evs)
       /\ trace_ok evs (List.map url (pages sess) ++ L)
            (length (pages sess)) (length L).
Proof.
  intros Hcrawl. unfold crawl, bind, request_robots in Hcrawl.
  assert (Hstart : MkWorld (calls w0)
                     (trace w0 ++ robots_events P (themeUrl config))
                   = after w0 (robots_events P (themeUrl config))).
  { unfold after, robots_events, fetch_count.
    destruct (truthy (getOrigin P (themeUrl config))); simpl;
      f_equal; lia. }
  rewrite Hstart in Hcrawl.
  destruct (crawl_loop fuel P config (initial config) _) as [[st w1]|] eqn:Hloop;
    [|discriminate].
  destruct (crawl_loop_acct _ _ _ _ _ _ Hloop (initial_acct config))
    as ((Ht & Hf & Hl & Hc & _ & Hp & Hs & _) & more & evs & Hmore & Hw1 & Htr).
  simpl in Hmore. subst more.
  unfold asset_urls. destruct (includeAssets config).
  - destruct (asset_pass P (st_allCssLinks st) st w1) as [[st2 w2]|] eqn:Hpass;
      [|discriminate].
    injection Hcrawl as <- <-.
    apply asset_pass_acct in Hpass
      as (Hp2 & Ht2 & added & evs' & Hc2 & Hf2 & Hsub & Hne & Hw2 & Htr').
    + cbn [pages totalRequests failedRequests cssContents session_of].
      rewrite Hc in Hc2. simpl in Hc2. rewrite Hp2, Hc2, <- Hl.
      split; [exact Hp|]. split; [exact Hs|]. split; [lia|]. split; [lia|].
      split; [exact Hsub|]. split; [exact Hne|].
      exists (evs ++ evs').
      split; [rewrite Hw2, Hw1, !after_app, app_assoc; reflexivity|].
      replace (length (st_pages st))
        with (length (st_pages st) + 0) at 1 by lia.
      apply (trace_ok_app _ _ _ _ _ 0 0 _ Htr Htr').
    + rewrite Hl. apply oset_fold_NoDup. constructor.
    + intros u _. rewrite Hc. reflexivity.
  - unfold ret in Hcrawl. injection Hcrawl as <- <-.
    cbn [pages totalRequests failedRequests cssContents session_of].
    rewrite Hc. simpl.
    split; [exact Hp|]. split; [exact Hs|]. split; [lia|]. split; [lia|].
    split; [constructor|]. split; [constructor|].
    exists evs. split; [rewrite Hw1, after_app; reflexivity|].
    rewrite app_nil_r. exact Htr.
Qed.

End Account.

(** X17. The request counters of a crawl add up. Every page of the session
    was one request, and every stylesheet URL gathered from the pages was
    one more when assets are included (none otherwise). A request is counted
    as failed exactly when it is a page with a non-empty error or a
    stylesheet that got no entry in the map, so failed requests plus stored
    stylesheets equal failed pages plus stylesheet URLs; in particular
    failures never exceed requests. The keys of the stylesheet map are
    gathered URLs in gathering order, and no stored text is empty: a
    stylesheet answered with an empty body is counted as failed. *)
Theorem crawl_counters_add_up
    (P : Platform) (fuel : nat) (config : ExtractorConfig) (w0 w : World)
    (sess : CrawlSession) :
  crawl fuel P config w0 = Some (sess, w) ->
  let L := asset_urls config (pages sess) in
  totalRequests sess = length (pages sess) + length L
  /\ failedRequests sess + length (cssContents sess)
     = failed_pages (pages sess) + length L
  /\ failedRequests sess <= totalRequests sess
  /\ sublist (OMap.keys (cssContents sess)) L
  /\ Forall (fun e => snd e <> "") (cssContents sess)
  /\ (includeAssets config = false ->
      cssContents sess = [] /\ totalRequests sess = length (pages sess)).
Proof.
  intros Hcrawl L.
  destruct (crawl_account P fuel config w0 sess w Hcrawl)
    as (_ & _ & Ht & Hf & Hsub & Hne & _).
  fold L in Ht, Hf, Hsub.
  split; [exact Ht|]. split; [exact Hf|]. split.
  { assert (failed_pages (pages sess) <= length (pages sess))
      by apply filter_length_le.
    lia. }
  split; [exact Hsub|]. split; [exact Hne|].
  intros Hno. unfold L, asset_urls in *. rewrite Hno in *.
  apply sublist_nil_r in Hsub.
  split; [|simpl in Ht; lia].
  destruct (cssContents sess); [reflexivity|discriminate].
Qed.

(** An instance: the crawl of the toy site. *)
Lemma crawl_counters_add_up_witness :
  exists sess w,
    crawl 5 Spec.toy Spec.toy_config world0 = Some (sess, w)
    /\ failedRequests sess <= totalRequests sess.
Proof.
  destruct (crawl 5 Spec.toy Spec.toy_config world0) as [[sess w]|] eqn:E;
    [|vm_compute in E; discriminate].
  exists sess, w. split; [reflexivity|].
  destruct (crawl_counters_add_up Spec.toy 5 Spec.toy_config world0 w sess E)
    as (_ & _ & Hle & _).
  exact Hle.
Defined.

(** X18. The pages of a session are the seed and pages linked from it:
    the first page, if there is one, was fetched for the normalized theme
    URL, and every page was fetched for the normalized form of the theme
    URL or of an internal link found on a page of the session. With
    [sameOriginOnly] set, the URL each page was fetched for has the origin
    of the theme URL. *)
Theorem crawl_pages_are_discovered
    (P : Platform) (fuel : nat) (config : ExtractorConfig) (w0 w : World)
    (sess : CrawlSession) :
  crawl fuel P config w0 = Some (sess, w) ->
  starts_at_seed P config (pages sess)
  /\ Forall (fun p =>
               (sameOriginOnly config = true ->
                isSameOrigin P (url p) (themeUrl config) = true)
               /\ exists raw,
                    truthy (normalizeUrl P raw None) = Some (url p)
                    /\ (raw = themeUrl config
                        \/ exists q, In q (pages sess)
                                     /\ In raw (internalLinks q)))
            (pages sess).
Proof.
  intros Hcrawl.
  destruct (crawl_account P fuel config w0 sess w Hcrawl) as (Hp & Hs & _).
  split; [exact Hs|exact Hp].
Qed.

(** An instance: the crawl of the toy site starts at the seed. *)
Lemma crawl_pages_are_discovered_witness :
  exists sess w,
    crawl 5 Spec.toy Spec.toy_config world0 = Some (sess, w)
    /\ starts_at_seed Spec.toy Spec.toy_config (pages sess).
Proof.
  destruct (crawl 5 Spec.toy Spec.toy_config world0) as [[sess w]|] eqn:E;
    [|vm_compute in E; discriminate].
  exists sess, w. split; [reflexivity|].
  exact (proj1 (crawl_pages_are_discovered
                  Spec.toy 5 Spec.toy_config world0 w sess E)).
Defined.

(** X19. What a crawl does to the outside world. It starts with the one
    request for robots.txt at the origin of the theme URL (none when that
    origin does not parse) and requests robots.txt never again. After
    that it pauses 500 ms once per page and 300 ms once per stylesheet
    request, and no retry delay is mistaken for either; it makes at least
    one and at most three transport calls per counted request, so with the
    robots.txt request at most one more than three times the counted
    requests; and apart from robots.txt it calls no URL other than those
    its pages were fetched for and the stylesheet URLs gathered from
    them. *)
Theorem crawl_is_polite
    (P : Platform) (fuel : nat) (config : ExtractorConfig) (w0 w : World)
    (sess : CrawlSession) :
  crawl fuel P config w0 = Some (sess, w) ->
  exists evs,
    w = after w0
          (match truthy (getOrigin P (themeUrl config)) with
           | Some origin => [EvRobots (origin +:+ "/robots.txt")]
           | None => []
           end ++ evs)
    /\ robots_requests evs = []
    /\ pauses 500 evs = length (pages sess)
    /\ pauses 300 evs = totalRequests sess - length (pages sess)
    /\ totalRequests sess <= fetch_count evs <= 3 * totalRequests sess
    /\ transport_calls (skipn (length (trace w0)) (trace w))
       <= S (3 * totalRequests sess)
    /\ Forall (fun u => In u (List.map url (pages sess))
                        \/ In u (asset_urls config (pages sess)))
              (fetched evs).
Proof.
  intros Hcrawl.
  destruct (crawl_account P fuel config w0 sess w Hcrawl)
    as (_ & _ & Ht & _ & _ & _ & evs & Hw & H5 & H3 & Hc & Hf & Hr).
  exists evs. split; [exact Hw|]. split; [exact Hr|]. split; [exact H5|].
  split; [rewrite H3; lia|]. split; [rewrite Ht; exact Hc|].
  split.
  { rewrite Hw. unfold after. cbn [trace].
    rewrite skipn_app, skipn_all, Nat.sub_diag, skipn_O. cbn [app].
    unfold transport_calls.
    rewrite fetch_count_app, robots_requests_app, Hr, app_nil_r.
    unfold robots_events.
    destruct (truthy (getOrigin P (themeUrl config))); cbn; lia. }
  eapply List.Forall_impl; [|exact Hf].
  intros u Hu. apply in_app_or. exact Hu.
Qed.

(** An instance: the crawl of the toy site. *)
Lemma crawl_is_polite_witness :
  exists sess w,
    crawl 5 Spec.toy Spec.toy_config world0 = Some (sess, w)
    /\ robots_requests (trace w) = ["https://a.test/robots.txt"]
    /\ transport_calls (trace w) <= S (3 * totalRequests sess).
Proof.
  destruct (crawl 5 Spec.toy Spec.toy_config world0) as [[sess w]|] eqn:E;
    [|vm_compute in E; discriminate].
  exists sess, w. split; [reflexivity|].
  destruct (crawl_is_polite Spec.toy 5 Spec.toy_config world0 w sess E)
    as (evs & -> & Hr & _ & _ & _ & Hle & _).
  split; [|exact Hle].
  unfold after. cbn [trace world0 app].
  rewrite robots_requests_app, Hr. reflexivity.
Defined.

End AccountFacts.

(** ** Link extraction *)

Module LinkFacts.

Import JS Types Crawler LoopFacts ContainerFacts.

Ltac loop_ends :=
  rewrite while_exec_fold by (reflexivity || (vm_compute; lia)).

Lemma oset_add_Forall (Q : string -> Prop) x s :
  Forall Q s -> Q x -> Forall Q (OSet.add x s).
Proof.
  intros Hs Hx. unfold OSet.add. destruct (OSet.has x s); [exact Hs|].
  apply Forall_app. split; [exact Hs|]. constructor; [exact Hx|constructor].
Qed.

(** A loop whose every turn leaves the set alone or adds one member. *)
Lemma oset_guarded_fold {M} (Q : string -> Prop) (step : M -> OSet.t -> OSet.t) :
  (forall m s, step m s = s \/ exists x, Q x /\ step m s = OSet.add x s) ->
  forall ms s,
    List.NoDup s -> Forall Q s ->
    List.NoDup (fold_left (fun a m => step m a) ms s)
    /\ Forall Q (fold_left (fun a m => step m a) ms s).
Proof.
  intros Hstep. induction ms as [|m ms IH]; intros s Hnd HQ; simpl; [auto|].
  destruct (Hstep m s) as [->|(x & Hx & ->)]; [apply IH; assumption|].
  apply IH; [apply oset_add_NoDup; exact Hnd|apply oset_add_Forall; assumption].
Qed.

Section Links.

Variables (P : Platform) (html baseUrl : string).

(** A member of a link set: a non-empty URL obtained by resolving some
    reference against the base URL. *)
Local Abbreviation resolved :=
  (fun l => exists raw, truthy (normalizeUrl P raw (Some baseUrl)) = Some l).

Lemma add_normalized_step raw s :
  add_normalized P raw baseUrl s = s
  \/ exists x, resolved x /\ add_normalized P raw baseUrl s = OSet.add x s.
Proof.
  unfold add_normalized.
  destruct (truthy (normalizeUrl P raw (Some baseUrl))) as [n|] eqn:E;
    [|left; reflexivity].
  right. exists n. split; [exists raw; exact E|reflexivity].
Qed.

Lemma link_step_step m s :
  link_step P html baseUrl m s = s
  \/ exists x, resolved x /\ link_step P html baseUrl m s = OSet.add x s.
Proof.
  unfold link_step.
  destruct (fst (exec hrefRegex (matched html m) 0)) as [hrefMatch|];
    [apply add_normalized_step|left; reflexivity].
Qed.

Lemma style_fold_links : forall ms (cssLinks : OSet.t),
  List.NoDup cssLinks -> Forall resolved cssLinks ->
  exists cssLinks' : OSet.t,
    fold_left (fun a m => style_step P html baseUrl m a) ms (Some cssLinks)
    = Some cssLinks'
    /\ List.NoDup cssLinks' /\ Forall resolved cssLinks'.
Proof.
  induction ms as [|m ms IH]; intros cssLinks Hnd HQ; simpl; [eauto|].
  loop_ends.
  destruct (oset_guarded_fold resolved
              (fun importMatch acc =>
                 add_normalized P
                   (group_or_empty (group_or_empty html m 1) importMatch 1)
                   baseUrl acc)
              (fun m' s => add_normalized_step _ s)
              (Extract.successive_matches importRegex (group_or_empty html m 1))
              cssLinks Hnd HQ) as [Hnd' HQ'].
  apply IH; assumption.
Qed.

Lemma anchor_step_step m s :
  anchor_step P html baseUrl m s = s
  \/ exists x,
       (exists raw normalized,
          test0 skipRegex raw = false
          /\ truthy (normalizeUrl P raw (Some baseUrl)) = Some normalized
          /\ isSameOrigin P normalized baseUrl = true
          /\ url_strip P normalized = Some x)
       /\ anchor_step P html baseUrl m s = OSet.add x s.
Proof.
  unfold anchor_step.
  destruct (test0 skipRegex (group_or_empty html m 1)) eqn:Eskip;
    [left; reflexivity|].
  destruct (truthy (normalizeUrl P (group_or_empty html m 1) (Some baseUrl)))
    as [n|] eqn:En; [|left; reflexivity].
  destruct (isSameOrigin P n baseUrl) eqn:Eso; [|left; reflexivity].
  destruct (url_strip P n) as [stripped|] eqn:Es; [|left; reflexivity].
  right. exists stripped. split; [|reflexivity].
  exists (group_or_empty html m 1), n. auto.
Qed.

(** X20. [extractLinks] returns for every markup and base URL. Each of its
    three lists is free of repetitions. Every stylesheet and script link is
    a non-empty URL obtained by resolving a reference against the base URL;
    every internal link comes from a reference that does not start with
    [mailto:], [tel:], [javascript:], [data:] or [#], resolves to a URL of
    the origin of the base URL, and is that URL with query and fragment
    removed. *)
Theorem extractLinks_gives_distinct_resolved_links :
  exists links,
    extractLinks P html baseUrl = Some links
    /\ List.NoDup (l_cssLinks links)
    /\ List.NoDup (l_jsLinks links)
    /\ List.NoDup (l_internalLinks links)
    /\ Forall (fun l => exists raw,
                 truthy (normalizeUrl P raw (Some baseUrl)) = Some l)
              (l_cssLinks links)
    /\ Forall (fun l => exists raw,
                 truthy (normalizeUrl P raw (Some baseUrl)) = Some l)
              (l_jsLinks links)
    /\ Forall (fun l => exists raw normalized,
                 test0 skipRegex raw = false
                 /\ truthy (normalizeUrl P raw (Some baseUrl)) = Some normalized
                 /\ isSameOrigin P normalized baseUrl = true
                 /\ url_strip P normalized = Some l)
              (l_internalLinks links).
Proof.
  unfold extractLinks. do 3 loop_ends.
  destruct (oset_guarded_fold resolved (link_step P html baseUrl)
              link_step_step
              (Extract.successive_matches stylesheetRegex html) []
              (List.NoDup_nil _) (List.Forall_nil _)) as [Hnd1 HQ1].
  destruct (oset_guarded_fold resolved (link_step P html baseUrl)
              link_step_step
              (Extract.successive_matches linkTypeRegex html) _ Hnd1 HQ1)
    as [Hnd2 HQ2].
  destruct (style_fold_links (Extract.successive_matches styleTagRegex html)
              _ Hnd2 HQ2) as (css & -> & Hnd3 & HQ3).
  do 2 loop_ends.
  destruct (oset_guarded_fold resolved
              (fun m jsLinks =>
                 add_normalized P (group_or_empty html m 1) baseUrl jsLinks)
              (fun m s => add_normalized_step _ s)
              (Extract.successive_matches scriptRegex html) []
              (List.NoDup_nil _) (List.Forall_nil _)) as [Hnd4 HQ4].
  destruct (oset_guarded_fold _ (anchor_step P html baseUrl)
              anchor_step_step
              (Extract.successive_matches anchorRegex html) []
              (List.NoDup_nil _) (List.Forall_nil _)) as [Hnd5 HQ5].
  eexists. split; [reflexivity|]. cbn [l_cssLinks l_jsLinks l_internalLinks].
  auto 10.
Qed.

End Links.

End LinkFacts.

(** ** The robots verdict, the other way round *)

Module RobotsSound.

Import JS Types Crawler RobotsFacts.

Lemma scan_robots_sound : forall lines inBlock,
  rc_allowed (scan_robots lines inBlock) = false ->
  (inBlock = true
   /\ exists mid dis post,
        lines = mid ++ dis :: post
        /\ Forall (fun l => is_agent_line l = false) mid
        /\ is_root_disallow dis = true)
  \/ (exists pre ua mid dis post,
        lines = pre ++ ua :: mid ++ dis :: post
        /\ names_crawler ua = true
        /\ Forall (fun l => is_agent_line l = false) mid
        /\ is_root_disallow dis = true).
Proof.
  induction lines as [|line tl IH]; intros inBlock Hblocked; [discriminate|].
  cbn [scan_robots] in Hblocked.
  change (toLowerCase (trim line)) with (norm_line line) in Hblocked.
  assert (Hrest : forall b,
            (b = true -> inBlock = true) ->
            is_agent_line line = false ->
            rc_allowed (scan_robots tl b) = false ->
            (inBlock = true
             /\ exists mid dis post,
                  line :: tl = mid ++ dis :: post
                  /\ Forall (fun l => is_agent_line l = false) mid
                  /\ is_root_disallow dis = true)
            \/ (exists pre ua mid dis post,
                  line :: tl = pre ++ ua :: mid ++ dis :: post
                  /\ names_crawler ua = true
                  /\ Forall (fun l => is_agent_line l = false) mid
                  /\ is_root_disallow dis = true)).
  { intros b Hb Hline H. apply IH in H as [[Hin (mid & dis & post & -> & Hmid & Hdis)]
                                          |(pre & ua & mid & dis & post & -> & Hua & Hmid & Hdis)].
    - left. split; [auto|]. exists (line :: mid), dis, post.
      split; [reflexivity|]. split; [constructor; assumption|exact Hdis].
    - right. exists (line :: pre), ua, mid, dis, post. auto. }
  destruct (startsWith "user-agent:" (norm_line line)) eqn:Eagent.
  - change (trim (replace_first "user-agent:" (norm_line line)))
      with (agent_of line) in Hblocked.
    apply IH in Hblocked
      as [[Hin (mid & dis & post & -> & Hmid & Hdis)]
         |(pre & ua & mid & dis & post & -> & Hua & Hmid & Hdis)].
    + right. exists [], line, mid, dis, post. split; [reflexivity|].
      split; [|auto]. unfold names_crawler, is_agent_line.
      rewrite Eagent, Hin. reflexivity.
    + right. exists (line :: pre), ua, mid, dis, post. auto.
  - destruct (inBlock && startsWith "disallow:" (norm_line line)) eqn:Edis;
      [|apply (Hrest inBlock); auto].
    change (trim (replace_first "disallow:" (norm_line line)))
      with (disallow_path line) in Hblocked.
    destruct (String.eqb (disallow_path line) "/"
              || String.eqb (disallow_path line) "/*") eqn:Eroot;
      [|apply (Hrest inBlock); auto].
    apply andb_true_iff in Edis as [Hin Hstart].
    left. split; [exact Hin|]. exists [], line, tl.
    split; [reflexivity|]. split; [constructor|].
    unfold is_root_disallow, is_agent_line. rewrite Eagent, Hstart, Eroot.
    reflexivity.
Qed.

(** X21. The robots check answers "blocked" only when it has good reason
    to: the theme URL has an origin, the robots.txt of that origin was
    answered with a 2xx status, and its text holds a user-agent line for
    every crawler ([*]) or for a bot, followed, with no other user-agent
    line in between, by a [Disallow: /] or [Disallow: /*] line. The
    warning then names the path. *)
Theorem robots_blocks_only_on_root_disallow (P : Platform) (baseUrl : string) :
  rc_allowed (checkRobotsTxt P baseUrl) = false ->
  exists origin r pre ua mid dis post,
    truthy (getOrigin P baseUrl) = Some origin
    /\ http_robots P (origin +:+ "/robots.txt") = Responded r
    /\ ok r = true
    /\ split LF (r_body r) = pre ++ ua :: mid ++ dis :: post
    /\ names_crawler ua = true
    /\ Forall (fun l => is_agent_line l = false) mid
    /\ is_root_disallow dis = true
    /\ is_blocked (checkRobotsTxt P baseUrl).
Proof.
  intros Hblocked.
  assert (Hsame : checkRobotsTxt P baseUrl = checkRobotsTxt P baseUrl)
    by reflexivity.
  unfold checkRobotsTxt at 2 in Hsame. unfold checkRobotsTxt in Hblocked.
  destruct (truthy (getOrigin P baseUrl)) as [origin|] eqn:Eo; [|discriminate].
  destruct (http_robots P (origin +:+ "/robots.txt"))
    as [r|message|r message] eqn:Er;
    [|discriminate|destruct (negb (ok r)); discriminate].
  destruct (ok r) eqn:Eok; [|discriminate]. cbn [negb] in *.
  apply scan_robots_sound in Hblocked
    as [[Hin _]|(pre & ua & mid & dis & post & Hsplit & Hua & Hmid & Hdis)];
    [discriminate|].
  exists origin, r, pre, ua, mid, dis, post.
  split; [reflexivity|]. split; [exact Er|]. split; [exact Eok|].
  split; [exact Hsplit|]. split; [exact Hua|]. split; [exact Hmid|].
  split; [exact Hdis|]. rewrite Hsame, Hsplit.
  apply scan_robots_blocked; assumption.
Qed.

(** An instance: the robots.txt of the toy site. *)
Lemma robots_blocks_only_on_root_disallow_witness :
  exists origin r,
    truthy (getOrigin Spec.toy Spec.seed) = Some origin
    /\ http_robots Spec.toy (origin +:+ "/robots.txt") = Responded r
    /\ ok r = true.
Proof.
  destruct (robots_blocks_only_on_root_disallow Spec.toy Spec.seed)
    as (origin & r & _ & _ & _ & _ & _ & Ho & Hr & Hok & _);
    [vm_compute; reflexivity|].
  exists origin, r. auto.
Defined.

End RobotsSound.

(** ** The theme report *)

Module FormatFacts.

Import JS Types Extract Tokens TokenSpec Format SortFacts StackFacts.

Lemma states_of_sublist p : sublist (states_of p) ["hover"; "focus"; "active"].
Proof.
  unfold states_of.
  destruct (hasHoverState p), (hasFocusState p), (hasActiveState p); simpl;
    repeat (apply sublist_skip || apply sublist_cons || apply sublist_nil).
Qed.

Lemma top_signal_is_most_confident session top rest :
  detectStack session = top :: rest ->
  Forall (fun s => fle (sig_confidence s) (sig_confidence top) = true) rest.
Proof.
  intros Hd.
  pose proof (detectStack_sorted session) as Hs. rewrite Hd in Hs.
  apply StronglySorted_inv in Hs as [_ Hs]. exact Hs.
Qed.

(** X22. The report made from the result of [extract]. It counts the pages
    of the session; it names at most five primary fonts, pairwise distinct;
    every component summary has between one and five classes and its states
    are among hover, focus, active, in that order. The recommended approach
    is chosen by the name of the first stack signal alone, which is a
    signal of the highest confidence of all, as numbers compare; without
    any signal it is the standard text. *)
Theorem report_follows_the_most_confident_signal
    (now : string) (session : CrawlSession) (g : Globals)
    (config : ExtractorConfig) :
  exists r g',
    extract session g = Some (r, g')
    /\ let report := generateThemeReport now session r config in
       pagesCrawled (meta report) = length (pages session)
       /\ length (primaryFonts (typographySummary report)) <= 5
       /\ List.NoDup (primaryFonts (typographySummary report))
       /\ Forall (fun c => sublist (states c) ["hover"; "focus"; "active"]
                           /\ 1 <= length (classes c) <= 5)
                 (report_componentPatterns report)
       /\ (detectStack session = [] ->
           recommendedApproach report = standard_approach)
       /\ (forall top rest,
             detectStack session = top :: rest ->
             recommendedApproach report = approach_for (sig_name top)
             /\ Forall (fun s => fle (sig_confidence s) (sig_confidence top)
                                 = true)
                       rest).
Proof.
  destruct (ExtractFacts.extract_spec session g)
    as (scale & patterns & info & all & Hs & Hp & Hi & He).
  do 2 eexists. split; [exact He|].
  cbv zeta. unfold generateThemeReport.
  cbn [meta pagesCrawled typographySummary primaryFonts report_componentPatterns
       recommendedApproach stackSignals typographyScale
       Tokens.componentPatterns].
  split; [reflexivity|].
  destruct (ScaleFacts.extractTypographyScale_fonts session)
    as (scale' & seen & Hs' & Hkeys & Hnd & _).
  rewrite Hs in Hs'. injection Hs' as <-. rewrite <- Hkeys in Hnd.
  destruct (PatternFacts.component_fold session
              (join nl (OMap.values (cssContents session)))
              Extract.componentPatterns [] PatternFacts.table_patterns_progress)
    as (patterns' & Hp' & _ & Hall).
  change (detectComponentPatterns session = Some patterns') in Hp'.
  rewrite Hp in Hp'. injection Hp' as <-.
  split; [rewrite length_map, length_firstn; lia|].
  split.
  { rewrite <- firstn_map. apply NoDup_ListNoDup.
    eapply sublist_NoDup; [|apply sublist_take].
    apply NoDup_ListNoDup. exact Hnd. }
  split.
  { apply List.Forall_forall. intros c Hc.
    apply in_map_iff in Hc as (p & <- & Hin).
    rewrite List.Forall_forall in Hall.
    destruct (Hall p Hin) as (_ & Hne & Hle & _).
    cbn [states classes]. split; [apply states_of_sublist|].
    destruct (classPatterns p); [congruence|simpl in *; lia]. }
  split.
  { intros ->. reflexivity. }
  intros top rest Hd. rewrite Hd. split; [reflexivity|].
  apply (top_signal_is_most_confident session top rest Hd).
Qed.

(** A page with two Next.js fingerprints of weights 0.7 and 0.6 and one
    shadcn/ui fingerprint of weight 0.8: the shadcn/ui signal comes first
    (0.7 + 0.1 is a number below 0.8) and the report follows it. *)
Example report_of_radix_session :
  option_map (fun r => recommendedApproach
                         (generateThemeReport "" Spec.radix_session (fst r)
                            Spec.toy_config))
             (extract Spec.radix_session fresh)
  = Some shadcn_approach.
Proof. vm_compute. reflexivity. Qed.

End FormatFacts.

(** ** Input validation *)

Module OrchestratorFacts.

Import JS Orchestrator AccessibilityFacts.

Lemma is_member_2 x a b :
  is_member x [a; b] = true <-> x = a \/ x = b.
Proof.
  unfold is_member. simpl. rewrite !orb_true_iff, !String.eqb_eq.
  intuition discriminate.
Qed.

Lemma is_member_3 x a b c :
  is_member x [a; b; c] = true <-> x = a \/ x = b \/ x = c.
Proof.
  unfold is_member. simpl. rewrite !orb_true_iff, !String.eqb_eq.
  intuition discriminate.
Qed.

Lemma within_bounds n :
  num_lt n 1 || num_gt n 20 = false
  <-> n = NaN \/ exists q, n = Fin q /\ (1 <= q <= 20)%Q.
Proof.
  assert (Hf : forall x y, Qgtb x y = false <-> (x <= y)%Q).
  { intros x y. split.
    - intros H. destruct (Qlt_le_dec y x) as [Hlt|Hle]; [|exact Hle].
      apply Qgtb_lt in Hlt. congruence.
    - intros H. destruct (Qgtb x y) eqn:E; [|reflexivity].
      apply Qgtb_lt in E. exfalso. apply (Qlt_not_le _ _ E H). }
  destruct n as [|q| |]; simpl.
  - split; auto.
  - rewrite orb_false_iff, !Hf. split.
    + intros [H1 H2]. right. exists q. auto.
    + intros [H|(q' & [= <-] & H)]; [discriminate|exact H].
  - split; [discriminate|]. intros [H|(q & H & _)]; discriminate.
  - split; [discriminate|]. intros [H|(q & H & _)]; discriminate.
Qed.

Lemma validateInput_groups protocol_of input :
  validateInput protocol_of input
  = MkValidation
      (length (url_errors protocol_of input ++ pages_errors input
               ++ mode_errors input) =? 0)
      (url_errors protocol_of input ++ pages_errors input ++ mode_errors input).
Proof.
  unfold validateInput, url_errors, pages_errors, mode_errors.
  destruct (String.eqb (in_themeUrl input) "");
    [|destruct (protocol_of (in_themeUrl input)) as [p|];
      [destruct (negb (is_member p ["http:"; "https:"]))|]];
    (destruct (in_maxPages input) as [n|];
     [destruct (num_lt n 1 || num_gt n 20)|]);
    (destruct (in_mode input) as [m|];
     [destruct (negb (is_member m ["extract"; "prompt"; "both"]))|]);
    reflexivity.
Qed.

Lemma url_errors_none protocol_of input :
  url_errors protocol_of input = []
  <-> in_themeUrl input <> ""
      /\ (protocol_of (in_themeUrl input) = Some "http:"
          \/ protocol_of (in_themeUrl input) = Some "https:").
Proof.
  unfold url_errors.
  destruct (String.eqb_spec (in_themeUrl input) "") as [Hu|Hu].
  - split; [discriminate|]. intros [H _]. contradiction.
  - destruct (protocol_of (in_themeUrl input)) as [p|].
    + destruct (is_member p ["http:"; "https:"]) eqn:Em; cbn [negb].
      * apply is_member_2 in Em. split; [|reflexivity].
        intros _. split; [exact Hu|]. destruct Em as [->| ->]; auto.
      * split; [discriminate|]. intros [_ H].
        assert (is_member p ["http:"; "https:"] = true)
          by (apply is_member_2; destruct H as [[= ->]|[= ->]]; auto).
        congruence.
    + split; [discriminate|]. intros [_ [H|H]]; discriminate.
Qed.

Lemma pages_errors_none input :
  pages_errors input = []
  <-> in_maxPages input = None
      \/ in_maxPages input = Some NaN
      \/ exists q, in_maxPages input = Some (Fin q) /\ (1 <= q <= 20)%Q.
Proof.
  unfold pages_errors. destruct (in_maxPages input) as [n|]; [|tauto].
  destruct (num_lt n 1 || num_gt n 20) eqn:Eb.
  - split; [discriminate|]. intros H.
    assert (num_lt n 1 || num_gt n 20 = false).
    { apply within_bounds. destruct H as [H|[H|(q & H & Hq)]];
        [discriminate|injection H as ->; auto|injection H as ->; eauto]. }
    congruence.
  - apply within_bounds in Eb. split; [|reflexivity]. intros _.
    destruct Eb as [->|(q & -> & Hq)]; eauto.
Qed.

Lemma mode_errors_none input :
  mode_errors input = []
  <-> in_mode input = None
      \/ in_mode input = Some "extract"
      \/ in_mode input = Some "prompt"
      \/ in_mode input = Some "both".
Proof.
  unfold mode_errors. destruct (in_mode input) as [m|]; [|tauto].
  destruct (is_member m ["extract"; "prompt"; "both"]) eqn:Em; cbn [negb].
  - apply is_member_3 in Em. split; [|reflexivity]. intros _.
    destruct Em as [->|[->| ->]]; auto.
  - split; [discriminate|]. intros H.
    assert (is_member m ["extract"; "prompt"; "both"] = true).
    { apply is_member_3.
      destruct H as [H|[H|[H|H]]]; [discriminate|injection H as ->; auto ..]. }
    congruence.
Qed.

Lemma group_lengths protocol_of input :
  length (url_errors protocol_of input) <= 1
  /\ length (pages_errors input) <= 1
  /\ length (mode_errors input) <= 1.
Proof.
  unfold url_errors, pages_errors, mode_errors.
  destruct (String.eqb (in_themeUrl input) "");
    [|destruct (protocol_of (in_themeUrl input)) as [p|];
      [destruct (negb (is_member p ["http:"; "https:"]))|]];
    (destruct (in_maxPages input) as [n|];
     [destruct (num_lt n 1 || num_gt n 20)|]);
    (destruct (in_mode input) as [m|];
     [destruct (negb (is_member m ["extract"; "prompt"; "both"]))|]);
    simpl; lia.
Qed.

(** X23. What [validateInput] accepts. An input of the declared type is
    valid exactly when its theme URL is non-empty and parses to an http or
    https URL, its page limit is absent, or NaN, or a number (whole or not)
    from 1 to 20, and its mode is absent or one of the three modes. There
    are at most three error messages, and none exactly when the input is
    valid. *)
Theorem validateInput_accepts
    (protocol_of : string -> option string) (input : ExtractorInput) :
  (valid (validateInput protocol_of input) = true
   <-> acceptable protocol_of input)
  /\ (valid (validateInput protocol_of input) = true
      <-> errors (validateInput protocol_of input) = [])
  /\ length (errors (validateInput protocol_of input)) <= 3.
Proof.
  rewrite validateInput_groups. cbn [valid errors].
  assert (Hnil : forall l : list string, (length l =? 0) = true <-> l = []).
  { intros l. rewrite Nat.eqb_eq. destruct l; simpl; split;
      intros H; (reflexivity || discriminate). }
  split; [|split].
  - rewrite Hnil. unfold acceptable. split.
    + intros H. apply app_eq_nil in H as [H1 H].
      apply app_eq_nil in H as [H2 H3].
      apply url_errors_none in H1 as [Ha Hb].
      apply pages_errors_none in H2. apply mode_errors_none in H3. auto.
    + intros (Ha & Hb & Hc & Hd).
      rewrite (proj2 (url_errors_none protocol_of input) (conj Ha Hb)),
        (proj2 (pages_errors_none input) Hc),
        (proj2 (mode_errors_none input) Hd).
      reflexivity.
  - apply Hnil.
  - rewrite !length_app.
    pose proof (group_lengths protocol_of input). lia.
Qed.

(** A page limit that is not a number at all passes validation, and the
    normalized configuration carries it on. *)
Example validateInput_accepts_NaN :
  let input := MkExtractorInput "https://a.test/" (Some NaN) None None None None in
  valid (validateInput (fun _ => Some "https:") input) = true
  /\ cf_maxPages (normalizeConfig input) = NaN.
Proof. split; reflexivity. Qed.

End OrchestratorFacts.

(** ** Command-line arguments *)

Module CliFacts.

Import JS Orchestrator Cli OrchestratorFacts.

Lemma parse_arg_mode parseInt arg next result :
  (a_mode result = None \/ known_mode (a_mode result)) ->
  let r := fst (parse_arg parseInt arg next result) in
  a_mode r = None \/ known_mode (a_mode r).
Proof.
  intros Hr. unfold parse_arg.
  repeat match goal with
         | |- context [if ?b then _ else _] =>
             lazymatch b with
             | is_member _ _ => fail
             | _ => destruct b
             end
         end; cbn [fst a_mode]; auto.
  destruct next as [val|]; [|exact Hr].
  destruct (is_member val ["extract"; "prompt"; "both"]) eqn:E; [|exact Hr].
  cbn [a_mode]. right. exists val. auto.
Qed.

Lemma parse_from_mode parseInt : forall n args result,
  length args <= n ->
  (a_mode result = None \/ known_mode (a_mode result)) ->
  let r := parse_from parseInt args result in
  a_mode r = None \/ known_mode (a_mode r).
Proof.
  induction n as [|n IH]; intros args result Hlen Hr.
  - destruct args; [exact Hr|simpl in Hlen; lia].
  - destruct args as [|arg rest]; [exact Hr|]. cbn [parse_from].
    pose proof (parse_arg_mode parseInt arg (hd_error rest) result Hr) as H1.
    destruct (parse_arg parseInt arg (hd_error rest) result) as [r1 skip].
    cbn [fst] in H1. simpl in Hlen. destruct skip.
    + destruct rest as [|v rest']; [exact H1|].
      apply IH; [simpl in Hlen; lia|exact H1].
    + apply IH; [lia|exact H1].
Qed.

(** X24. Whatever the command line, [parseArgs] sets the mode only to
    extract, prompt or both and leaves it unset otherwise; so the input
    that [main] builds from the arguments never draws the mode error of
    [validateInput], and the normalized mode is one of the three. *)
Theorem parseArgs_never_yields_a_bad_mode
    (parseInt : option string -> Num) (args : list string) :
  let parsed := parseArgs parseInt args in
  (a_mode parsed = None \/ known_mode (a_mode parsed))
  /\ forall input,
       main_input parsed = Some input ->
       (forall protocol_of,
          ~ In mode_error (errors (validateInput protocol_of input)))
       /\ is_member (cf_mode (normalizeConfig input))
            ["extract"; "prompt"; "both"] = true.
Proof.
  intros parsed.
  assert (Hm : a_mode parsed = None \/ known_mode (a_mode parsed)).
  { apply (parse_from_mode parseInt (length args)); [lia|left; reflexivity]. }
  split; [exact Hm|]. intros input Hin. unfold main_input in Hin.
  destruct (a_url parsed) as [url|]; [|discriminate].
  destruct (String.eqb url ""); [discriminate|]. injection Hin as <-.
  assert (Hmem : forall m, a_mode parsed = Some m ->
                           is_member m ["extract"; "prompt"; "both"] = true).
  { intros m Hmode. destruct Hm as [Hm|(m' & Hm & Hmem)]; [congruence|].
    congruence. }
  split.
  - intros protocol_of. unfold validateInput. cbn [errors in_themeUrl in_maxPages in_mode].
    destruct (a_mode parsed) as [m|] eqn:Emode.
    + rewrite (Hmem m eq_refl). cbn [negb].
      repeat match goal with
             | |- context [if ?b then _ else _] => destruct b
             | |- context [match ?o with Some _ => _ | None => _ end] =>
                 destruct o
             end; cbn [app In]; intuition discriminate.
    + repeat match goal with
             | |- context [if ?b then _ else _] => destruct b
             | |- context [match ?o with Some _ => _ | None => _ end] =>
                 destruct o
             end; cbn [app In]; intuition discriminate.
  - unfold normalizeConfig. cbn [cf_mode in_mode].
    destruct (a_mode parsed) as [m|] eqn:Emode; [apply Hmem; reflexivity|].
    reflexivity.
Qed.

(** An instance: a command line with an unknown mode. *)
Lemma parseArgs_never_yields_a_bad_mode_witness :
  main_input (parseArgs (fun _ => NaN) ["https://a.test/"; "--mode"; "fast"])
  = Some (MkExtractorInput "https://a.test/" None None None None None)
  /\ is_member
       (cf_mode (normalizeConfig
                   (MkExtractorInput "https://a.test/" None None None None None)))
       ["extract"; "prompt"; "both"] = true.
Proof.
  split; [reflexivity|].
  refine (proj2 (proj2 (parseArgs_never_yields_a_bad_mode
                          (fun _ => NaN) ["https://a.test/"; "--mode"; "fast"])
                   _ _)).
  reflexivity.
Defined.

End CliFacts.

(** ** From the crawl to the extraction *)

Module PipelineFacts.

Import JS Types Extract Tokens Crawler CrawlSpec.

(** X25. The crawl and the extraction together. Whatever session the crawl
    returns, [extract] returns on it. Its robots risk is there exactly when
    the robots check answered "blocked", although the crawl went on all the
    same; and when assets are not included, the note on inline styles is
    there exactly when at least one page was recorded. *)
Theorem crawl_then_extract
    (P : Platform) (fuel : nat) (config : ExtractorConfig) (w0 w : World)
    (sess : CrawlSession) (g : Globals) :
  crawl fuel P config w0 = Some (sess, w) ->
  exists r g',
    extract sess g = Some (r, g')
    /\ (In "robots.txt blocks crawling - results may be incomplete" (risks r)
        <-> rc_allowed (checkRobotsTxt P (themeUrl config)) = false)
    /\ (includeAssets config = false ->
        (notes r
         = ["No external CSS files were fetched - tokens extracted from inline styles only"]
         <-> pages sess <> [])).
Proof.
  intros Hcrawl.
  destruct (AccountFacts.crawl_account P fuel config w0 sess w Hcrawl)
    as (_ & _ & _ & _ & Hsub & _).
  assert (Hrobots : robotsTxtStatus sess
                    = if rc_allowed (checkRobotsTxt P (themeUrl config))
                      then allowed else blocked).
  { unfold crawl, bind, request_robots in Hcrawl.
    destruct (crawl_loop fuel P config (initial config) _) as [[st w1]|];
      [|discriminate].
    destruct (includeAssets config).
    - destruct (asset_pass P (st_allCssLinks st) st w1) as [[st2 w2]|];
        [|discriminate].
      injection Hcrawl as <- _. reflexivity.
    - injection Hcrawl as <- _. reflexivity. }
  destruct (ExtractFacts.extract_spec sess g)
    as (scale & patterns & info & all & _ & _ & _ & He).
  do 2 eexists. split; [exact He|]. cbn [risks notes]. split.
  - unfold risks_of. rewrite Hrobots.
    destruct (50 <? _), (has_signal "Bootstrap" _ && has_signal "Tailwind CSS" _),
      (rc_allowed (checkRobotsTxt P (themeUrl config)));
      cbn [app In]; intuition discriminate.
  - intros Hno. unfold asset_urls in Hsub. rewrite Hno in Hsub.
    apply sublist_nil_r in Hsub. unfold notes_of.
    destruct (cssContents sess); [|discriminate].
    destruct (pages sess); cbn; split; intros H; congruence.
Qed.

(** An instance: the crawl of the toy site, whose robots.txt forbids
    everything. *)
Lemma crawl_then_extract_witness :
  exists sess w r g',
    crawl 5 Spec.toy Spec.toy_config world0 = Some (sess, w)
    /\ extract sess fresh = Some (r, g')
    /\ In "robots.txt blocks crawling - results may be incomplete" (risks r).
Proof.
  destruct (crawl 5 Spec.toy Spec.toy_config world0) as [[sess w]|] eqn:E;
    [|vm_compute in E; discriminate].
  destruct (crawl_then_extract Spec.toy 5 Spec.toy_config world0 w sess fresh E)
    as (r & g' & He & Hr & _).
  exists sess, w, r, g'. split; [reflexivity|]. split; [exact He|].
  apply Hr. vm_compute. reflexivity.
Defined.

End PipelineFacts.

(** ** Where the stack signals point to *)

Module SourceFacts.

Import JS Types Extract Spec SortFacts StackFacts ContainerFacts LinkFacts.

Lemma oset_fold_in {M} (Q : string -> Prop) (step : OSet.t -> M -> OSet.t) :
  forall ms,
    (forall m s, In m ms ->
                 step s m = s \/ exists x, Q x /\ step s m = OSet.add x s) ->
    forall s,
      List.NoDup s -> Forall Q s ->
      List.NoDup (fold_left step ms s) /\ Forall Q (fold_left step ms s).
Proof.
  induction ms as [|m ms IH]; intros Hstep s Hnd HQ; simpl; [auto|].
  assert (Hrest : forall m' s', In m' ms ->
            step s' m' = s' \/ exists x, Q x /\ step s' m' = OSet.add x s')
    by (intros m' s' Hin; apply Hstep; right; exact Hin).
  destruct (Hstep m s (or_introl eq_refl)) as [->|(x & Hx & ->)];
    [apply IH; assumption|].
  apply IH; [exact Hrest|apply oset_add_NoDup; exact Hnd
            |apply oset_add_Forall; assumption].
Qed.

Section Session.

Variable session : CrawlSession.

Local Abbreviation from_session :=
  (fun u => In u (List.map finalUrl (pages session))
            \/ In u (OMap.keys (cssContents session))).

Lemma pattern_step_urls corpus st p :
  List.NoDup (snd (fst st)) -> Forall from_session (snd (fst st)) ->
  List.NoDup (snd (fst (pattern_step session corpus st p)))
  /\ Forall from_session (snd (fst (pattern_step session corpus st p))).
Proof.
  destruct st as [[ev urls] mx]. cbn [fst snd]. intros Hnd HQ.
  unfold pattern_step. destruct (test0 (fp_regex p) corpus); [|auto].
  cbn [fst snd].
  destruct (oset_fold_in from_session
              (fun acc page => if test0 (fp_regex p) (fullHtml page)
                               then OSet.add (finalUrl page) acc else acc)
              (pages session)) with (s := urls) as [Hnd1 HQ1];
    [|exact Hnd|exact HQ|].
  { intros page s Hin. destruct (test0 (fp_regex p) (fullHtml page));
      [|left; reflexivity].
    right. exists (finalUrl page). split; [|reflexivity].
    left. apply in_map. exact Hin. }
  apply (oset_fold_in from_session
           (fun acc entry => if test0 (fp_regex p) (snd entry)
                             then OSet.add (fst entry) acc else acc)
           (cssContents session)); [|exact Hnd1|exact HQ1].
  intros entry s Hin. destruct (test0 (fp_regex p) (snd entry));
    [|left; reflexivity].
  right. exists (fst entry). split; [|reflexivity].
  right. unfold OMap.keys. apply in_map. exact Hin.
Qed.

Lemma run_detector_urls corpus d :
  List.NoDup (snd (fst (run_detector session corpus d)))
  /\ Forall from_session (snd (fst (run_detector session corpus d))).
Proof.
  unfold run_detector.
  assert (H : forall ps st,
            List.NoDup (snd (fst st)) -> Forall from_session (snd (fst st)) ->
            List.NoDup (snd (fst (fold_left (pattern_step session corpus) ps st)))
            /\ Forall from_session
                 (snd (fst (fold_left (pattern_step session corpus) ps st)))).
  { induction ps as [|p ps IH]; intros st Hnd HQ; simpl; [auto|].
    destruct (pattern_step_urls corpus st p Hnd HQ) as [Hnd' HQ'].
    apply IH; assumption. }
  apply H; constructor.
Qed.

Lemma signal_of_urls d :
  Forall (fun s => List.NoDup (sig_sourceUrls s)
                   /\ Forall from_session (sig_sourceUrls s))
         (signal_of session d).
Proof.
  unfold signal_of.
  pose proof (run_detector_urls (allContent session) d) as H.
  destruct (run_detector session (allContent session) d) as [[ev urls] mx].
  cbn [fst snd] in H. destruct (0 <? length ev); constructor; [exact H|constructor].
Qed.

End Session.

(** X26. The source URLs of a stack signal are pairwise distinct, and each
    of them is the final URL of a page of the session or the URL of one of
    its fetched stylesheets. *)
Theorem stack_signal_sources_come_from_the_session (session : CrawlSession) :
  Forall (fun s =>
            List.NoDup (sig_sourceUrls s)
            /\ Forall (fun u => In u (List.map finalUrl (pages session))
                                \/ In u (OMap.keys (cssContents session)))
                      (sig_sourceUrls s))
         (detectStack session).
Proof.
  pose proof (sort_perm (Sort.desc sig_confidence)
                (flat_map (signal_of session) STACK_DETECTORS)) as Hperm.
  rewrite <- detectStack_sorted_table in Hperm.
  eapply Permutation_Forall; [apply Permutation_sym; exact Hperm|].
  apply List.Forall_forall. intros s Hs.
  apply in_flat_map in Hs as (d & _ & Hs).
  pose proof (signal_of_urls session d) as H.
  rewrite List.Forall_forall in H. exact (H s Hs).
Qed.

End SourceFacts.

(** ** Edge cases *)

Module EdgeFacts.

Import JS Types Extract Tokens Crawler.

(** X27. A session without pages and without stylesheets (what a crawl
    returns when the theme URL cannot be fetched for) goes through
    [extract] untouched by any heuristic: no stack signal, no token, no
    heading, no component pattern, an unknown grid system, no note, and no
    risk other than the robots risk of a blocked session; the state of the
    shared patterns is left as it was. *)
Theorem extract_of_empty_session (session : CrawlSession) (g : Globals) :
  pages session = [] ->
  cssContents session = [] ->
  extract session g
  = Some (MkExtractionResult []
            (MkDesignTokens [] [] [] [] [] [])
            (MkTypographyScale [] None [])
            []
            (detectAccessibilitySignals session)
            (MkLayoutInfo [] [] grid_unknown [])
            (match robotsTxtStatus session with
             | blocked =>
                 ["robots.txt blocks crawling - results may be incomplete"]
             | _ => []
             end)
            [],
          g).
Proof.
  destruct session as [start ps css status warning total failed duration].
  cbn [pages cssContents robotsTxtStatus]. intros -> ->.
  destruct g as [v c]. destruct status; vm_compute; reflexivity.
Qed.

(** An instance: a blocked session without pages. *)
Lemma extract_of_empty_session_witness :
  option_map (fun r => risks (fst r))
    (extract (MkCrawlSession "https://a.test/" [] [] blocked None 0 0 0) fresh)
  = Some ["robots.txt blocks crawling - results may be incomplete"].
Proof.
  rewrite (extract_of_empty_session
             (MkCrawlSession "https://a.test/" [] [] blocked None 0 0 0) fresh
             eq_refl eq_refl).
  reflexivity.
Defined.

(** X28. [isSameOrigin] is a partial equivalence on URLs: it is symmetric
    and transitive, it holds of a URL and itself exactly when the URL
    parses, and it never holds when one of the two URLs does not parse. *)
Theorem isSameOrigin_is_a_partial_equivalence (P : Platform) :
  (forall a b, isSameOrigin P a b = isSameOrigin P b a)
  /\ (forall a b c, isSameOrigin P a b = true -> isSameOrigin P b c = true ->
                    isSameOrigin P a c = true)
  /\ (forall a, isSameOrigin P a a = true <-> url_origin P a <> None)
  /\ (forall a b, url_origin P a = None -> isSameOrigin P a b = false
                                           /\ isSameOrigin P b a = false).
Proof.
  unfold isSameOrigin. split; [|split; [|split]].
  - intros a b. destruct (url_origin P a), (url_origin P b); try reflexivity.
    apply String.eqb_sym.
  - intros a b c.
    destruct (url_origin P a), (url_origin P b), (url_origin P c);
      try discriminate.
    rewrite !String.eqb_eq. congruence.
  - intros a. destruct (url_origin P a).
    + rewrite String.eqb_refl. split; [discriminate|reflexivity].
    + split; [discriminate|congruence].
  - intros a b ->. destruct (url_origin P b); auto.
Qed.

(** An instance: two URLs of the toy site. *)
Lemma isSameOrigin_is_a_partial_equivalence_witness :
  isSameOrigin Spec.toy "https://a.test/" "https://a.test/b" = true.
Proof.
  apply (proj1 (proj2 (isSameOrigin_is_a_partial_equivalence Spec.toy))
           "https://a.test/" "https://a.test/x" "https://a.test/b");
    reflexivity.
Defined.

End EdgeFacts.

